(** * Expense tracker: idempotency guard and money codec

    A shallow embedding of the backend's request pipeline for
    [POST /api/expenses]
    (idempotency middleware, validation middleware, controller, error
    handler), of the money utilities, and of the frontend's idempotency-key
    generator, followed by the properties proved about them.

    Conventions of the embedding.
    - A JavaScript string is modelled by the [string] of its UTF-8 bytes.
      Where the source looks at UTF-16 code units ([length]) or at
      characters outside ASCII ([trim]), the model decodes the bytes.
    - A JavaScript [number] that the modelled code computes is a binary64
      value, kept exactly as a pair mantissa/exponent ([Finite m e] denotes
      m * 2^e); decimal-to-binary conversion rounds to nearest, ties to even.
    - [Date] values are integers, milliseconds since the epoch.  Every
      [new Date()] of the source is a separate clock reading, supplied to the
      model in a [Clock] record. *)

From Stdlib Require Import ZArith Lia Ascii String List Bool.
From stdpp Require Import gmap strings list.
Import ListNotations.

Set Warnings "-register-all".

Local Open Scope string_scope.
Local Open Scope Z_scope.

(** ** Characters and strings *)

Definition code (c : ascii) : Z := Z.of_nat (nat_of_ascii c).

(** [\d] *)
Definition isDigit (c : ascii) : bool := (48 <=? code c) && (code c <=? 57).

(** [[0-9a-f]] under the [i] flag *)
Definition isHexDigit (c : ascii) : bool :=
  isDigit c
  || ((97 <=? code c) && (code c <=? 102))
  || ((65 <=? code c) && (code c <=? 70)).

(** The white space and line terminators of ECMA-262 that take one byte in
    UTF-8: U+0009 to U+000D and U+0020. *)
Definition isSpace (c : ascii) : bool :=
  ((9 <=? code c) && (code c <=? 13)) || (code c =? 32).

(** U+00A0, the only one that takes two bytes. *)
Definition isSpace2 (c1 c2 : ascii) : bool :=
  (code c1 =? 194) && (code c2 =? 160).

(** Those that take three: U+1680, U+2000 to U+200A, U+2028, U+2029, U+202F,
    U+205F, U+3000 and U+FEFF. *)
Definition isSpace3 (c1 c2 c3 : ascii) : bool :=
  ((code c1 =? 225) && (code c2 =? 154) && (code c3 =? 128))
  || ((code c1 =? 226) && (code c2 =? 128)
      && (((128 <=? code c3) && (code c3 <=? 138))
          || (code c3 =? 168) || (code c3 =? 169) || (code c3 =? 175)))
  || ((code c1 =? 226) && (code c2 =? 129) && (code c3 =? 159))
  || ((code c1 =? 227) && (code c2 =? 128) && (code c3 =? 128))
  || ((code c1 =? 239) && (code c2 =? 187) && (code c3 =? 191)).

Definition digitVal (c : ascii) : Z := code c - 48.
Definition digitChar (d : Z) : ascii := ascii_of_nat (Z.to_nat (d + 48)).

(** Longest prefix of decimal digits, and the rest. *)
Fixpoint span_digits (s : string) : string * string :=
  match s with
  | String c s' =>
      if isDigit c
      then let '(d, r) := span_digits s' in (String c d, r)
      else (EmptyString, s)
  | EmptyString => (EmptyString, EmptyString)
  end.

(** Value of a digit string read left to right. *)
Fixpoint digitsValue (acc : Z) (s : string) : Z :=
  match s with
  | String c s' => digitsValue (10 * acc + digitVal c) s'
  | EmptyString => acc
  end.

(** [s.trimStart()] *)
Fixpoint dropWhileSpace (s : string) : string :=
  match s with
  | String c1 r1 =>
      if isSpace c1 then dropWhileSpace r1
      else
        match r1 with
        | String c2 r2 =>
            if isSpace2 c1 c2 then dropWhileSpace r2
            else
              match r2 with
              | String c3 r3 => if isSpace3 c1 c2 c3 then dropWhileSpace r3 else s
              | EmptyString => s
              end
        | EmptyString => s
        end
  | EmptyString => EmptyString
  end.

(** Is [s] made of white space and line terminators only? *)
Fixpoint allSpace (s : string) : bool :=
  match s with
  | String c1 r1 =>
      (isSpace c1 && allSpace r1)
      || match r1 with
         | String c2 r2 =>
             (isSpace2 c1 c2 && allSpace r2)
             || match r2 with
                | String c3 r3 => isSpace3 c1 c2 c3 && allSpace r3
                | EmptyString => false
                end
         | EmptyString => false
         end
  | EmptyString => true
  end.

(** [s.trimEnd()] *)
Fixpoint dropEndSpace (s : string) : string :=
  match s with
  | String c s' => if allSpace s then EmptyString else String c (dropEndSpace s')
  | EmptyString => EmptyString
  end.

(** [s.trim()] *)
Definition trim (s : string) : string := dropEndSpace (dropWhileSpace s).

(** [s.length]: the number of UTF-16 code units, one for a character of up
    to three bytes and two for one of four. *)
Fixpoint jsLength (s : string) : Z :=
  match s with
  | String c s' =>
      (if (128 <=? code c) && (code c <? 192) then 0
       else if 240 <=? code c then 2
       else 1) + jsLength s'
  | EmptyString => 0
  end.

(** [xs.join(sep)] *)
Fixpoint join (sep : string) (xs : list string) : string :=
  match xs with
  | [] => EmptyString
  | [x] => x
  | x :: rest => x +:+ sep +:+ join sep rest
  end.

(** [xs.includes(x)] on strings *)
Definition includes (xs : list string) (x : string) : bool :=
  existsb (String.eqb x) xs.

(** Decimal digits of a non-negative integer, most significant first. *)
Fixpoint decimal_aux (fuel : nat) (n : Z) (acc : string) : string :=
  match fuel with
  | O => acc
  | S f =>
      let acc' := String (digitChar (n mod 10)) acc in
      if n <? 10 then acc' else decimal_aux f (n / 10) acc'
  end.

Definition decimal (n : Z) : string :=
  decimal_aux (S (Z.to_nat (Z.log2 n))) n EmptyString.

(** ** Numbers *)

Inductive JsNumber : Type :=
  | NaN
  | Infinity
  | Finite (m e : Z).

(** Nearest integer to a/b (b > 0), ties to even. *)
Definition round_half_even (a b : Z) : Z :=
  let f := a / b in
  let r := a mod b in
  if 2 * r <? b then f
  else if b <? 2 * r then f + 1
  else if Z.even f then f else f + 1.

(** The exponent e with 2^52 <= p/q / 2^e < 2^53, for p, q > 0. *)
Definition binade (p q : Z) : Z :=
  let e0 := Z.log2 p - Z.log2 q - 52 in
  if p * 2 ^ Z.max 0 (- e0) <? q * 2 ^ 52 * 2 ^ Z.max 0 e0 then e0 - 1 else e0.

(** The binary64 value nearest to the non-negative rational p/q. *)
Definition round_double (p q : Z) : JsNumber :=
  if p =? 0 then Finite 0 0
  else
    let e := Z.max (binade p q) (-1074) in
    let m := round_half_even (p * 2 ^ Z.max 0 (- e)) (q * 2 ^ Z.max 0 e) in
    if (971 <? e) || ((e =? 971) && (2 ^ 53 <=? m)) then Infinity
    else Finite m e.

(** An integer literal of the source. *)
Definition num_of_Z (z : Z) : JsNumber := round_double z 1.

(** [x < y]; false as soon as one side is NaN. *)
Definition num_lt (x y : JsNumber) : bool :=
  match x, y with
  | Finite m1 e1, Finite m2 e2 =>
      let e := Z.min e1 e2 in
      m1 * 2 ^ (e1 - e) <? m2 * 2 ^ (e2 - e)
  | Finite _ _, Infinity => true
  | _, _ => false
  end.

(** [x <= y] *)
Definition num_le (x y : JsNumber) : bool :=
  match x, y with
  | Finite m1 e1, Finite m2 e2 =>
      let e := Z.min e1 e2 in
      m1 * 2 ^ (e1 - e) <=? m2 * 2 ^ (e2 - e)
  | Finite _ _, Infinity => true
  | Infinity, Infinity => true
  | _, _ => false
  end.

(** [x > y] *)
Definition num_gt (x y : JsNumber) : bool := num_lt y x.

Definition isNaN (x : JsNumber) : bool :=
  match x with NaN => true | _ => false end.

(** [parseFloat(s)] for the unsigned plain decimals the modelled callers pass:
    the longest prefix [digits] or [digits.digits] is converted, a string
    that does not start with a digit gives NaN.  (Signs, leading white
    space, exponents and a leading dot, which the real [parseFloat] also
    reads, never reach it: each call is behind [amountRegex].) *)
Definition parseFloat (s : string) : JsNumber :=
  let '(ip, r) := span_digits s in
  match ip with
  | EmptyString => NaN
  | _ =>
      let fp := match r with
                | String "." f => fst (span_digits f)
                | _ => EmptyString
                end in
      round_double (digitsValue 0 (ip +:+ fp)) (10 ^ Z.of_nat (String.length fp))
  end.

(** Two-decimal rendering of n hundredths. *)
Definition fixed2 (n : Z) : string :=
  decimal (n / 100)
  +:+ String "." (String (digitChar ((n mod 100) / 10))
                   (String (digitChar (n mod 10)) EmptyString)).

(** [x.toFixed(2)] for the non-negative numbers below 10^21; the integer n
    with n/100 closest to x is printed, the larger one on a tie.  At or above
    10^21 the source's [toFixed] switches to exponent notation, and negative
    numbers do not arise: both are [None] here. *)
Definition toFixed2 (x : JsNumber) : option string :=
  match x with
  | NaN => Some "NaN"
  | Infinity => Some "Infinity"
  | Finite m e =>
      let up := 2 ^ Z.max 0 e in
      let down := 2 ^ Z.max 0 (- e) in
      if (m <? 0) || (10 ^ 21 * down <=? m * up) then None
      else Some (fixed2 ((200 * m * up + down) / (2 * down)))
  end.

(** ** money.util.ts *)

Record AmountValidation : Type :=
  { valid : bool; error : option string }.

(** [/^\d+(\.\d{1,2})?$/.test(s)] *)
Definition amountRegex_test (s : string) : bool :=
  let '(ip, r) := span_digits s in
  match ip with
  | EmptyString => false
  | _ =>
      match r with
      | EmptyString => true
      | String "." f =>
          let '(fp, r') := span_digits f in
          match r' with
          | EmptyString =>
              (1 <=? Z.of_nat (String.length fp)) && (Z.of_nat (String.length fp) <=? 2)
          | _ => false
          end
      | _ => false
      end
  end.

Definition err_amount_required : string := "Amount is required".
Definition err_amount_format : string :=
  "Amount must be a positive number with maximum 2 decimal places (e.g., 123.45)".
Definition err_amount_not_positive : string := "Amount must be greater than 0".
Definition err_amount_too_large : string := "Amount is too large".

(** The literal [9999999999.99]. *)
Definition structural_ceiling : JsNumber := round_double 999999999999 100.

Definition validateAmount (amount : string) : AmountValidation :=
  if String.eqb amount "" || String.eqb (trim amount) "" then
    {| valid := false; error := Some err_amount_required |}
  else if negb (amountRegex_test amount) then
    {| valid := false; error := Some err_amount_format |}
  else
    let parsed := parseFloat amount in
    if isNaN parsed || num_le parsed (num_of_Z 0) then
      {| valid := false; error := Some err_amount_not_positive |}
    else if num_gt parsed structural_ceiling then
      {| valid := false; error := Some err_amount_too_large |}
    else {| valid := true; error := None |}.

(** [parseAmount]: [None] is the source's [null]. *)
Definition parseAmount (amount : string) : option JsNumber :=
  if negb (valid (validateAmount amount)) then None
  else Some (parseFloat amount).

(** The string the template literal of [formatAmount] starts with, byte for
    byte as it stands in money.util.ts. *)
Definition currencyPrefix : string :=
  String (ascii_of_nat 195) (String (ascii_of_nat 162)
  (String (ascii_of_nat 226) (String (ascii_of_nat 128) (String (ascii_of_nat 154)
  (String (ascii_of_nat 194) (String (ascii_of_nat 185) EmptyString)))))).

(** [formatAmount(amount: string | number)].  A string goes through
    [parseFloat], which is modelled for the strings of the amount format
    only: on any other string, as on a number [toFixed2] does not cover, the
    result is [None]. *)
Definition formatAmount (amount : string + JsNumber) : option string :=
  let num := match amount with
             | inl s => if amountRegex_test s then Some (parseFloat s) else None
             | inr n => Some n
             end in
  match num with
  | Some n =>
      match toFixed2 n with
      | Some digits => Some (currencyPrefix +:+ digits)
      | None => None
      end
  | None => None
  end.

(** [formatAmount(parseAmount(s))]; on [null] the source's [num.toFixed]
    throws a TypeError, which is [None] here. *)
Definition format_parsed (s : string) : option string :=
  match parseAmount s with
  | Some x => formatAmount (inr x)
  | None => None
  end.

(** ** JavaScript values (request and response bodies) *)

(** An object is the list of its own enumerable properties in the order
    [Object.keys] reports them. *)
Inductive JsValue : Type :=
  | JUndefined
  | JNull
  | JBool (b : bool)
  | JNum (n : JsNumber)
  | JStr (s : string)
  | JArr (items : list JsValue)
  | JObj (props : list (string * JsValue)).

Fixpoint lookupProp (k : string) (props : list (string * JsValue)) : JsValue :=
  match props with
  | [] => JUndefined
  | (k', v) :: rest => if String.eqb k k' then v else lookupProp k rest
  end.

(** [v.k] for one of the four field names read by the validator (an array
    has none of them). *)
Definition getProp (v : JsValue) (k : string) : JsValue :=
  match v with
  | JObj props => lookupProp k props
  | _ => JUndefined
  end.

(** [Object.keys(v)] *)
Definition objectKeys (v : JsValue) : list string :=
  match v with
  | JObj props => map fst props
  | JArr items => map (fun i => decimal (Z.of_nat i)) (seq 0 (List.length items))
  | _ => []
  end.

(** [!v] is [negb (truthy v)] *)
Definition truthy (v : JsValue) : bool :=
  match v with
  | JUndefined | JNull => false
  | JBool b => b
  | JNum NaN => false
  | JNum Infinity => true
  | JNum (Finite m _) => negb (m =? 0)
  | JStr s => negb (String.eqb s "")
  | JArr _ | JObj _ => true
  end.

(** [typeof v === 'object'] *)
Definition typeofObject (v : JsValue) : bool :=
  match v with
  | JNull | JArr _ | JObj _ => true
  | _ => false
  end.

(** ** The Express response object *)

(** [res.json] is either Express's own or the closure installed by the
    idempotency middleware, which captures the request's key. *)
Inductive JsonImpl : Type :=
  | OriginalJson
  | PatchedJson (idempotencyKey : string).

Record Response : Type :=
  { statusCode : Z;
    sentBody : option JsValue;
    json : JsonImpl }.

(** A fresh response: status 200, nothing sent. *)
Definition freshResponse : Response :=
  {| statusCode := 200; sentBody := None; json := OriginalJson |}.

(** [res.status(c)] *)
Definition res_status (c : Z) (res : Response) : Response :=
  {| statusCode := c; sentBody := sentBody res; json := json res |}.

(** Express's [res.json(body)]: the body is sent. *)
Definition originalJson (body : JsValue) (res : Response) : Response :=
  {| statusCode := statusCode res; sentBody := Some body; json := json res |}.

(** The object literal [{ error, message }]. *)
Definition errorBody (err msg : string) : JsValue :=
  JObj [("error", JStr err); ("message", JStr msg)].

(** ** The idempotency store *)

(** A row of [idempotency_store]; the surrogate [id] column, which no code
    reads, is left out.  [key] carries a unique index, so the table is a
    finite map from keys to rows.  [response] is a JSONB column: it holds
    what the database makes of the JSON value handed to [create]. *)
Record IdempotencyRecord : Type :=
  { key : string;
    response : JsValue;
    createdAt : Z;
    expiresAt : Z }.

(** The [data] argument of [prisma.idempotencyStore.create]. *)
Record CreateData : Type :=
  { data_key : string;
    data_response : JsValue;
    data_expiresAt : Z }.

(** What the log records: the calls to the idempotency store and to the
    service, and a rejected promise that nothing handles. *)
Inductive Event : Type :=
  | EvFindUnique (k : string)
  | EvDelete (k : string)
  | EvCreate (k : string) (succeeded : bool)
  | EvService (data : JsValue)
  | EvUnhandledRejection (k : string).

(** [findUnique({ where: { key } })] *)
Definition store_findUnique (k : string) (st : gmap string IdempotencyRecord)
  : option IdempotencyRecord := st !! k.

(** [delete({ where: { key } })]: rejects (P2025) when no row has the key. *)
Definition store_delete (k : string) (st : gmap string IdempotencyRecord)
  : option (gmap string IdempotencyRecord) :=
  match st !! k with
  | Some _ => Some (delete k st)
  | None => None
  end.

(** [create({ data })]: rejects (P2002) when the key is taken; [createdAt] is
    the column default, the store's clock when the row is written; [jsonb]
    is what the JSONB column makes of a value (PostgreSQL does not keep the
    order of the keys of an object). *)
Definition store_create (jsonb : JsValue -> JsValue) (now : Z) (d : CreateData)
    (st : gmap string IdempotencyRecord)
  : option (gmap string IdempotencyRecord) :=
  match st !! data_key d with
  | Some _ => None
  | None =>
      Some (<[data_key d :=
                {| key := data_key d;
                   response := jsonb (data_response d);
                   createdAt := now;
                   expiresAt := data_expiresAt d |}]> st)
  end.

(** [deleteMany({ where: { expiresAt: { lt: now } } })] with its count. *)
Definition store_deleteManyExpired (now : Z) (st : gmap string IdempotencyRecord)
  : gmap string IdempotencyRecord * nat :=
  let kept := filter (fun kv => ¬ (expiresAt (snd kv) < now)) st in
  (kept, (size st - size kept)%nat).


Definition msPerHour : Z := 3600000.

(** [d.setHours(d.getHours() + 24)] on the time value [t] (ECMA-262,
    Date.prototype.setHours): the local time of [t] is moved on by 24 hours
    and read back as UTC.  [LocalTZA t isUTC] is the offset of local time
    from UTC in milliseconds, at the UTC time [t] when [isUTC] and at the
    local time [t] otherwise. *)
Definition setHours_plus24 (LocalTZA : Z -> bool -> Z) (t : Z) : Z :=
  let local := t + LocalTZA t true in
  let date := local + 24 * msPerHour in
  date - LocalTZA date false.

(** The clock of one request: its readings in program order (the expiry
    test of the middleware, the validator's start of the next local day, the
    patched [res.json], the store's clock when the dispatched insert is
    written) and the time zone of the server. *)
Record Clock : Type :=
  { at_lookup : Z;
    tomorrow : Z;
    at_json : Z;
    at_insert : Z;
    LocalTZA : Z -> bool -> Z }.

(** [expiresAt] as the patched [res.json] computes it. *)
Definition newExpiresAt (clk : Clock) : Z :=
  setHours_plus24 (LocalTZA clk) (at_json clk).

(** What is attached to a promise with [.catch]; the middleware attaches
    [() => {}]. *)
Inductive CatchHandler : Type :=
  | IgnoreRejection.

(** A promise that was dispatched and is not awaited: the insert it stands
    for and its [.catch] handler, if it has one. *)
Record Dispatched : Type :=
  { dispatched_data : CreateData;
    dispatched_catch : option CatchHandler }.

(** The promise the patched [res.json] dispatches for a body [b] sent under
    the key [k]. *)
Definition dispatchedInsert (clk : Clock) (k : string) (b : JsValue) : Dispatched :=
  {| dispatched_data := {| data_key := k;
                           data_response := b;
                           data_expiresAt := newExpiresAt clk |};
     dispatched_catch := Some IgnoreRejection |}.

(** What other requests do to the idempotency table while this one is
    between two of its own calls to it. *)
Definition Interference : Type :=
  gmap string IdempotencyRecord -> gmap string IdempotencyRecord.

(** ** idempotency.util.ts (frontend) *)

(** [v.toString(16)] for a non-negative integer. *)
Definition hexChar (d : Z) : ascii :=
  if d <? 10 then ascii_of_nat (Z.to_nat (d + 48))
  else ascii_of_nat (Z.to_nat (d + 87)).

Fixpoint toString16_aux (fuel : nat) (n : Z) (acc : string) : string :=
  match fuel with
  | O => acc
  | S f =>
      let acc' := String (hexChar (n mod 16)) acc in
      if n <? 16 then acc' else toString16_aux f (n / 16) acc'
  end.

Definition toString16 (n : Z) : string :=
  toString16_aux (S (Z.to_nat (Z.log2 n))) n EmptyString.

(** [x | 0] on an integer: reduction to a signed 32-bit value. *)
Definition toInt32 (z : Z) : Z := (z + 2 ^ 31) mod 2 ^ 32 - 2 ^ 31.

(** [(Math.random() * 16) | 0], the draw being the rational num/den: the
    product is exact in binary64 and [| 0] truncates it. *)
Definition randomNibble (draw : Z * Z) : Z :=
  toInt32 (Z.quot (fst draw * 16) (snd draw)).

(** The replacement callback of [generateIdempotencyKey]. *)
Definition replaceXY (c : ascii) (draw : Z * Z) : string :=
  let r := randomNibble draw in
  let v := if Ascii.eqb c "x" then r else Z.lor (Z.land r 3) 8 in
  toString16 v.

(** [template.replace(/[xy]/g, callback)]: the callback runs once per match,
    left to right; the i-th run takes the i-th value of [Math.random]. *)
Fixpoint replaceAllXY (template : string) (random : nat -> Z * Z) (i : nat) : string :=
  match template with
  | EmptyString => EmptyString
  | String c rest =>
      if Ascii.eqb c "x" || Ascii.eqb c "y"
      then replaceXY c (random i) +:+ replaceAllXY rest random (S i)
      else String c (replaceAllXY rest random i)
  end.

Definition generateIdempotencyKey (random : nat -> Z * Z) : string :=
  replaceAllXY "xxxxxxxx-xxxx-4xxx-yxxx-xxxxxxxxxxxx" random 0%nat.

(** ** idempotency.middleware.ts: key format *)

(** Exactly n hexadecimal digits, then the rest. *)
Fixpoint eatHex (n : nat) (s : string) : option string :=
  match n with
  | O => Some s
  | S n' =>
      match s with
      | String c s' => if isHexDigit c then eatHex n' s' else None
      | EmptyString => None
      end
  end.

Definition eatDash (s : string) : option string :=
  match s with
  | String "-" s' => Some s'
  | _ => None
  end.

(** [/^[0-9a-f]{8}-[0-9a-f]{4}-[0-9a-f]{4}-[0-9a-f]{4}-[0-9a-f]{12}$/i.test(s)] *)
Definition uuidRegex_test (s : string) : bool :=
  let group (n : nat) (rest : option string) : option string :=
    match rest with
    | Some r => match eatHex n r with Some r' => eatDash r' | None => None end
    | None => None
    end in
  match group 4%nat (group 4%nat (group 4%nat (group 8%nat (Some s)))) with
  | Some r => match eatHex 12 r with Some EmptyString => true | _ => false end
  | None => false
  end.

(** ** error.middleware.ts *)

(** What the service can throw, as far as [errorHandler] tells errors apart:
    a [PrismaClientKnownRequestError] with its code, a
    [PrismaClientValidationError], or any other value with its [statusCode]
    and [message] properties ([None] when undefined). *)
Inductive Thrown : Type :=
  | PrismaKnownRequestError (code : string)
  | PrismaValidationError
  | OtherError (statusCode : option Z) (message : option string).

(** The status and body [errorHandler] passes to [res.status(..).json(..)]. *)
Definition errorHandler (err : Thrown) : Z * JsValue :=
  let default (sc : option Z) (msg : option string) :=
    let statusCode := match sc with
                      | Some c => if c =? 0 then 500 else c
                      | None => 500
                      end in
    let message := match msg with
                   | Some m => if String.eqb m "" then "Internal Server Error" else m
                   | None => "Internal Server Error"
                   end in
    (statusCode,
     errorBody (if 500 <=? statusCode then "Internal Server Error" else "Error")
               (if 500 <=? statusCode then "An unexpected error occurred" else message)) in
  match err with
  | PrismaKnownRequestError code =>
      if String.eqb code "P2002" then
        (409, errorBody "Conflict" "A record with this data already exists")
      else if String.eqb code "P2003" then
        (400, errorBody "Bad Request" "Invalid reference in request data")
      else if String.eqb code "P2025" then
        (404, errorBody "Not Found" "Requested resource not found")
      else default None (Some "")
  | PrismaValidationError =>
      (400, errorBody "Validation Error" "Invalid data provided")
  | OtherError sc msg => default sc msg
  end.

(** ** validation.middleware.ts *)

Definition ALLOWED_CATEGORIES : list string :=
  ["Food"; "Transport"; "Entertainment"; "Utilities"; "Healthcare"; "Shopping"; "Other"].

Definition allowedFields : list string :=
  ["amount"; "category"; "description"; "date"].

(** The literal ['Amount cannot exceed ₹10,000,000'] (the sign in UTF-8). *)
Definition err_amount_ceiling : string :=
  "Amount cannot exceed " +:+
  String (ascii_of_nat 226) (String (ascii_of_nat 130) (String (ascii_of_nat 185)
  "10,000,000")).

(** The amount branch of [validateCreateExpense]: the errors it pushes. *)
Definition validateAmountField (amount : JsValue) : list string :=
  match amount with
  | JNull | JUndefined => ["Amount is required"]
  | JStr a =>
      let amountValidation := validateAmount a in
      if negb (valid amountValidation) then
        match error amountValidation with Some e => [e] | None => [] end
      else
        let numAmount := parseFloat a in
        if num_gt numAmount (num_of_Z 10000000) then [err_amount_ceiling] else []
  | _ => ["Amount must be a string for precision"]
  end.

Definition validateCategoryField (category : JsValue) : list string :=
  if negb (truthy category) then ["Category is required"]
  else
    match category with
    | JStr c =>
        let trimmedCategory := trim c in
        if String.eqb trimmedCategory "" then ["Category cannot be empty"]
        else if negb (includes ALLOWED_CATEGORIES trimmedCategory) then
          ["Category must be one of: " +:+ join ", " ALLOWED_CATEGORIES]
        else []
    | _ => ["Category must be a string"]
    end.

Definition lower (c : ascii) : ascii :=
  if (65 <=? code c) && (code c <=? 90) then ascii_of_nat (nat_of_ascii c + 32) else c.

Fixpoint prefixCI (pat s : string) : bool :=
  match pat, s with
  | EmptyString, _ => true
  | String p pat', String c s' => Ascii.eqb (lower p) (lower c) && prefixCI pat' s'
  | String _ _, EmptyString => false
  end.

(** Does [pat] occur in [s], letters compared without case? *)
Fixpoint containsCI (pat s : string) : bool :=
  prefixCI pat s ||
  match s with
  | String _ s' => containsCI pat s'
  | EmptyString => false
  end.

(** [/<script|javascript:|onerror=|onclick=/i.test(s)] *)
Definition suspiciousPatterns_test (s : string) : bool :=
  containsCI "<script" s || containsCI "javascript:" s
  || containsCI "onerror=" s || containsCI "onclick=" s.

Definition validateDescriptionField (description : JsValue) : list string :=
  if negb (truthy description) then ["Description is required"]
  else
    match description with
    | JStr d =>
        let trimmedDesc := trim d in
        (if String.eqb trimmedDesc "" then ["Description cannot be empty"]
         else if jsLength trimmedDesc <? 3 then
           ["Description must be at least 3 characters"]
         else if 500 <? jsLength trimmedDesc then
           ["Description must be 500 characters or less"]
         else [])
        ++ (if suspiciousPatterns_test trimmedDesc
            then ["Description contains invalid characters"] else [])
    | _ => ["Description must be a string"]
    end.

(** [/^\d{4}-\d{2}-\d{2}$/.test(s)] *)
Definition dateRegex_test (s : string) : bool :=
  match s with
  | String y1 (String y2 (String y3 (String y4 (String "-"
      (String m1 (String m2 (String "-" (String d1 (String d2 EmptyString))))))))) =>
      forallb isDigit [y1; y2; y3; y4; m1; m2; d1; d2]
  | _ => false
  end.

(** [new Date('2000-01-01')] *)
Definition minDate : Z := 946684800000.

Section Pipeline.

(** The runtime's parser behind [new Date(date + 'T00:00:00Z')]: the time
    value, or [None] for an Invalid Date. *)
Variable Date_parse : string -> option Z.

(** The state of the expenses table, and [ExpenseService.createExpense],
    which either returns the formatted expense or throws. *)
Variable Db : Type.
Variable createExpenseSvc : JsValue -> Db -> Db * (Thrown + JsValue).

(** What the JSONB column [response] makes of a value written to it. *)
Variable jsonb : JsValue -> JsValue.

Definition validateDateField (tomorrow : Z) (date : JsValue) : list string :=
  if negb (truthy date) then ["Date is required"]
  else
    match date with
    | JStr d =>
        if negb (dateRegex_test d) then ["Date must be in YYYY-MM-DD format"]
        else
          match Date_parse (d +:+ "T00:00:00Z") with
          | None => ["Date is invalid (e.g., 2026-02-30 does not exist)"]
          | Some parsedDate =>
              (if tomorrow <=? parsedDate then ["Date cannot be in the future"] else [])
              ++ (if parsedDate <? minDate then ["Date cannot be before year 2000"] else [])
          end
    | _ => ["Date must be a string in YYYY-MM-DD format"]
    end.

(** [Object.keys(req.body).filter((key) => !allowedFields.includes(key))] *)
Definition extraFields (body : JsValue) : list string :=
  List.filter (fun k => negb (includes allowedFields k)) (objectKeys body).

Definition validateExtraFields (body : JsValue) : list string :=
  if 0 <? Z.of_nat (List.length (extraFields body))
  then ["Unexpected fields: " +:+ join ", " (extraFields body)]
  else [].

(** The array [errors] when [validateCreateExpense] reaches its final test. *)
Definition validationErrors (tomorrow : Z) (body : JsValue) : list string :=
  validateAmountField (getProp body "amount")
  ++ validateCategoryField (getProp body "category")
  ++ validateDescriptionField (getProp body "description")
  ++ validateDateField tomorrow (getProp body "date")
  ++ validateExtraFields body.

(** The state the pipeline runs in: the idempotency table, the inserts that
    were dispatched and not awaited, the expenses table, and the log of
    store and service calls made so far (oldest first). *)
Record World : Type :=
  { store : gmap string IdempotencyRecord;
    pending : list Dispatched;
    db : Db;
    trace : list Event }.

Definition log (e : Event) (w : World) : World :=
  {| store := store w; pending := pending w; db := db w; trace := trace w ++ [e] |}.

Definition set_store (st : gmap string IdempotencyRecord) (w : World) : World :=
  {| store := st; pending := pending w; db := db w; trace := trace w |}.

Definition set_db (d : Db) (w : World) : World :=
  {| store := store w; pending := pending w; db := d; trace := trace w |}.

Definition dispatch (d : Dispatched) (w : World) : World :=
  {| store := store w; pending := pending w ++ [d]; db := db w; trace := trace w |}.

(** [res.json(body)]: through the middleware's closure when it was
    installed.  A body sent with a 2xx status is handed to
    [idempotencyStore.create], whose promise is not awaited. *)
Definition res_json (clk : Clock) (body : JsValue) (res : Response) (w : World)
  : World * Response :=
  match json res with
  | PatchedJson idempotencyKey =>
      let w' :=
        if (200 <=? statusCode res) && (statusCode res <? 300) then
          let expiresAt := setHours_plus24 (LocalTZA clk) (at_json clk) in
          dispatch {| dispatched_data := {| data_key := idempotencyKey;
                                            data_response := body;
                                            data_expiresAt := expiresAt |};
                      dispatched_catch := Some IgnoreRejection |} w
        else w in
      (w', originalJson body res)
  | OriginalJson => (w, originalJson body res)
  end.

(** One dispatched insert reaching the store.  When the store rejects it,
    the promise is rejected: its [.catch] handler runs, and without one the
    rejection is unhandled. *)
Definition run_create (now : Z) (p : Dispatched) (w : World) : World :=
  let d := dispatched_data p in
  match store_create jsonb now d (store w) with
  | Some st' => log (EvCreate (data_key d) true) (set_store st' w)
  | None =>
      let w' := log (EvCreate (data_key d) false) w in
      match dispatched_catch p with
      | Some IgnoreRejection => w'
      | None => log (EvUnhandledRejection (data_key d)) w'
      end
  end.

(** All dispatched inserts reach the store. *)
Definition settle (now : Z) (w : World) : World :=
  fold_left (fun w' p => run_create now p w')
            (pending w)
            {| store := store w; pending := []; db := db w; trace := trace w |}.

(** [ExpenseController.createExpense], with [next(error)] resolved to the
    application's [errorHandler]. *)
Definition createExpense (clk : Clock) (body : JsValue) (res : Response) (w : World)
  : World * Response :=
  let w1 := log (EvService body) w in
  match createExpenseSvc body (db w1) with
  | (db', inr expense) => res_json clk expense (res_status 201 res) (set_db db' w1)
  | (db', inl err) =>
      let '(c, b) := errorHandler err in
      res_json clk b (res_status c res) (set_db db' w1)
  end.

(** [validateCreateExpense], [next] being the controller. *)
Definition validateCreateExpense (clk : Clock) (body : JsValue) (res : Response) (w : World)
  : World * Response :=
  if negb (truthy body) || negb (typeofObject body) then
    res_json clk
      (errorBody "Validation Error" "Request body is required")
      (res_status 400 res) w
  else
    let errors := validationErrors (tomorrow clk) body in
    if 0 <? Z.of_nat (List.length errors) then
      res_json clk
        (JObj [("error", JStr "Validation Error");
               ("message", JStr "Invalid request data");
               ("details", JArr (map JStr errors))])
        (res_status 400 res) w
    else createExpense clk body res w.

Record Request : Type :=
  { method : string;
    idempotencyKeyHeader : option string;
    body : JsValue }.

(** [idempotencyMiddleware], [next] being the rest of the route
    ([validateCreateExpense], then the controller).  The assignment to
    [req.idempotencyKey], which nothing reads, is left out; [failed] is the
    [catch] block, reached when the awaited [delete] is rejected; [racing] is
    what other requests do to the table between the lookup and that
    delete. *)
Definition idempotencyMiddleware (clk : Clock) (racing : Interference) (req : Request)
    (res : Response) (w : World)
  : World * Response :=
  if negb (String.eqb (method req) "POST") then
    validateCreateExpense clk (body req) res w
  else
    match idempotencyKeyHeader req with
    | None | Some EmptyString =>
        (w, originalJson
              (errorBody "Bad Request" "Idempotency-Key header is required for POST requests")
              (res_status 400 res))
    | Some idempotencyKey =>
        if negb (uuidRegex_test idempotencyKey) then
          (w, originalJson
                (errorBody "Bad Request" "Idempotency-Key must be a valid UUID")
                (res_status 400 res))
        else
          let failed (w' : World) :=
            (w', originalJson
                   (errorBody "Internal Server Error" "Failed to process idempotency check")
                   (res_status 500 res)) in
          let proceed (w' : World) :=
            validateCreateExpense clk (body req)
              {| statusCode := statusCode res;
                 sentBody := sentBody res;
                 json := PatchedJson idempotencyKey |} w' in
          let w1 := log (EvFindUnique idempotencyKey) w in
          match store_findUnique idempotencyKey (store w1) with
          | Some existingRecord =>
              if expiresAt existingRecord <? at_lookup clk then
                let w2 := log (EvDelete idempotencyKey)
                              (set_store (racing (store w1)) w1) in
                match store_delete idempotencyKey (store w2) with
                | Some st' => proceed (set_store st' w2)
                | None => failed w2
                end
              else
                let cachedResponse := response existingRecord in
                (w1, originalJson cachedResponse (res_status 200 res))
          | None => proceed w1
          end
    end.

(** One request to [POST /expenses] from arrival until the inserts in
    flight have reached the store; [others] is what other requests do to the
    table between the response and then. *)
Definition handle (clk : Clock) (racing others : Interference) (req : Request) (w : World)
  : World * Response :=
  let '(w1, res) := idempotencyMiddleware clk racing req freshResponse w in
  (settle (at_insert clk) (set_store (others (store w1)) w1), res).

(** The same with no other request in flight. *)
Definition handle_alone (clk : Clock) (req : Request) (w : World) : World * Response :=
  handle clk (fun st => st) (fun st => st) req w.

(** [cleanupExpiredIdempotencyRecords] *)
Definition cleanupExpiredIdempotencyRecords (now : Z) (w : World) : World * nat :=
  let '(st', count) := store_deleteManyExpired now (store w) in
  (set_store st' w, count).

Definition serviceCalls (t : list Event) : list JsValue :=
  omap (fun e => match e with EvService d => Some d | _ => None end) t.

Definition isStoreWrite (e : Event) : bool :=
  match e with
  | EvDelete _ | EvCreate _ _ => true
  | _ => false
  end.

Definition isCreate (e : Event) : bool :=
  match e with
  | EvCreate _ _ => true
  | _ => false
  end.

End Pipeline.

Arguments store {Db} _.
Arguments pending {Db} _.
Arguments db {Db} _.
Arguments trace {Db} _.
Arguments log {Db} _ _.
Arguments set_store {Db} _ _.
Arguments set_db {Db} _ _.
Arguments dispatch {Db} _ _.
Arguments res_json {Db} _ _ _ _.
Arguments run_create {Db} _ _ _ _.
Arguments settle {Db} _ _ _.
Arguments cleanupExpiredIdempotencyRecords {Db} _ _.

(** The reply of the rest of the route (validator, controller, error
    handler) as a function of the request body and the expenses table: the
    new table, the service calls made, and the status and body passed to
    [res.status(..).json(..)]. *)
Definition route_reply (Date_parse : string -> option Z) {Db : Type}
    (createExpenseSvc : JsValue -> Db -> Db * (Thrown + JsValue))
    (clk : Clock) (body : JsValue) (d : Db) : Db * list Event * (Z * JsValue) :=
  if negb (truthy body) || negb (typeofObject body) then
    (d, [], (400, errorBody "Validation Error" "Request body is required"))
  else
    let errors := validationErrors Date_parse (tomorrow clk) body in
    if 0 <? Z.of_nat (List.length errors) then
      (d, [], (400, JObj [("error", JStr "Validation Error");
                          ("message", JStr "Invalid request data");
                          ("details", JArr (map JStr errors))]))
    else
      match createExpenseSvc body d with
      | (d', inr expense) => (d', [EvService body], (201, expense))
      | (d', inl err) => (d', [EvService body], errorHandler err)
      end.

Definition is2xx (c : Z) : bool := (200 <=? c) && (c <? 300).

(** Is the record still usable at the middleware's expiry test? *)
Definition live (clk : Clock) (r : option IdempotencyRecord) : bool :=
  match r with
  | Some rec => negb (expiresAt rec <? at_lookup clk)
  | None => false
  end.

(** ** Sample runtime, service and requests *)

Definition sampleDateParse (s : string) : option Z :=
  if String.eqb s "2026-01-15T00:00:00Z" then Some 1768435200000 else None.

(** An expenses table that only counts its rows; ids are the row numbers. *)
Definition sampleService (body : JsValue) (rows : nat) : nat * (Thrown + JsValue) :=
  (S rows,
   inr (JObj [("id", JStr (decimal (Z.of_nat rows)));
              ("amount", getProp body "amount");
              ("category", getProp body "category");
              ("description", getProp body "description");
              ("date", getProp body "date")])).

(** A service whose database is unreachable. *)
Definition failingService (body : JsValue) (rows : nat) : nat * (Thrown + JsValue) :=
  (rows, inl (PrismaKnownRequestError "P1001")).

Definition sampleKey : string := "11111111-1111-4111-8111-111111111111".

Definition sampleBody : JsValue :=
  JObj [("amount", JStr "99.99"); ("category", JStr "Food");
        ("description", JStr "Lunch"); ("date", JStr "2026-01-15")].

Definition sampleRequest : Request :=
  {| method := "POST"; idempotencyKeyHeader := Some sampleKey; body := sampleBody |}.

(** PostgreSQL's [jsonb] on the values the route sends: the keys of an
    object are kept shortest first, keys of one length in byte order. *)
Definition keyBefore (k1 k2 : string) : bool :=
  (String.length k1 <? String.length k2)%nat
  || ((String.length k1 =? String.length k2)%nat && String.ltb k1 k2).

Fixpoint insertProp (p : string * JsValue) (props : list (string * JsValue))
  : list (string * JsValue) :=
  match props with
  | [] => [p]
  | q :: rest => if keyBefore (fst q) (fst p) then q :: insertProp p rest else p :: props
  end.

Fixpoint postgresJsonb (v : JsValue) : JsValue :=
  match v with
  | JArr items => JArr (map postgresJsonb items)
  | JObj props =>
      JObj ((fix sorted (ps : list (string * JsValue)) : list (string * JsValue) :=
               match ps with
               | [] => []
               | (k, x) :: rest => insertProp (k, postgresJsonb x) (sorted rest)
               end) props)
  | _ => v
  end.

(** A server that keeps UTC. *)
Definition utc (t : Z) (isUTC : bool) : Z := 0.

(** 2026-01-15T12:00:00Z and the readings that follow within the request. *)
Definition sampleClock : Clock :=
  {| at_lookup := 1768478400000;
     tomorrow := 1768521600000;
     at_json := 1768478400040;
     at_insert := 1768478400055;
     LocalTZA := utc |}.

(** One hour later. *)
Definition laterClock : Clock :=
  {| at_lookup := 1768482000000;
     tomorrow := 1768521600000;
     at_json := 1768482000040;
     at_insert := 1768482000055;
     LocalTZA := utc |}.


(** New York around the night of 8 March 2026, when the clocks go from 02:00
    to 03:00 (07:00 UTC): five hours behind UTC before, four after. *)
Definition newYork (t : Z) (isUTC : bool) : Z :=
  if isUTC
  then if t <? 1772953200000 then -18000000 else -14400000
  else if t <? 1772938800000 then -18000000 else -14400000.


Definition emptyWorld : World nat :=
  {| store := ∅; pending := []; db := 0%nat; trace := [] |}.

(** A record for [sampleKey] that expired on 2026-01-10. *)
Definition staleRecord : IdempotencyRecord :=
  {| key := sampleKey;
     response := JObj [("id", JStr "old")];
     createdAt := 1767916800000;
     expiresAt := 1768003200000 |}.

Definition staleWorld : World nat :=
  {| store := {[ sampleKey := staleRecord ]}; pending := []; db := 1%nat; trace := [] |}.

(** Another request with the same key wins the race for the insert. *)
Definition rivalRecord : IdempotencyRecord :=
  {| key := sampleKey;
     response := JObj [("id", JStr "rival")];
     createdAt := 1768478400050;
     expiresAt := 1768564800030 |}.

Definition rivalWins : Interference := fun st => <[ sampleKey := rivalRecord ]> st.


Definition sampleDraws (i : nat) : Z * Z := (Z.of_nat i mod 7, 7).

(** The record written for a body [b] sent under the key [k]. *)
Definition newRecord (jsonb : JsValue -> JsValue) (clk : Clock) (k : string) (b : JsValue)
  : IdempotencyRecord :=
  {| key := k; response := jsonb b; createdAt := at_insert clk;
     expiresAt := newExpiresAt clk |}.

(** What a request that is not answered from the cache does, given the table
    [st0] its lookup left behind and the events [pre] of that lookup. *)
Definition fresh_run (Date_parse : string -> option Z) {Db : Type}
    (createExpenseSvc : JsValue -> Db -> Db * (Thrown + JsValue))
    (jsonb : JsValue -> JsValue)
    (clk : Clock) (others : Interference) (k : string) (body : JsValue)
    (st0 : gmap string IdempotencyRecord) (pre : list Event) (w : World Db)
  : World Db * Response :=
  let '(d', evs, (c, b)) := route_reply Date_parse createExpenseSvc clk body (db w) in
  let st1 := others st0 in
  ({| store := if is2xx c
               then match st1 !! k with
                    | None => <[k := newRecord jsonb clk k b]> st1
                    | Some _ => st1
                    end
               else st1;
      pending := [];
      db := d';
      trace := trace w ++ pre ++ evs
               ++ (if is2xx c
                   then [EvCreate k (match st1 !! k with None => true | Some _ => false end)]
                   else []) |},
   {| statusCode := c; sentBody := Some b; json := PatchedJson k |}).

(** The events a run added to the log. *)
Definition added {Db : Type} (before after : World Db) : list Event :=
  drop (List.length (trace before)) (trace after).

(** ** Reference forms used in the statements *)

Fixpoint allDigits (s : string) : bool :=
  match s with
  | String c s' => isDigit c && allDigits s'
  | EmptyString => true
  end.

(** A digit string without its redundant leading zeros. *)
Fixpoint stripLeadingZeros (s : string) : string :=
  match s with
  | String c s' =>
      if Ascii.eqb c "0"
      then match s' with
           | EmptyString => s
           | _ => stripLeadingZeros s'
           end
      else s
  | EmptyString => EmptyString
  end.

(** A fraction of at most two digits padded with zeros to two. *)
Definition pad2 (fp : string) : string :=
  match fp with
  | EmptyString => "00"
  | String c EmptyString => String c "0"
  | _ => fp
  end.

(** An amount string padded to two fractional digits, redundant leading
    zeros of the integer part removed. *)
Definition canonicalAmount (s : string) : string :=
  let '(ip, r) := span_digits s in
  let fp := match r with
            | String "." f => f
            | _ => EmptyString
            end in
  stripLeadingZeros ip +:+ String "." (pad2 fp).

(** [[0-9a-f]] *)
Definition isLowerHex (c : ascii) : bool :=
  isDigit c || ((97 <=? code c) && (code c <=? 102)).

(** One of 8, 9, a, b. *)
Definition isVariantNibble (c : ascii) : bool :=
  (code c =? 56) || (code c =? 57) || (code c =? 97) || (code c =? 98).

(** Does [s] follow the template, x standing for a lower-case hexadecimal
    digit, y for a variant nibble, any other character for itself? *)
Fixpoint conforms (template s : string) : bool :=
  match template, s with
  | EmptyString, EmptyString => true
  | String t template', String c s' =>
      (if Ascii.eqb t "x" then isLowerHex c
       else if Ascii.eqb t "y" then isVariantNibble c
       else Ascii.eqb t c)
      && conforms template' s'
  | _, _ => false
  end.

Definition uuidV4Template : string := "xxxxxxxx-xxxx-4xxx-yxxx-xxxxxxxxxxxx".

(** A request body with a field the validator does not know. *)
Definition pollutedBody : JsValue :=
  JObj [("amount", JStr "99.99"); ("category", JStr "Food");
        ("description", JStr "Lunch"); ("date", JStr "2026-01-15");
        ("isAdmin", JBool true); ("id", JStr "7")].

Definition malformedKeyRequest : Request :=
  {| method := "POST"; idempotencyKeyHeader := Some "not-a-uuid"; body := sampleBody |}.

(** What [sampleService] returns for [sampleBody] on an empty table. *)
Definition sampleExpense : JsValue :=
  JObj [("id", JStr "0"); ("amount", JStr "99.99"); ("category", JStr "Food");
        ("description", JStr "Lunch"); ("date", JStr "2026-01-15")].

(** ** Amounts in hundredths (money.util.ts, formatters.util.ts) *)

(** The hundredths denoted by a string of the amount format. *)
Definition amountCents (s : string) : Z :=
  let '(ip, r) := span_digits s in
  let fp := match r with
            | String "." f => fst (span_digits f)
            | _ => EmptyString
            end in
  100 / 10 ^ Z.of_nat (String.length fp) * digitsValue 0 (ip +:+ fp).

(** formatters.util.ts (frontend): [validateAmountFormat]. *)
Definition validateAmountFormat (amount : string) : bool :=
  amountRegex_test amount && num_gt (parseFloat amount) (num_of_Z 0).

(** ** validation.middleware.ts: validateGetExpenses *)

(** The literal ['Sort must be "date_desc" or omitted']. *)
Definition err_sort : string :=
  "Sort must be " +:+ String (ascii_of_nat 34)
    ("date_desc" +:+ String (ascii_of_nat 34) " or omitted").

(** The array [errors] of [validateGetExpenses] for [req.query]; a parameter
    that is not given is undefined. *)
Definition getExpensesErrors (query : JsValue) : list string :=
  let category := getProp query "category" in
  let sort := getProp query "sort" in
  (match category with
   | JUndefined => []
   | JStr c =>
       if negb (includes ALLOWED_CATEGORIES c)
       then ["Category must be one of: " +:+ join ", " ALLOWED_CATEGORIES]
       else []
   | _ => ["Category must be a string"]
   end)
  ++ (match sort with
      | JUndefined => []
      | JStr so => if negb (String.eqb so "date_desc") then [err_sort] else []
      | _ => [err_sort]
      end).

(** [validateGetExpenses]: the response sent, or [None] when [next] is
    called. *)
Definition validateGetExpenses (query : JsValue) (res : Response) : option Response :=
  let errors := getExpensesErrors query in
  if 0 <? Z.of_nat (List.length errors) then
    Some (originalJson
            (JObj [("error", JStr "Validation Error");
                   ("message", JStr "Invalid query parameters");
                   ("details", JArr (map JStr errors))])
            (res_status 400 res))
  else None.

(** ** expenses.api.ts (frontend) *)

(** The body of an error response as the client types it ([ApiError]);
    [None] is a property that is absent. *)
Record ApiError : Type :=
  { api_error : option string;
    api_message : option string;
    api_details : option (list string) }.

(** What [handleApiError] is given: an axios error without a response, an
    axios error with the response's data, or anything else. *)
Inductive Caught : Type :=
  | AxiosNoResponse
  | AxiosResponse (data : option ApiError)
  | NotAxios.

(** [handleApiError]: the message of the [Error] it returns. *)
Definition handleApiError (error : Caught) : string :=
  match error with
  | AxiosNoResponse => "Network error. Please check your connection and try again."
  | AxiosResponse apiError =>
      let message :=
        match apiError ≫= api_message with
        | Some m => if String.eqb m "" then "An error occurred" else m
        | None => "An error occurred"
        end in
      let details :=
        match apiError ≫= api_details with
        | Some ds => join ", " ds
        | None => EmptyString
        end in
      if negb (String.eqb details "") then message +:+ ": " +:+ details else message
  | NotAxios => "An unexpected error occurred"
  end.

(** The strings of a JSON array of strings. *)
Fixpoint stringItems (items : list JsValue) : option (list string) :=
  match items with
  | [] => Some []
  | JStr s :: rest =>
      match stringItems rest with
      | Some ss => Some (s :: ss)
      | None => None
      end
  | _ => None
  end.

(** A JSON response body read as an [ApiError]. *)
Definition asApiError (body : JsValue) : ApiError :=
  let str (v : JsValue) := match v with JStr s => Some s | _ => None end in
  {| api_error := str (getProp body "error");
     api_message := str (getProp body "message");
     api_details := match getProp body "details" with
                    | JArr items => stringItems items
                    | _ => None
                    end |}.

(** [s.startsWith(p)] *)
Fixpoint startsWith (p s : string) : bool :=
  match p, s with
  | EmptyString, _ => true
  | String a p', String b s' => Ascii.eqb a b && startsWith p' s'
  | String _ _, EmptyString => false
  end.

(** [s.endsWith(suffix)] *)
Fixpoint endsWith (suffix s : string) : bool :=
  String.eqb s suffix
  || match s with
     | String _ s' => endsWith suffix s'
     | EmptyString => false
     end.

(** [s.replace(/\/$/, '')] *)
Fixpoint dropTrailingSlash (s : string) : string :=
  match s with
  | EmptyString => EmptyString
  | String c EmptyString => if Ascii.eqb c "/" then EmptyString else s
  | String c s' => String c (dropTrailingSlash s')
  end.

(** [getApiBaseUrl], [envUrl] being [import.meta.env.VITE_API_URL]. *)
Definition getApiBaseUrl (envUrl : option string) : string :=
  match envUrl with
  | None | Some EmptyString => "/api"
  | Some url =>
      if startsWith "http" url then
        if endsWith "/api" url then url else dropTrailingSlash url +:+ "/api"
      else url
  end.

(** The values [v] the replacement callback of [generateIdempotencyKey]
    writes as digits, in the order of the template: the nibble drawn at an x,
    its two low bits under a set high bit at a y. *)
Fixpoint templateDigits (template : string) (random : nat -> Z * Z) (i : nat) : list Z :=
  match template with
  | EmptyString => []
  | String c rest =>
      if Ascii.eqb c "x" then
        randomNibble (random i) :: templateDigits rest random (S i)
      else if Ascii.eqb c "y" then
        Z.lor (Z.land (randomNibble (random i)) 3) 8 :: templateDigits rest random (S i)
      else templateDigits rest random i
  end.

(** ** Further samples *)

(** A record for [sampleKey] that is good until 2026-01-16. *)
Definition liveRecord : IdempotencyRecord :=
  {| key := sampleKey;
     response := sampleExpense;
     createdAt := 1768478400055;
     expiresAt := 1768564800040 |}.

Definition liveWorld : World nat :=
  {| store := {[ sampleKey := liveRecord ]}; pending := []; db := 1%nat; trace := [] |}.

(** A body without an amount. *)
Definition incompleteBody : JsValue :=
  JObj [("category", JStr "Food"); ("description", JStr "Lunch"); ("date", JStr "2026-01-15")].

Definition incompleteRequest : Request :=
  {| method := "POST"; idempotencyKeyHeader := Some sampleKey; body := incompleteBody |}.

(** Draws that differ from [sampleDraws] in the first one. *)
Definition otherDraws (i : nat) : Z * Z :=
  match i with O => (1, 2) | _ => sampleDraws i end.

(** A second key, with a live record of its own. *)
Definition otherKey : string := "22222222-2222-4222-8222-222222222222".

Definition otherRecord : IdempotencyRecord :=
  {| key := otherKey;
     response := JObj [("id", JStr "other")];
     createdAt := 1768478400010;
     expiresAt := 1768564800000 |}.

Definition busyWorld : World nat :=
  {| store := {[ otherKey := otherRecord ]}; pending := []; db := 0%nat; trace := [] |}.

(** Requests to [POST /expenses] in the order in which they arrive, each
    with the clock it meets and answered before the next one arrives; the
    flag tells whether the inserts in flight reach the store before the next
    request arrives (the code does not wait for them).  The responses are in
    the order of the requests. *)
Fixpoint serve (Date_parse : string -> option Z) {Db : Type}
    (createExpenseSvc : JsValue -> Db -> Db * (Thrown + JsValue))
    (jsonb : JsValue -> JsValue)
    (reqs : list (Clock * Request * bool)) (w : World Db) : World Db * list Response :=
  match reqs with
  | [] => (w, [])
  | (clk, req, landed) :: rest =>
      let '(w1, res) :=
        if landed : bool
        then handle_alone Date_parse Db createExpenseSvc jsonb clk req w
        else idempotencyMiddleware Date_parse Db createExpenseSvc clk (fun st => st) req
               freshResponse w in
      let '(w2, ress) := serve Date_parse createExpenseSvc jsonb rest w1 in
      (w2, res :: ress)
  end.

(** The retries of [useCreateExpense] ([retry: 3]) after a first attempt at
    [sampleClock]: the same request again, one hour later. *)
Definition sampleRetries : list (Clock * Request * bool) :=
  [(laterClock, sampleRequest, false); (laterClock, sampleRequest, true);
   (laterClock, sampleRequest, false)].

(** ** ExpenseTotal.tsx (frontend) *)

(** [x + y] on the non-negative numbers: the exact sum, rounded to nearest. *)
Definition num_add (x y : JsNumber) : JsNumber :=
  match x, y with
  | NaN, _ | _, NaN => NaN
  | Infinity, _ | _, Infinity => Infinity
  | Finite m1 e1, Finite m2 e2 =>
      let e := Z.min e1 e2 in
      round_double ((m1 * 2 ^ (e1 - e) + m2 * 2 ^ (e2 - e)) * 2 ^ Z.max 0 e)
                   (2 ^ Z.max 0 (- e))
  end.

(** [expenses.reduce((sum, expense) => sum + parseFloat(expense.amount), 0)],
    [amounts] being the [amount] fields of [expenses] in their order: the
    decimal strings of the API, which [parseFloat] above covers. *)
Definition total (amounts : list string) : JsNumber :=
  fold_left (fun sum amount => num_add sum (parseFloat amount)) amounts (num_of_Z 0).

(** The exact total, in hundredths. *)
Definition totalCents (amounts : list string) : Z :=
  fold_right (fun amount acc => amountCents amount + acc) 0 amounts.

(** A finite number as a multiple of 2^-1074, the spacing of the smallest
    binary64 numbers. *)
Definition scaled (x : JsNumber) : Z :=
  match x with
  | Finite m e => m * 2 ^ (1074 + e)
  | _ => 0
  end.

(** A number is within [E] parts in 2^53 of a hundredth of [S]. *)
Definition near (x : JsNumber) (S E : Z) : Prop :=
  exists m k, x = Finite m (- k) /\ 0 <= k <= 1074 /\ 0 <= m
              /\ Z.abs (100 * scaled x - S * 2 ^ 1074) * 2 ^ 53 <= E * 2 ^ 1074.

(** ** expense.service.ts: getExpenseSummary *)

(** [summaryMap]: the [Map] from a category to its [{total, count}], the
    entries in insertion order.  [count] counts rows, far below 2^53, and is
    an integer here. *)
Definition SummaryMap : Type := list (string * (JsNumber * Z)).

(** One turn of the loop, for a row with [category] and [amount]. *)
Fixpoint summaryMap_add (category : string) (amount : JsNumber) (m : SummaryMap)
  : SummaryMap :=
  match m with
  | [] => [(category, (num_add (num_of_Z 0) amount, 0 + 1))]
  | (c, (t, n)) :: rest =>
      if String.eqb c category then (c, (num_add t amount, n + 1)) :: rest
      else (c, (t, n)) :: summaryMap_add category amount rest
  end.

(** The loop over [expenses]; a row is its category and what
    [expense.amount.toString()] gives. *)
Definition summaryMap (expenses : list (string * string)) : SummaryMap :=
  fold_left (fun m expense => summaryMap_add (fst expense) (parseFloat (snd expense)) m)
            expenses [].

(** [parseFloat] on what [toFixed] prints: a plain decimal, NaN or Infinity. *)
Definition parseTotal (t : string) : JsNumber :=
  if String.eqb t "Infinity" then Infinity else parseFloat t.

(** The comparator [(a, b) => parseFloat(b.total) - parseFloat(a.total)] is
    positive on [a] and [b]. *)
Definition sortsAfter (a b : string * string * Z) : bool :=
  num_lt (parseTotal (snd (fst a))) (parseTotal (snd (fst b))).

(** [Array.prototype.sort] with that comparator: the sort is stable, an entry
    stays ahead of the later ones unless the comparator puts it after. *)
Fixpoint insertEntry (x : string * string * Z) (l : list (string * string * Z))
  : list (string * string * Z) :=
  match l with
  | [] => [x]
  | y :: l' => if sortsAfter x y then y :: insertEntry x l' else x :: l
  end.

Fixpoint sortEntries (l : list (string * string * Z)) : list (string * string * Z) :=
  match l with
  | [] => []
  | x :: l' => insertEntry x (sortEntries l')
  end.

(** [getExpenseSummary]: entries [{category, total, count}]; [None] where a
    total leaves the range of [toFixed2]. *)
Definition getExpenseSummary (expenses : list (string * string))
  : option (list (string * string * Z)) :=
  summary ← mapM (fun '(category, (t, n)) =>
                    s ← toFixed2 t; Some (category, s, n))
                 (summaryMap expenses);
  Some (sortEntries summary).

(** *** The summary in exact arithmetic *)

(** The categories of the rows, each once, in the order of first appearance. *)
Definition categoriesOf (expenses : list (string * string)) : list string :=
  fold_left (fun cs expense =>
               if includes cs (fst expense) then cs else (cs ++ [fst expense])%list)
            expenses [].

(** The amounts of the rows of one category. *)
Definition amountsOf (category : string) (expenses : list (string * string)) : list string :=
  map snd (List.filter (fun expense => String.eqb (fst expense) category) expenses).

(** Category, hundredths and number of rows. *)
Definition exactEntries (expenses : list (string * string)) : list (string * Z * Z) :=
  map (fun c => (c, totalCents (amountsOf c expenses),
                 Z.of_nat (List.length (amountsOf c expenses))))
      (categoriesOf expenses).

Fixpoint insertByCents (x : string * Z * Z) (l : list (string * Z * Z))
  : list (string * Z * Z) :=
  match l with
  | [] => [x]
  | y :: l' => if snd (fst x) <? snd (fst y) then y :: insertByCents x l' else x :: l
  end.

(** Largest total first, equal totals in the order they had. *)
Fixpoint sortByCents (l : list (string * Z * Z)) : list (string * Z * Z) :=
  match l with
  | [] => []
  | x :: l' => insertByCents x (sortByCents l')
  end.

Definition renderEntry (e : string * Z * Z) : string * string * Z :=
  (fst (fst e), fixed2 (snd (fst e)), snd e).

Definition exactSummary (expenses : list (string * string)) : list (string * string * Z) :=
  map renderEntry (sortByCents (exactEntries expenses)).

(** The loop's entry for a category in terms of that category's rows. *)
Definition entryOf (expenses : list (string * string)) (c : string) : string * (JsNumber * Z) :=
  (c, (total (amountsOf c expenses), Z.of_nat (List.length (amountsOf c expenses)))).

(** Rows of three categories; the totals are 100.29, 100.30 and 0.30. *)
Definition sampleRows : list (string * string) :=
  [("Food", "0.1"); ("Transport", "100.3"); ("Food", "0.2"); ("Other", "0.3");
   ("Food", "99.99")].

(** * Properties *)

Local Open Scope list_scope.

(** ** Sample evaluations *)

Example ex_money_1 : format_parsed "5" = Some (currencyPrefix +:+ "5.00").
Proof. vm_compute. reflexivity. Qed.

Example ex_money_2 : format_parsed "0099.9" = Some (currencyPrefix +:+ "99.90").
Proof. vm_compute. reflexivity. Qed.

Example ex_money_3 : validateAmount "9999999999.99" = {| valid := true; error := None |}.
Proof. vm_compute. reflexivity. Qed.

Example ex_money_4 : error (validateAmount "10000000000") = Some err_amount_too_large.
Proof. vm_compute. reflexivity. Qed.

Example ex_money_5 : format_parsed "9999999999.99" = Some (currencyPrefix +:+ "9999999999.99").
Proof. vm_compute. reflexivity. Qed.

Example ex_money_6 : format_parsed "0.07" = Some (currencyPrefix +:+ "0.07").
Proof. vm_compute. reflexivity. Qed.

Example ex_money_8 : canonicalAmount "99.99" = "99.99".
Proof. reflexivity. Qed.
Example ex_money_9 : canonicalAmount "007.5" = "7.50".
Proof. reflexivity. Qed.
Example ex_money_7 : parseFloat "0.1" = Finite 7205759403792794 (-56).
Proof. vm_compute. reflexivity. Qed.

Example ex_uuid_1 : uuidRegex_test "11111111-1111-4111-8111-111111111111" = true.
Proof. reflexivity. Qed.

Example ex_uuid_2 : uuidRegex_test "11111111-1111-4111-8111-11111111111" = false.
Proof. reflexivity. Qed.

Example ex_uuid_3 : uuidRegex_test "ABCDEFab-1111-4111-8111-111111111111" = true.
Proof. reflexivity. Qed.

Example ex_uuid_4 : uuidRegex_test "11111111-1111-4111-8111-111111111111 " = false.
Proof. reflexivity. Qed.

Example ex_key_1 :
  generateIdempotencyKey (fun i => (Z.of_nat i mod 7, 7))
  = "02469bd0-2469-4bd0-a469-bd02469bd024".
Proof. vm_compute. reflexivity. Qed.

Example ex_key_2 :
  generateIdempotencyKey (fun i => if Nat.eqb i 15 then (0, 16) else (Z.of_nat i mod 7, 7))
  = generateIdempotencyKey (fun i => if Nat.eqb i 15 then (4, 16) else (Z.of_nat i mod 7, 7)).
Proof. vm_compute. reflexivity. Qed.

Example ex_error_1 :
  errorHandler (OtherError (Some 400) (Some "relation expenses does not exist"))
  = (400, errorBody "Error" "relation expenses does not exist").
Proof. reflexivity. Qed.

Example ex_validate_1 :
  sentBody (snd (validateCreateExpense sampleDateParse nat sampleService sampleClock
                   pollutedBody freshResponse emptyWorld))
  = Some (JObj [("error", JStr "Validation Error");
                ("message", JStr "Invalid request data");
                ("details", JArr [JStr "Unexpected fields: isAdmin, id"])]).
Proof. vm_compute. reflexivity. Qed.

Example ex_trim_1 :
  trim (" Food" +:+ String (ascii_of_nat 194) (String (ascii_of_nat 160) EmptyString))
  = "Food".
Proof. reflexivity. Qed.

Example ex_category_1 :
  validateCategoryField
    (JStr ("Food" +:+ String (ascii_of_nat 194) (String (ascii_of_nat 160) EmptyString)))
  = [].
Proof. reflexivity. Qed.

Example ex_description_1 :
  validateDescriptionField
    (JStr (String (ascii_of_nat 195) (String (ascii_of_nat 169)
          (String (ascii_of_nat 195) (String (ascii_of_nat 169) EmptyString)))))
  = ["Description must be at least 3 characters"].
Proof. reflexivity. Qed.

Example ex_expiry_1 :
  setHours_plus24 newYork 1772902800040 = 1772902800040 + 23 * msPerHour.
Proof. reflexivity. Qed.

Example ex_length_1 :
  jsLength (String (ascii_of_nat 195) (String (ascii_of_nat 169)
           (String (ascii_of_nat 195) (String (ascii_of_nat 169) EmptyString)))) = 2.
Proof. reflexivity. Qed.

Example ex_run_1 :
  let '(w1, r1) :=
    handle_alone sampleDateParse nat sampleService postgresJsonb sampleClock sampleRequest
      emptyWorld in
  let '(w2, r2) :=
    handle_alone sampleDateParse nat sampleService postgresJsonb laterClock sampleRequest w1 in
  statusCode r1 = 201 /\ statusCode r2 = 200
  /\ sentBody r1 = Some sampleExpense
  /\ sentBody r2 = Some (JObj [("id", JStr "0"); ("date", JStr "2026-01-15");
                               ("amount", JStr "99.99"); ("category", JStr "Food");
                               ("description", JStr "Lunch")])
  /\ db w2 = 1%nat
  /\ trace w2 = [EvFindUnique sampleKey; EvService sampleBody; EvCreate sampleKey true;
                 EvFindUnique sampleKey].
Proof. vm_compute. repeat split; reflexivity. Qed.

(** ** The request pipeline *)

Section PipelineFacts.

Variable Date_parse : string -> option Z.
Variable Db : Type.
Variable createExpenseSvc : JsValue -> Db -> Db * (Thrown + JsValue).
Variable jsonb : JsValue -> JsValue.

Lemma world_eta (w : World Db) :
  {| store := store w; pending := pending w; db := db w; trace := trace w |} = w.
Proof. destruct w; reflexivity. Qed.

(** The rest of the route sends exactly the reply of [route_reply], and
    dispatches an insert exactly when the closure is installed and the status
    is 2xx. *)
Lemma validateCreateExpense_reply clk body res (w : World Db) :
  validateCreateExpense Date_parse Db createExpenseSvc clk body res w =
  let '(d', evs, (c, b)) := route_reply Date_parse createExpenseSvc clk body (db w) in
  res_json clk b (res_status c res)
    {| store := store w; pending := pending w; db := d'; trace := trace w ++ evs |}.
Proof.
  unfold validateCreateExpense, route_reply.
  destruct (negb (truthy body) || negb (typeofObject body)).
  - rewrite app_nil_r, world_eta. reflexivity.
  - destruct (0 <? Z.of_nat (List.length (validationErrors Date_parse (tomorrow clk) body))).
    + rewrite app_nil_r, world_eta. reflexivity.
    + unfold createExpense. cbn [log db].
      destruct (createExpenseSvc body (db w)) as [d' [err | expense]].
      * destruct (errorHandler err) as [c b]. reflexivity.
      * reflexivity.
Qed.

Lemma res_json_patched clk k b c sb (w : World Db) :
  res_json clk b (res_status c {| statusCode := 200; sentBody := sb; json := PatchedJson k |}) w =
  ({| store := store w;
      pending := pending w ++ (if is2xx c then [dispatchedInsert clk k b] else []);
      db := db w; trace := trace w |},
   {| statusCode := c; sentBody := Some b; json := PatchedJson k |}).
Proof.
  unfold res_json, res_status, is2xx, originalJson, dispatch, dispatchedInsert, newExpiresAt.
  cbn.
  destruct ((200 <=? c) && (c <? 300)); [reflexivity |].
  rewrite app_nil_r, world_eta. reflexivity.
Qed.

Lemma settle_nil now (w : World Db) :
  pending w = [] -> settle jsonb now w = w.
Proof. intros H. unfold settle. rewrite H. cbn. rewrite <- H. apply world_eta. Qed.

(** The insert of the middleware reaching the store: it is written when the
    key is free; otherwise it is rejected and the handler drops the
    rejection. *)
Lemma settle_insert clk k b st (dbs : Db) tr :
  settle jsonb (at_insert clk)
    {| store := st; pending := [dispatchedInsert clk k b]; db := dbs; trace := tr |} =
  match st !! k with
  | None => {| store := <[k := newRecord jsonb clk k b]> st;
               pending := []; db := dbs; trace := tr ++ [EvCreate k true] |}
  | Some _ => {| store := st; pending := []; db := dbs;
                 trace := tr ++ [EvCreate k false] |}
  end.
Proof.
  unfold settle, run_create, store_create, dispatchedInsert, newRecord. cbn.
  destruct (st !! k); reflexivity.
Qed.

(** A request that gets past the lookup, up to its response: the reply of the
    rest of the route is sent, and on a 2xx status an insert is dispatched. *)
Lemma proceed_reply clk k body st0 (w : World Db) pre :
  validateCreateExpense Date_parse Db createExpenseSvc clk body
    {| statusCode := 200; sentBody := None; json := PatchedJson k |}
    {| store := st0; pending := pending w; db := db w; trace := trace w ++ pre |}
  = let '(d', evs, (c, b)) := route_reply Date_parse createExpenseSvc clk body (db w) in
    ({| store := st0;
        pending := pending w ++ (if is2xx c then [dispatchedInsert clk k b] else []);
        db := d'; trace := trace w ++ pre ++ evs |},
     {| statusCode := c; sentBody := Some b; json := PatchedJson k |}).
Proof.
  rewrite validateCreateExpense_reply. cbn [db store pending trace].
  destruct (route_reply Date_parse createExpenseSvc clk body (db w)) as [[d' evs] [c b]].
  change {| statusCode := 200; sentBody := None; json := PatchedJson k |}
    with {| statusCode := 200; sentBody := @None JsValue; json := PatchedJson k |}.
  rewrite (res_json_patched clk k b c None). cbn [store pending db trace].
  rewrite <- app_assoc. reflexivity.
Qed.

(** The same until the insert has reached the store, the other requests
    having had their effect before. *)
Lemma proceed_settles clk (others : Interference) k body st0 (w : World Db) pre :
  pending w = [] ->
  (let '(w1, res) :=
     validateCreateExpense Date_parse Db createExpenseSvc clk body
       {| statusCode := 200; sentBody := None; json := PatchedJson k |}
       {| store := st0; pending := pending w; db := db w; trace := trace w ++ pre |} in
   (settle jsonb (at_insert clk) (set_store (others (store w1)) w1), res))
  = fresh_run Date_parse createExpenseSvc jsonb clk others k body st0 pre w.
Proof.
  intros Hp. rewrite proceed_reply. unfold fresh_run.
  destruct (route_reply Date_parse createExpenseSvc clk body (db w)) as [[d' evs] [c b]].
  rewrite Hp. unfold set_store. cbn [store pending db trace app].
  destruct (is2xx c).
  - rewrite settle_insert. rewrite <- !app_assoc.
    destruct (others st0 !! k); reflexivity.
  - rewrite settle_nil by reflexivity. rewrite app_nil_r. reflexivity.
Qed.

(** What one POST with a well-formed key does, in full. *)
Lemma handle_post clk (racing others : Interference) req k (w : World Db) :
  method req = "POST" ->
  idempotencyKeyHeader req = Some k ->
  uuidRegex_test k = true ->
  pending w = [] ->
  handle Date_parse Db createExpenseSvc jsonb clk racing others req w =
  match store w !! k with
  | Some r =>
      if expiresAt r <? at_lookup clk
      then match racing (store w) !! k with
           | Some _ =>
               fresh_run Date_parse createExpenseSvc jsonb clk others k (body req)
                 (delete k (racing (store w))) [EvFindUnique k; EvDelete k] w
           | None =>
               ({| store := others (racing (store w)); pending := []; db := db w;
                   trace := trace w ++ [EvFindUnique k; EvDelete k] |},
                {| statusCode := 500;
                   sentBody := Some (errorBody "Internal Server Error"
                                       "Failed to process idempotency check");
                   json := OriginalJson |})
           end
      else ({| store := others (store w); pending := []; db := db w;
               trace := trace w ++ [EvFindUnique k] |},
            {| statusCode := 200; sentBody := Some (response r); json := OriginalJson |})
  | None =>
      fresh_run Date_parse createExpenseSvc jsonb clk others k (body req)
        (store w) [EvFindUnique k] w
  end.
Proof.
  intros Hm Hk Hu Hp.
  assert (Hpost : negb (String.eqb "POST" "POST") = false) by reflexivity.
  unfold handle, idempotencyMiddleware. rewrite Hm, Hk, Hu, Hpost. cbn [negb].
  assert (Hne : k <> EmptyString) by (intros ->; discriminate Hu).
  destruct k as [| c0 k0]; [congruence |].
  set (k := String c0 k0) in *.
  cbn [log store trace pending db]. unfold store_findUnique.
  destruct (store w !! k) as [r |] eqn:Hl.
  - destruct (expiresAt r <? at_lookup clk).
    + unfold store_delete, set_store. cbn [log store trace pending db].
      destruct (racing (store w) !! k) as [r' |] eqn:Hr.
      * rewrite <- app_assoc. cbn [app freshResponse statusCode sentBody].
        apply (proceed_settles clk others k (body req) (delete k (racing (store w))) w
                 [EvFindUnique k; EvDelete k] Hp).
      * unfold log. cbn [store pending db trace freshResponse res_status originalJson
                           statusCode sentBody json].
        rewrite settle_nil by (cbn; exact Hp). rewrite Hp.
        cbn [store pending db trace]. rewrite <- app_assoc. reflexivity.
    + unfold set_store, log. cbn [store pending db trace].
      rewrite settle_nil by (cbn; exact Hp). rewrite Hp. reflexivity.
  - cbn [freshResponse statusCode sentBody].
    apply (proceed_settles clk others k (body req) (store w) w [EvFindUnique k] Hp).
Qed.

Lemma handle_alone_post clk req k (w : World Db) :
  method req = "POST" ->
  idempotencyKeyHeader req = Some k ->
  uuidRegex_test k = true ->
  pending w = [] ->
  handle_alone Date_parse Db createExpenseSvc jsonb clk req w =
  match store w !! k with
  | Some r =>
      if expiresAt r <? at_lookup clk
      then fresh_run Date_parse createExpenseSvc jsonb clk (fun st => st) k (body req)
             (delete k (store w)) [EvFindUnique k; EvDelete k] w
      else ({| store := store w; pending := []; db := db w;
               trace := trace w ++ [EvFindUnique k] |},
            {| statusCode := 200; sentBody := Some (response r); json := OriginalJson |})
  | None =>
      fresh_run Date_parse createExpenseSvc jsonb clk (fun st => st) k (body req)
        (store w) [EvFindUnique k] w
  end.
Proof.
  intros Hm Hk Hu Hp. unfold handle_alone.
  rewrite (handle_post clk (fun st => st) (fun st => st) req k w Hm Hk Hu Hp).
  destruct (store w !! k) as [r |] eqn:Hl; reflexivity.
Qed.

(** A request that finds a live record of its key is answered from it, with
    inserts in flight or without. *)
Lemma middleware_replay clk (racing : Interference) req k r (w : World Db) :
  method req = "POST" ->
  idempotencyKeyHeader req = Some k ->
  uuidRegex_test k = true ->
  store w !! k = Some r ->
  at_lookup clk <= expiresAt r ->
  idempotencyMiddleware Date_parse Db createExpenseSvc clk racing req freshResponse w
  = (log (EvFindUnique k) w,
     {| statusCode := 200; sentBody := Some (response r); json := OriginalJson |}).
Proof.
  intros Hm Hk Hu Hl Hlive.
  assert (Hpost : negb (String.eqb "POST" "POST") = false) by reflexivity.
  unfold idempotencyMiddleware. rewrite Hm, Hk, Hu, Hpost. cbn [negb].
  assert (Hne : k <> EmptyString) by (intros ->; discriminate Hu).
  destruct k as [| c0 k0]; [congruence |].
  set (k := String c0 k0) in *.
  cbn [log store]. unfold store_findUnique. rewrite Hl.
  replace (expiresAt r <? at_lookup clk) with false by (symmetry; apply Z.ltb_ge; lia).
  reflexivity.
Qed.

Lemma added_app (w w' : World Db) (evs : list Event) :
  trace w' = trace w ++ evs -> added w w' = evs.
Proof. intros H. unfold added. rewrite H. apply drop_app_length. Qed.

(** A valid body on which the service succeeds is answered 201 with the
    expense, after exactly one service call. *)
Lemma route_reply_created clk body d d' expense :
  truthy body = true ->
  typeofObject body = true ->
  validationErrors Date_parse (tomorrow clk) body = [] ->
  createExpenseSvc body d = (d', inr expense) ->
  route_reply Date_parse createExpenseSvc clk body d = (d', [EvService body], (201, expense)).
Proof.
  intros Ht Ho Hv Hs. unfold route_reply. rewrite Ht, Ho, Hv, Hs. reflexivity.
Qed.

(** C2. A POST request whose Idempotency-Key header is absent, empty, or not
    of the canonical UUID form is answered 400 Bad Request, with the message
    that the header is required when it is absent or empty and that it must
    be a valid UUID otherwise; the middleware hands back the world it was
    given, so no store call and no service call was made. *)
Theorem guard_rejects_missing_or_malformed_key clk (racing : Interference) req res
    (w : World Db) :
  method req = "POST" ->
  (forall k, idempotencyKeyHeader req = Some k -> uuidRegex_test k = false) ->
  let '(w', res') :=
    idempotencyMiddleware Date_parse Db createExpenseSvc clk racing req res w in
  w' = w
  /\ statusCode res' = 400
  /\ sentBody res' =
       Some (errorBody "Bad Request"
               (match idempotencyKeyHeader req with
                | None | Some EmptyString =>
                    "Idempotency-Key header is required for POST requests"
                | Some _ => "Idempotency-Key must be a valid UUID"
                end)).
Proof.
  intros Hm Hbad.
  assert (Hpost : negb (String.eqb "POST" "POST") = false) by reflexivity.
  unfold idempotencyMiddleware. rewrite Hm, Hpost.
  destruct (idempotencyKeyHeader req) as [k |] eqn:Hk.
  - destruct k as [| c k0].
    + repeat split.
    + rewrite (Hbad _ eq_refl). repeat split.
  - repeat split.
Qed.


Lemma route_reply_events clk body (d : Db) :
  let '(_, evs, _) := route_reply Date_parse createExpenseSvc clk body d in
  evs = [] \/ evs = [EvService body].
Proof.
  unfold route_reply.
  destruct (negb (truthy body) || negb (typeofObject body)); [left; reflexivity |].
  destruct (0 <? Z.of_nat (List.length (validationErrors Date_parse (tomorrow clk) body)));
    [left; reflexivity |].
  destruct (createExpenseSvc body d) as [d' [err | e]]; [| right; reflexivity].
  destruct (errorHandler err); right; reflexivity.
Qed.

(** Without the guard, the rest of the route sends the reply of
    [route_reply] and leaves the idempotency table and the dispatch queue
    alone. *)
Lemma unguarded_route clk body (w : World Db) :
  validateCreateExpense Date_parse Db createExpenseSvc clk body freshResponse w =
  let '(d', evs, (c, b)) := route_reply Date_parse createExpenseSvc clk body (db w) in
  ({| store := store w; pending := pending w; db := d'; trace := trace w ++ evs |},
   {| statusCode := c; sentBody := Some b; json := OriginalJson |}).
Proof.
  rewrite validateCreateExpense_reply.
  destruct (route_reply Date_parse createExpenseSvc clk body (db w)) as [[d' evs] [c b]].
  reflexivity.
Qed.

(** C3 (amended). For a POST with a well-formed key, handled with no other
    request in flight: the guard attempts an insert exactly when the request
    was not replayed and the status sent is 2xx, and that insert succeeds; the
    only other write is the delete of an expired record found by the lookup;
    a request that is not replayed is answered with the status and body the
    unguarded route produces (so a failure reaches the caller as it is), and
    when that status is not 2xx no record exists for the key afterwards. *)
Theorem guard_store_writes clk req k (w : World Db) :
  method req = "POST" ->
  idempotencyKeyHeader req = Some k ->
  uuidRegex_test k = true ->
  pending w = [] ->
  let '(w', res) := handle_alone Date_parse Db createExpenseSvc jsonb clk req w in
  let unguarded :=
    snd (validateCreateExpense Date_parse Db createExpenseSvc clk (body req) freshResponse w) in
  let replayed := live clk (store w !! k) in
  let expired := match store w !! k with
                 | Some r => expiresAt r <? at_lookup clk
                 | None => false
                 end in
  List.filter isCreate (added w w')
    = (if negb replayed && is2xx (statusCode res) then [EvCreate k true] else [])
  /\ List.filter isStoreWrite (added w w')
    = (if expired then [EvDelete k] else []) ++ List.filter isCreate (added w w')
  /\ (replayed = false ->
      statusCode res = statusCode unguarded /\ sentBody res = sentBody unguarded)
  /\ (replayed = false -> is2xx (statusCode res) = false -> store w' !! k = None).
Proof.
  intros Hm Hk Hu Hp.
  rewrite (handle_alone_post clk req k w Hm Hk Hu Hp).
  rewrite unguarded_route. unfold live, fresh_run.
  pose proof (route_reply_events clk (body req) (db w)) as Hev.
  destruct (route_reply Date_parse createExpenseSvc clk (body req) (db w)) as [[d' evs] [c b]].
  cbn [snd statusCode sentBody].
  destruct (store w !! k) as [r |] eqn:Hl.
  - destruct (expiresAt r <? at_lookup clk) eqn:He; cbn [negb andb].
    + rewrite lookup_delete_eq.
      erewrite added_app by (cbn [trace]; reflexivity).
      cbn [statusCode sentBody store].
      destruct (is2xx c) eqn:H2; destruct Hev as [-> | ->]; cbn;
        repeat split; try reflexivity; try discriminate; intros; apply lookup_delete_eq.
    + erewrite added_app by (cbn [trace]; reflexivity).
      cbn. repeat split; discriminate.
  - cbn [negb andb].
    erewrite added_app by (cbn [trace]; reflexivity).
    cbn [statusCode sentBody store].
    destruct (is2xx c) eqn:H2; destruct Hev as [-> | ->]; cbn;
      repeat split; try reflexivity; try discriminate; intros; exact Hl.
Qed.







(** C8. A POST with a well-formed key and no live record is answered with a
    2xx status, and by the time its dispatched insert reaches the store
    another request has put a record under the same key.  The insert is then
    rejected and the rejection is dropped by the handler attached to the
    promise: the request is answered with the status and body the route
    computed, nothing is logged after the rejected insert and no rejection
    is left unhandled; the record of the other request stays in the table,
    and it is that record's response, not this caller's, that a later
    request with the key is answered with while the record is live. *)
Theorem lost_insert_race_is_swallowed clk (others : Interference) req k rival
    (w : World Db) :
  method req = "POST" ->
  idempotencyKeyHeader req = Some k ->
  uuidRegex_test k = true ->
  pending w = [] ->
  live clk (store w !! k) = false ->
  is2xx (statusCode (snd (handle_alone Date_parse Db createExpenseSvc jsonb clk req w))) = true ->
  others (delete k (store w)) !! k = Some rival ->
  let '(w', res) :=
    handle Date_parse Db createExpenseSvc jsonb clk (fun st => st) others req w in
  let unguarded :=
    snd (validateCreateExpense Date_parse Db createExpenseSvc clk (body req) freshResponse w) in
  statusCode res = statusCode unguarded /\ sentBody res = sentBody unguarded
  /\ (exists evs : list Event, added w w' = evs ++ [EvCreate k false])
  /\ Forall (fun e => forall k', e <> EvUnhandledRejection k') (added w w')
  /\ store w' = others (delete k (store w))
  /\ (forall clk2 req2,
        method req2 = "POST" -> idempotencyKeyHeader req2 = Some k ->
        at_lookup clk2 <= expiresAt rival ->
        let '(w2, r2) := handle_alone Date_parse Db createExpenseSvc jsonb clk2 req2 w' in
        statusCode r2 = 200 /\ sentBody r2 = Some (response rival)
        /\ serviceCalls (added w' w2) = []).
Proof.
  intros Hm Hk Hu Hp Hlive H2 Hrival.
  rewrite (handle_alone_post clk req k w Hm Hk Hu Hp) in H2.
  rewrite (handle_post clk (fun st => st) others req k w Hm Hk Hu Hp).
  rewrite unguarded_route.
  pose proof (route_reply_events clk (body req) (db w)) as Hev.
  assert (Hst : exists pre : list Event,
             Forall (fun e => forall k', e <> EvUnhandledRejection k') pre
             /\ (match store w !! k with
                 | Some r =>
                     if expiresAt r <? at_lookup clk
                     then match store w !! k with
                          | Some _ =>
                              fresh_run Date_parse createExpenseSvc jsonb clk others k (body req)
                                (delete k (store w)) [EvFindUnique k; EvDelete k] w
                          | None =>
                              ({| store := others (store w); pending := []; db := db w;
                                  trace := trace w ++ [EvFindUnique k; EvDelete k] |},
                               {| statusCode := 500;
                                  sentBody := Some (errorBody "Internal Server Error"
                                                      "Failed to process idempotency check");
                                  json := OriginalJson |})
                          end
                     else ({| store := others (store w); pending := []; db := db w;
                              trace := trace w ++ [EvFindUnique k] |},
                           {| statusCode := 200; sentBody := Some (response r);
                              json := OriginalJson |})
                 | None => fresh_run Date_parse createExpenseSvc jsonb clk others k (body req)
                             (store w) [EvFindUnique k] w
                 end) = fresh_run Date_parse createExpenseSvc jsonb clk others k (body req)
                          (delete k (store w)) pre w
             /\ (match store w !! k with
                 | Some r =>
                     if expiresAt r <? at_lookup clk
                     then fresh_run Date_parse createExpenseSvc jsonb clk (fun st => st) k
                            (body req) (delete k (store w)) [EvFindUnique k; EvDelete k] w
                     else ({| store := store w; pending := []; db := db w;
                              trace := trace w ++ [EvFindUnique k] |},
                           {| statusCode := 200; sentBody := Some (response r);
                              json := OriginalJson |})
                 | None => fresh_run Date_parse createExpenseSvc jsonb clk (fun st => st) k
                             (body req) (store w) [EvFindUnique k] w
                 end) = fresh_run Date_parse createExpenseSvc jsonb clk (fun st => st) k
                          (body req) (delete k (store w)) pre w).
  { unfold live in Hlive. destruct (store w !! k) as [r |] eqn:Hl.
    - apply negb_false_iff in Hlive. rewrite Hlive.
      exists [EvFindUnique k; EvDelete k].
      split; [repeat constructor; intros k'; discriminate | split; reflexivity].
    - rewrite (delete_id _ _ Hl). exists [EvFindUnique k].
      split; [repeat constructor; intros k'; discriminate | split; reflexivity]. }
  destruct Hst as (pre & Hpre & -> & Halone). rewrite Halone in H2. clear Halone.
  unfold fresh_run in *.
  destruct (route_reply Date_parse createExpenseSvc clk (body req) (db w)) as [[d' evs] [c b]].
  cbn [snd statusCode sentBody] in *. rewrite H2, Hrival.
  assert (Hadded : added w
                     {| store := others (delete k (store w)); pending := []; db := d';
                        trace := trace w ++ pre ++ evs ++ [EvCreate k false] |}
                   = (pre ++ evs) ++ [EvCreate k false]).
  { apply added_app. cbn [trace]. rewrite <- app_assoc. reflexivity. }
  split; [reflexivity |]. split; [reflexivity |].
  split; [exists (pre ++ evs); exact Hadded |].
  split; [| split; [reflexivity |]].
  - rewrite Hadded. apply Forall_app. split; [apply Forall_app; split |].
    + exact Hpre.
    + destruct Hev as [-> | ->]; repeat constructor; intros k'; discriminate.
    + repeat constructor. intros k'. discriminate.
  - intros clk2 req2 Hm2 Hk2 Hlive2.
    match goal with |- context [handle_alone _ _ _ _ clk2 req2 ?x] => set (w1 := x) end.
    rewrite (handle_alone_post clk2 req2 k w1 Hm2 Hk2 Hu eq_refl).
    subst w1. cbn [store pending db trace]. rewrite Hrival.
    replace (expiresAt rival <? at_lookup clk2) with false
      by (symmetry; apply Z.ltb_ge; exact Hlive2).
    cbn [statusCode sentBody]. split; [reflexivity |]. split; [reflexivity |].
    erewrite added_app; [| cbn [trace]; reflexivity]. reflexivity.
Qed.

End PipelineFacts.

(** ** Digits *)

Lemma isDigit_range c : isDigit c = true -> 0 <= digitVal c <= 9.
Proof.
  unfold isDigit, digitVal. intros H. apply andb_prop in H as [H1 H2].
  apply Z.leb_le in H1, H2. lia.
Qed.

Lemma digitChar_digitVal c : isDigit c = true -> digitChar (digitVal c) = c.
Proof.
  intros H. pose proof (isDigit_range c H) as Hr.
  unfold digitChar, digitVal in *. unfold code in *.
  replace (Z.of_nat (nat_of_ascii c) - 48 + 48) with (Z.of_nat (nat_of_ascii c)) by lia.
  rewrite Nat2Z.id. apply ascii_nat_embedding.
Qed.

Lemma append_cons c (s t : string) : String c s +:+ t = String c (s +:+ t).
Proof. reflexivity. Qed.

Lemma append_nil_l (t : string) : EmptyString +:+ t = t.
Proof. reflexivity. Qed.

Lemma append_nil_r (s : string) : s +:+ EmptyString = s.
Proof. induction s as [| c s IH]; [reflexivity |]. rewrite append_cons, IH. reflexivity. Qed.

Lemma append_assoc (s t u : string) : (s +:+ t) +:+ u = s +:+ (t +:+ u).
Proof.
  induction s as [| c s IH]; [reflexivity |]. rewrite !append_cons, IH. reflexivity.
Qed.

Lemma decimal_aux_acc fuel : forall n acc,
  decimal_aux fuel n acc = decimal_aux fuel n EmptyString +:+ acc.
Proof.
  induction fuel as [| f IH]; intros n acc; cbn [decimal_aux].
  - reflexivity.
  - destruct (n <? 10).
    + reflexivity.
    + rewrite IH. rewrite (IH _ (String _ EmptyString)).
      rewrite append_assoc. reflexivity.
Qed.

Lemma decimal_aux_enough f : forall f' n acc,
  (1 <= f)%nat -> (f <= f')%nat -> 0 <= n < 2 ^ Z.of_nat f ->
  decimal_aux f' n acc = decimal_aux f n acc.
Proof.
  induction f as [| f IH]; intros f' n acc H1 Hle Hn; [lia |].
  destruct f' as [| f']; [lia |]. cbn [decimal_aux].
  destruct (n <? 10) eqn:H10; [reflexivity |].
  apply Z.ltb_ge in H10.
  assert (Hdiv : 0 <= n / 10 < 2 ^ Z.of_nat f).
  { split; [apply Z.div_pos; lia |].
    apply Z.div_lt_upper_bound; [lia |].
    rewrite Nat2Z.inj_succ, Z.pow_succ_r in Hn by lia. lia. }
  destruct f as [| f0].
  - cbn in Hn. lia.
  - apply IH; [lia | lia | exact Hdiv].
Qed.

Lemma decimal_small d : 0 <= d <= 9 -> decimal d = String (digitChar d) EmptyString.
Proof.
  intros H. unfold decimal. cbn [decimal_aux].
  rewrite Z.mod_small by lia.
  replace (d <? 10) with true by (symmetry; apply Z.ltb_lt; lia). reflexivity.
Qed.

Lemma decimal_step a d :
  0 < a -> 0 <= d <= 9 ->
  decimal (10 * a + d) = decimal a +:+ String (digitChar d) EmptyString.
Proof.
  intros Ha Hd. unfold decimal at 1. cbn [decimal_aux].
  replace (10 * a + d <? 10) with false by (symmetry; apply Z.ltb_ge; lia).
  replace ((10 * a + d) mod 10) with d
    by (rewrite Z.add_comm, Z.mul_comm, Z.mod_add by lia; rewrite Z.mod_small; lia).
  replace ((10 * a + d) / 10) with a
    by (rewrite Z.add_comm, Z.mul_comm, Z.div_add by lia; rewrite Z.div_small; lia).
  rewrite decimal_aux_acc. f_equal. unfold decimal.
  apply decimal_aux_enough.
  - lia.
  - assert (Z.log2 a + 1 <= Z.log2 (10 * a + d)).
    { replace (Z.log2 a + 1) with (Z.log2 (2 * a)) by (rewrite Z.log2_double; lia).
      apply Z.log2_le_mono. lia. }
    pose proof (Z.log2_nonneg a). lia.
  - rewrite Nat2Z.inj_succ, Z2Nat.id by apply Z.log2_nonneg.
    pose proof (Z.log2_spec a Ha). lia.
Qed.

Lemma digitsValue_pos s : forall acc,
  allDigits s = true -> 0 <= acc -> acc <= digitsValue acc s.
Proof.
  induction s as [| c s IH]; intros acc Hs Hacc; cbn in *; [lia |].
  apply andb_prop in Hs as [Hc Hs]. pose proof (isDigit_range c Hc).
  specialize (IH (10 * acc + digitVal c) Hs). lia.
Qed.

Lemma decimal_digitsValue_acc s : forall acc,
  allDigits s = true -> 0 < acc ->
  decimal (digitsValue acc s) = decimal acc +:+ s.
Proof.
  induction s as [| c s IH]; intros acc Hs Hacc; cbn [digitsValue].
  - rewrite append_nil_r. reflexivity.
  - cbn in Hs. apply andb_prop in Hs as [Hc Hs]. pose proof (isDigit_range c Hc).
    rewrite IH by (try assumption; lia).
    rewrite decimal_step by (try assumption; lia).
    rewrite digitChar_digitVal by assumption.
    rewrite append_assoc. reflexivity.
Qed.

Lemma decimal_digitsValue s :
  allDigits s = true -> s <> EmptyString ->
  decimal (digitsValue 0 s) = stripLeadingZeros s.
Proof.
  induction s as [| c s IH]; intros Hs Hne; [congruence |].
  cbn in Hs. apply andb_prop in Hs as [Hc Hs]. pose proof (isDigit_range c Hc) as Hr.
  cbn [digitsValue stripLeadingZeros]. rewrite Z.mul_0_r, Z.add_0_l.
  destruct (Ascii.eqb c "0") eqn:H0.
  - apply Ascii.eqb_eq in H0. subst c. change (digitVal "0") with 0.
    destruct s as [| c' s']; [reflexivity |].
    apply IH; [exact Hs | congruence].
  - assert (0 < digitVal c).
    { destruct (Z.eq_dec (digitVal c) 0) as [Hz |]; [| lia].
      exfalso. pose proof (digitChar_digitVal c Hc) as Hd. rewrite Hz in Hd.
      cbn in Hd. subst c. discriminate H0. }
    rewrite decimal_digitsValue_acc by assumption.
    rewrite decimal_small by lia. rewrite digitChar_digitVal by assumption. reflexivity.
Qed.

(** ** Rounding to binary64 *)

Lemma round_half_even_bounds a b :
  0 < b -> a / b <= round_half_even a b <= a / b + 1.
Proof.
  intros Hb. unfold round_half_even.
  destruct (2 * (a mod b) <? b); [lia |].
  destruct (b <? 2 * (a mod b)); [lia |].
  destruct (Z.even (a / b)); lia.
Qed.

Lemma round_half_even_error a b :
  0 < b -> 2 * Z.abs (round_half_even a b * b - a) <= b.
Proof.
  intros Hb. unfold round_half_even.
  pose proof (Z.div_mod a b ltac:(lia)) as Hdm.
  pose proof (Z.mod_pos_bound a b Hb) as Hr.
  destruct (2 * (a mod b) <? b) eqn:H1.
  - apply Z.ltb_lt in H1. lia.
  - apply Z.ltb_ge in H1.
    destruct (b <? 2 * (a mod b)) eqn:H2.
    + apply Z.ltb_lt in H2. lia.
    + apply Z.ltb_ge in H2. destruct (Z.even (a / b)); lia.
Qed.

Lemma structural_ceiling_value : structural_ceiling = Finite 5242879999994757 (-19).
Proof. vm_compute. reflexivity. Qed.

Lemma binade_cases p q :
  binade p q = Z.log2 p - Z.log2 q - 52 \/ binade p q = Z.log2 p - Z.log2 q - 53.
Proof. unfold binade. match goal with |- context [if ?c then _ else _] => destruct c end; lia. Qed.

Lemma pow2_mono a b : 0 <= a <= b -> 2 ^ a <= 2 ^ b.
Proof. intros H. apply Z.pow_le_mono_r; lia. Qed.

Lemma round_double_of_valid p q :
  0 < p -> 0 < q <= 100 ->
  num_gt (round_double p q) structural_ceiling = false ->
  exists m k, round_double p q = Finite m (- k) /\ 7 <= k /\ 0 <= m <= 2 ^ 54
              /\ 2 * Z.abs (m * q - p * 2 ^ k) <= q.
Proof.
  intros Hp Hq Hle.
  pose proof (Z.log2_spec p Hp) as Hlp.
  pose proof (Z.log2_spec q ltac:(lia)) as Hlq.
  pose proof (Z.log2_nonneg p) as Hlp0.
  pose proof (Z.log2_nonneg q) as Hlq0.
  assert (Hlq6 : Z.log2 q <= 6).
  { change 6 with (Z.log2 100). apply Z.log2_le_mono. lia. }
  rewrite Z.pow_succ_r in Hlp, Hlq by assumption.
  unfold round_double in *.
  replace (p =? 0) with false in * by (symmetry; apply Z.eqb_neq; lia).
  assert (Hb : Z.log2 p - Z.log2 q - 53 <= binade p q <= Z.log2 p - Z.log2 q - 52)
    by (destruct (binade_cases p q); lia).
  assert (He : Z.max (binade p q) (-1074) = binade p q) by lia.
  rewrite He in *. clear He.
  set (lp := Z.log2 p) in *. set (lq := Z.log2 q) in *.
  set (e := binade p q) in *. clearbody e.
  assert (Hden : 0 < q * 2 ^ Z.max 0 e).
  { apply Z.mul_pos_pos; [lia |]. apply Z.pow_pos_nonneg; lia. }
  pose proof (round_half_even_bounds (p * 2 ^ Z.max 0 (- e)) (q * 2 ^ Z.max 0 e) Hden) as Hm.
  destruct (Z_le_gt_dec e (-7)) as [Hneg | Hbig].
  - (* the value is below 2^47 *)
    replace (Z.max 0 e) with 0 in * by lia.
    replace (Z.max 0 (- e)) with (- e) in * by lia.
    change (2 ^ 0) with 1 in *. rewrite Z.mul_1_r in *.
    set (m := round_half_even (p * 2 ^ (- e)) q) in *.
    exists m, (- e).
    replace (971 <? e) with false by (symmetry; apply Z.ltb_ge; lia).
    replace (e =? 971) with false by (symmetry; apply Z.eqb_neq; lia).
    cbn [orb andb]. rewrite Z.opp_involutive.
    split; [reflexivity |]. split; [lia |].
    split.
    + split.
      * assert (0 <= p * 2 ^ (- e) / q).
        { apply Z.div_pos; [| lia]. apply Z.mul_nonneg_nonneg; [lia |].
          apply Z.pow_nonneg; lia. }
        lia.
      * assert (p * 2 ^ (- e) / q < 2 ^ 54); [| lia].
        apply Z.div_lt_upper_bound; [lia |].
        assert (H1 : p * 2 ^ (- e) < 2 ^ (lp + 1 - e)).
        { replace (lp + 1 - e) with ((lp + 1) + (- e)) by lia.
          rewrite !Z.pow_add_r by lia. change (2 ^ 1) with 2.
          apply Z.mul_lt_mono_pos_r; [| lia].
          apply Z.pow_pos_nonneg; lia. }
        assert (H2 : 2 ^ (lp + 1 - e) <= 2 ^ (lq + 54)) by (apply pow2_mono; lia).
        assert (H3 : 2 ^ (lq + 54) <= q * 2 ^ 54).
        { rewrite Z.pow_add_r by lia. apply Z.mul_le_mono_nonneg_r; lia. }
        lia.
    + subst m. apply round_half_even_error. lia.
  - (* the value is at least 2^45, above the ceiling *)
    exfalso.
    set (m := round_half_even (p * 2 ^ Z.max 0 (- e)) (q * 2 ^ Z.max 0 e)) in *.
    assert (Hm51 : 2 ^ 51 <= m).
    { assert (2 ^ 51 <= p * 2 ^ Z.max 0 (- e) / (q * 2 ^ Z.max 0 e)); [| lia].
      apply Z.div_le_lower_bound; [lia |].
      assert (H1 : q * 2 ^ Z.max 0 e * 2 ^ 51 <= 2 ^ (lq + 1 + Z.max 0 e + 51)).
      { rewrite !Z.pow_add_r by lia. change (2 ^ 1) with 2.
        apply Z.mul_le_mono_nonneg_r; [lia |].
        apply Z.mul_le_mono_nonneg_r; [apply Z.pow_nonneg; lia | lia]. }
      assert (H2 : 2 ^ (lq + 1 + Z.max 0 e + 51) <= 2 ^ (lp + Z.max 0 (- e)))
        by (apply pow2_mono; lia).
      assert (H3 : 2 ^ (lp + Z.max 0 (- e)) <= p * 2 ^ Z.max 0 (- e)).
      { rewrite Z.pow_add_r by lia. apply Z.mul_le_mono_nonneg_r; [| lia].
        apply Z.pow_nonneg; lia. }
      lia. }
    rewrite structural_ceiling_value in Hle.
    destruct ((971 <? e) || ((e =? 971) && (2 ^ 53 <=? m))); [discriminate Hle |].
    unfold num_gt, num_lt in Hle.
    replace (Z.min (-19) e) with (-19) in Hle by lia.
    apply Z.ltb_ge in Hle. change (-19 - -19) with 0 in Hle. change (2 ^ 0) with 1 in Hle.
    assert (H13 : 2 ^ 13 <= 2 ^ (e - -19)) by (apply pow2_mono; lia).
    assert (2 ^ 51 * 2 ^ 13 <= m * 2 ^ (e - -19)).
    { apply Z.mul_le_mono_nonneg; lia. }
    change (2 ^ 51 * 2 ^ 13) with 18446744073709551616 in *. lia.
Qed.

(** ** Amount strings *)

Lemma toFixed2_exact m k n :
  7 <= k -> 0 <= m <= 2 ^ 54 -> 2 * Z.abs (100 * m - n * 2 ^ k) <= 100 ->
  toFixed2 (Finite m (- k)) = Some (fixed2 n).
Proof.
  intros Hk Hm Herr. unfold toFixed2.
  replace (Z.max 0 (- k)) with 0 by lia.
  replace (Z.max 0 (- - k)) with k by lia.
  change (2 ^ 0) with 1. rewrite !Z.mul_1_r.
  assert (H128 : 2 ^ 7 <= 2 ^ k) by (apply pow2_mono; lia).
  change (2 ^ 7) with 128 in H128.
  change (2 ^ 54) with 18014398509481984 in Hm.
  set (K := 2 ^ k) in *.
  replace (m <? 0) with false by (symmetry; apply Z.ltb_ge; lia).
  replace (10 ^ 21 * K <=? m) with false
    by (symmetry; apply Z.leb_gt; change (10 ^ 21) with 1000000000000000000000; lia).
  cbn [orb]. f_equal. f_equal.
  symmetry. apply Z.div_unique with (r := 200 * m + K - n * (2 * K)); lia.
Qed.

Lemma span_digits_app s : forall d r, span_digits s = (d, r) -> s = d +:+ r.
Proof.
  induction s as [| c s IH]; intros d r H; cbn in H.
  - inversion H. reflexivity.
  - destruct (isDigit c).
    + destruct (span_digits s) as [d' r'] eqn:Hs. inversion H; subst.
      rewrite append_cons. f_equal. apply IH. reflexivity.
    + inversion H. reflexivity.
Qed.

Lemma span_digits_allDigits s : forall d r, span_digits s = (d, r) -> allDigits d = true.
Proof.
  induction s as [| c s IH]; intros d r H; cbn in H.
  - inversion H. reflexivity.
  - destruct (isDigit c) eqn:Hc.
    + destruct (span_digits s) as [d' r'] eqn:Hs. inversion H; subst.
      cbn. rewrite Hc. cbn. eapply IH. reflexivity.
    + inversion H. reflexivity.
Qed.

Lemma digitsValue_app s : forall t acc,
  digitsValue acc (s +:+ t) = digitsValue (digitsValue acc s) t.
Proof.
  induction s as [| c s IH]; intros t acc; [reflexivity |].
  rewrite append_cons. cbn [digitsValue]. apply IH.
Qed.

(** The shape of a string accepted by [amountRegex]. *)
Lemma amountRegex_shape s :
  amountRegex_test s = true ->
  exists ip r fp,
    span_digits s = (ip, r) /\ ip <> EmptyString /\ allDigits ip = true
    /\ allDigits fp = true /\ (String.length fp <= 2)%nat
    /\ ((r = EmptyString /\ fp = EmptyString)
        \/ (r = String "." fp /\ fp <> EmptyString /\ span_digits fp = (fp, EmptyString))).
Proof.
  unfold amountRegex_test. intros H.
  destruct (span_digits s) as [ip r] eqn:Hs.
  pose proof (span_digits_allDigits s ip r Hs) as Hip.
  destruct ip as [| c ip']; [discriminate |].
  destruct r as [| c1 f].
  - exists (String c ip'), EmptyString, EmptyString.
    repeat split; try assumption; try congruence; cbn; try lia. left. tauto.
  - destruct (Ascii.eqb c1 ".") eqn:Hdot.
    + apply Ascii.eqb_eq in Hdot. subst c1.
      destruct (span_digits f) as [fp r'] eqn:Hf.
      destruct r'; [| discriminate].
      pose proof (span_digits_app f fp EmptyString Hf) as Happ.
      rewrite append_nil_r in Happ. subst fp.
      apply andb_prop in H as [H1 H2]. apply Z.leb_le in H1, H2.
      exists (String c ip'), (String "." f), f.
      repeat split; try assumption; try congruence.
      * eapply span_digits_allDigits. exact Hf.
      * lia.
      * right. repeat split; try assumption. intros ->. cbn in H1. lia.
    + exfalso. destruct c1 as [[] [] [] [] [] [] [] []]; try discriminate H; discriminate Hdot.
Qed.

Lemma validateAmount_valid s :
  valid (validateAmount s) = true ->
  amountRegex_test s = true
  /\ num_le (parseFloat s) (num_of_Z 0) = false
  /\ num_gt (parseFloat s) structural_ceiling = false.
Proof.
  unfold validateAmount.
  destruct (String.eqb s "" || String.eqb (trim s) ""); [discriminate |].
  destruct (amountRegex_test s); [| discriminate]. cbn [negb].
  destruct (isNaN (parseFloat s) || num_le (parseFloat s) (num_of_Z 0)) eqn:H1; [discriminate |].
  destruct (num_gt (parseFloat s) structural_ceiling) eqn:H2; [discriminate |].
  apply orb_false_elim in H1 as [_ H1]. auto.
Qed.

Lemma scaled_error t m q P :
  0 < t -> 2 * Z.abs (m * q - P) <= q -> 2 * Z.abs (t * q * m - t * P) <= t * q.
Proof.
  intros Ht H.
  replace (t * q * m - t * P) with (t * (m * q - P)) by ring.
  rewrite Z.abs_mul, (Z.abs_eq t) by lia. nia.
Qed.

(** The two-decimal rendering of the hundredths denoted by a digit string
    and a fraction of at most two digits. *)
Lemma fixed2_canonical ip fp :
  allDigits ip = true -> ip <> EmptyString ->
  allDigits fp = true -> (String.length fp <= 2)%nat ->
  fixed2 (100 / 10 ^ Z.of_nat (String.length fp) * digitsValue 0 (ip +:+ fp))
  = stripLeadingZeros ip +:+ String "." (pad2 fp).
Proof.
  intros Hip Hne Hfp Hlen. rewrite digitsValue_app.
  pose proof (digitsValue_pos ip 0 Hip ltac:(lia)) as Hv.
  pose proof (decimal_digitsValue ip Hip Hne) as Hdec.
  set (v := digitsValue 0 ip) in *. unfold fixed2.
  destruct fp as [| c1 [| c2 [| c3 fp']]]; cbn [String.length] in Hlen; try lia.
  - cbn [digitsValue String.length pad2]. change (100 / 10 ^ Z.of_nat 0) with 100.
    replace (100 * v / 100) with v by (Z.div_mod_to_equations; lia).
    replace (100 * v mod 100 / 10) with 0 by (Z.div_mod_to_equations; lia).
    replace (100 * v mod 10) with 0 by (Z.div_mod_to_equations; lia).
    rewrite Hdec. reflexivity.
  - cbn in Hfp. apply andb_prop in Hfp as [Hc1 _].
    pose proof (isDigit_range c1 Hc1) as Hr1.
    cbn [digitsValue String.length pad2]. change (100 / 10 ^ Z.of_nat 1) with 10.
    set (d1 := digitVal c1) in *.
    replace (10 * (10 * v + d1) / 100) with v by (Z.div_mod_to_equations; lia).
    replace (10 * (10 * v + d1) mod 100 / 10) with d1 by (Z.div_mod_to_equations; lia).
    replace (10 * (10 * v + d1) mod 10) with 0 by (Z.div_mod_to_equations; lia).
    subst d1. rewrite digitChar_digitVal by assumption. rewrite Hdec. reflexivity.
  - cbn in Hfp. apply andb_prop in Hfp as [Hc1 Hfp]. apply andb_prop in Hfp as [Hc2 _].
    pose proof (isDigit_range c1 Hc1) as Hr1. pose proof (isDigit_range c2 Hc2) as Hr2.
    cbn [digitsValue String.length pad2]. change (100 / 10 ^ Z.of_nat 2) with 1.
    set (d1 := digitVal c1) in *. set (d2 := digitVal c2) in *.
    replace (1 * (10 * (10 * v + d1) + d2) / 100) with v by (Z.div_mod_to_equations; lia).
    replace (1 * (10 * (10 * v + d1) + d2) mod 100 / 10) with d1
      by (Z.div_mod_to_equations; lia).
    replace (1 * (10 * (10 * v + d1) + d2) mod 10) with d2 by (Z.div_mod_to_equations; lia).
    subst d1 d2. rewrite !digitChar_digitVal by assumption. rewrite Hdec. reflexivity.
Qed.

(** C5 (amended). For every amount string s that [validateAmount] accepts
    (s matches the amount format and denotes a value above 0 and at most
    9999999999.99), [formatAmount(parseAmount(s))] is the currency prefix of
    the template literal followed by s with the redundant leading zeros of
    its integer part removed and its fraction padded with zeros to two
    digits: the binary64 value in between loses nothing. *)
Theorem format_parsed_canonical s :
  valid (validateAmount s) = true ->
  format_parsed s = Some (currencyPrefix +:+ canonicalAmount s).
Proof.
  intros Hvalid.
  destruct (validateAmount_valid s Hvalid) as (Hre & Hpos & Hceil).
  destruct (amountRegex_shape s Hre) as (ip & r & fp & Hs & Hne & Hip & Hfp & Hlen & Hshape).
  assert (Hpf : parseFloat s
                = round_double (digitsValue 0 (ip +:+ fp)) (10 ^ Z.of_nat (String.length fp))).
  { unfold parseFloat. rewrite Hs. destruct ip as [| c ip']; [congruence |].
    destruct Hshape as [[-> ->] | (-> & _ & Hf)]; [reflexivity |]. rewrite Hf. reflexivity. }
  assert (Hcanon : canonicalAmount s = stripLeadingZeros ip +:+ String "." (pad2 fp)).
  { unfold canonicalAmount. rewrite Hs.
    destruct Hshape as [[-> ->] | (-> & _ & _)]; reflexivity. }
  unfold format_parsed, parseAmount. rewrite Hvalid. cbn [negb]. unfold formatAmount.
  rewrite Hpf in *. rewrite Hcanon.
  set (p := digitsValue 0 (ip +:+ fp)) in *.
  set (q := 10 ^ Z.of_nat (String.length fp)) in *.
  assert (Hq : q = 1 \/ q = 10 \/ q = 100).
  { subst q. destruct fp as [| c1 [| c2 [| c3 fp']]]; cbn [String.length] in *;
      first [ left; reflexivity | right; left; reflexivity
            | right; right; reflexivity | lia ]. }
  assert (Hp0 : 0 <= p).
  { subst p. apply (digitsValue_pos (ip +:+ fp) 0); [| lia].
    clear -Hip Hfp. induction ip as [| c ip IH]; [exact Hfp |].
    cbn in Hip. apply andb_prop in Hip as [Hc Hip].
    rewrite append_cons. cbn. rewrite Hc. cbn. apply IH. exact Hip. }
  assert (Hp : 0 < p).
  { destruct (Z.eq_dec p 0) as [Hz |]; [| lia].
    exfalso. rewrite Hz in Hpos. unfold round_double in Hpos. cbn in Hpos. discriminate. }
  destruct (round_double_of_valid p q Hp ltac:(lia) Hceil) as (m & k & Hrd & Hk & Hm & Herr).
  rewrite Hrd.
  rewrite (toFixed2_exact m k (100 / q * p) Hk Hm).
  - subst p q. rewrite fixed2_canonical by assumption. reflexivity.
  - pose proof (scaled_error (100 / q) m q (p * 2 ^ k)) as Hsc.
    assert (Ht : 100 / q * q = 100) by (destruct Hq as [-> | [-> | ->]]; reflexivity).
    assert (Htpos : 0 < 100 / q) by (destruct Hq as [-> | [-> | ->]]; reflexivity).
    specialize (Hsc Htpos Herr). rewrite Ht in Hsc.
    replace (100 * m - 100 / q * p * 2 ^ k) with (100 * m - 100 / q * (p * 2 ^ k)) by ring.
    exact Hsc.
Qed.

(** ** Generated keys *)

Lemma randomNibble_range n d : 0 <= n < d -> 0 <= randomNibble (n, d) < 16.
Proof.
  intros H. unfold randomNibble, toInt32. cbn [fst snd].
  rewrite Z.quot_div_nonneg by lia.
  assert (0 <= n * 16 / d < 16).
  { split; [apply Z.div_pos; lia | apply Z.div_lt_upper_bound; lia]. }
  rewrite Z.mod_small by lia. lia.
Qed.

Lemma nibble_cases v :
  0 <= v < 16 ->
  v = 0 \/ v = 1 \/ v = 2 \/ v = 3 \/ v = 4 \/ v = 5 \/ v = 6 \/ v = 7 \/
  v = 8 \/ v = 9 \/ v = 10 \/ v = 11 \/ v = 12 \/ v = 13 \/ v = 14 \/ v = 15.
Proof. lia. Qed.

Lemma toString16_nibble v :
  0 <= v < 16 -> toString16 v = String (hexChar v) EmptyString.
Proof.
  intros H. unfold toString16. cbn [toString16_aux].
  rewrite Z.mod_small by lia.
  replace (v <? 16) with true by (symmetry; apply Z.ltb_lt; lia). reflexivity.
Qed.

Lemma hexChar_lower v : 0 <= v < 16 -> isLowerHex (hexChar v) = true.
Proof.
  intros H. destruct (nibble_cases v H) as
    [-> | [-> | [-> | [-> | [-> | [-> | [-> | [-> | [-> | [-> | [-> | [-> | [-> | [-> | [-> | ->]]]]]]]]]]]]]]];
    reflexivity.
Qed.

Lemma hexChar_variant r :
  0 <= r < 16 -> isVariantNibble (hexChar (Z.lor (Z.land r 3) 8)) = true.
Proof.
  intros H. destruct (nibble_cases r H) as
    [-> | [-> | [-> | [-> | [-> | [-> | [-> | [-> | [-> | [-> | [-> | [-> | [-> | [-> | [-> | ->]]]]]]]]]]]]]]];
    reflexivity.
Qed.

Lemma variant_range r : 0 <= r < 16 -> 0 <= Z.lor (Z.land r 3) 8 < 16.
Proof.
  intros H. destruct (nibble_cases r H) as
    [-> | [-> | [-> | [-> | [-> | [-> | [-> | [-> | [-> | [-> | [-> | [-> | [-> | [-> | [-> | ->]]]]]]]]]]]]]]];
    (split; [apply Z.leb_le | apply Z.ltb_lt]; reflexivity).
Qed.

Lemma replaceAllXY_conforms template : forall random i,
  (forall j, 0 <= fst (random j) < snd (random j)) ->
  conforms template (replaceAllXY template random i) = true.
Proof.
  induction template as [| c t IH]; intros random i Hr; [reflexivity |].
  cbn [replaceAllXY]. pose proof (Hr i) as Hi.
  destruct (random i) as [n d] eqn:Hd. cbn [fst snd] in Hi.
  pose proof (randomNibble_range n d Hi) as Hn.
  destruct (Ascii.eqb c "x") eqn:Hx.
  - cbn [orb]. unfold replaceXY. rewrite Hx.
    rewrite toString16_nibble by exact Hn.
    rewrite append_cons, append_nil_l. cbn [conforms]. rewrite Hx.
    rewrite hexChar_lower by exact Hn. rewrite IH by exact Hr. reflexivity.
  - cbn [orb]. destruct (Ascii.eqb c "y") eqn:Hy.
    + unfold replaceXY. rewrite Hx.
      rewrite toString16_nibble by (apply variant_range; exact Hn).
      rewrite append_cons, append_nil_l. cbn [conforms]. rewrite Hx, Hy.
      rewrite hexChar_variant by exact Hn. rewrite IH by exact Hr. reflexivity.
    + cbn [conforms]. rewrite Hx, Hy, Ascii.eqb_refl. rewrite IH by exact Hr. reflexivity.
Qed.

Lemma isLowerHex_isHexDigit c : isLowerHex c = true -> isHexDigit c = true.
Proof.
  unfold isLowerHex, isHexDigit. intros H. rewrite H. reflexivity.
Qed.

Lemma isVariantNibble_isHexDigit c : isVariantNibble c = true -> isHexDigit c = true.
Proof.
  unfold isVariantNibble, isHexDigit, isDigit. intros H.
  repeat (apply orb_prop in H as [H | H]); apply Z.eqb_eq in H; rewrite H; reflexivity.
Qed.

Lemma conforms_x t s :
  conforms (String "x" t) s = true ->
  exists c s', s = String c s' /\ isHexDigit c = true /\ conforms t s' = true.
Proof.
  destruct s as [| c s']; [discriminate |]. cbn [conforms].
  change (Ascii.eqb "x" "x") with true. cbn iota.
  intros H. apply andb_prop in H as [H1 H2].
  exists c, s'. auto using isLowerHex_isHexDigit.
Qed.

Lemma conforms_y t s :
  conforms (String "y" t) s = true ->
  exists c s', s = String c s' /\ isHexDigit c = true /\ conforms t s' = true.
Proof.
  destruct s as [| c s']; [discriminate |]. cbn [conforms].
  change (Ascii.eqb "y" "x") with false. change (Ascii.eqb "y" "y") with true. cbn iota.
  intros H. apply andb_prop in H as [H1 H2].
  exists c, s'. auto using isVariantNibble_isHexDigit.
Qed.

Lemma conforms_literal c0 t s :
  Ascii.eqb c0 "x" = false -> Ascii.eqb c0 "y" = false ->
  conforms (String c0 t) s = true ->
  exists s', s = String c0 s' /\ conforms t s' = true.
Proof.
  intros Hx Hy. destruct s as [| c s']; [discriminate |]. cbn [conforms].
  rewrite Hx, Hy. intros H. apply andb_prop in H as [H1 H2].
  apply Ascii.eqb_eq in H1. subst c. exists s'. auto.
Qed.

Ltac conforms_step H :=
  first
    [ apply conforms_x in H as (? & ? & -> & ? & H)
    | apply conforms_y in H as (? & ? & -> & ? & H)
    | apply conforms_literal in H as (? & -> & H); [| reflexivity | reflexivity] ].

Lemma conforms_uuid s : conforms uuidV4Template s = true -> uuidRegex_test s = true.
Proof.
  intros H. unfold uuidV4Template in H.
  do 36 (conforms_step H).
  match type of H with
  | conforms EmptyString ?rest = true => destruct rest; [| discriminate H]
  end.
  clear H. unfold uuidRegex_test. cbn [eatHex eatDash].
  repeat (match goal with
          | H : isHexDigit ?c = true |- context [isHexDigit ?c] => rewrite H; clear H
          | |- context [isHexDigit "4"] => change (isHexDigit "4") with true
          end; cbn [eatHex eatDash]).
  reflexivity.
Qed.

(** C9. Whatever the values of [Math.random] (each in [0, 1)), the string
    returned by [generateIdempotencyKey] passes the guard's UUID test, so the
    guard does not reject it as malformed; it has the form
    xxxxxxxx-xxxx-4xxx-yxxx-xxxxxxxxxxxx with every x a lower-case hexadecimal
    digit and y one of 8, 9, a, b. *)
Theorem generated_key_passes_guard_format random :
  (forall i, 0 <= fst (random i) < snd (random i)) ->
  uuidRegex_test (generateIdempotencyKey random) = true
  /\ conforms uuidV4Template (generateIdempotencyKey random) = true.
Proof.
  intros Hr.
  assert (Hc : conforms uuidV4Template (generateIdempotencyKey random) = true)
    by (apply replaceAllXY_conforms; exact Hr).
  split; [apply conforms_uuid; exact Hc | exact Hc].
Qed.

(** ** The amount field *)

(** C4 (amended). The amount check of [validateCreateExpense]
    ([validateAmount], then the ceiling of 10,000,000) rejects "0.00" as not
    positive, "-1.00" and "1.234" alike as badly formatted and "10000001" as
    above the ceiling: three reasons for the four strings, each a different
    string from the other two.  It accepts "0.01" and "10000000.00";
    "10000001" is within the looser limit of [validateAmount] itself, which
    only turns away values above 9999999999.99. *)
Theorem amount_boundaries :
  validateAmountField (JStr "0.00") = [err_amount_not_positive]
  /\ validateAmountField (JStr "-1.00") = [err_amount_format]
  /\ validateAmountField (JStr "1.234") = [err_amount_format]
  /\ validateAmountField (JStr "10000001") = [err_amount_ceiling]
  /\ validateAmountField (JStr "0.01") = []
  /\ validateAmountField (JStr "10000000.00") = []
  /\ err_amount_format <> err_amount_not_positive
  /\ err_amount_format <> err_amount_ceiling
  /\ err_amount_not_positive <> err_amount_ceiling
  /\ valid (validateAmount "10000001") = true
  /\ valid (validateAmount "9999999999.99") = true
  /\ error (validateAmount "10000000000") = Some err_amount_too_large.
Proof.
  repeat split; try (vm_compute; reflexivity); vm_compute; discriminate.
Qed.

(** ** Unexpected fields *)

Lemma join_concat sep xs : join sep xs = String.concat sep xs.
Proof.
  induction xs as [| x [| y rest] IH]; [reflexivity | reflexivity |].
  change (join sep (x :: y :: rest)) with (x +:+ sep +:+ join sep (y :: rest)).
  rewrite IH. reflexivity.
Qed.

Lemma includes_allowedFields k :
  includes allowedFields k
  = (String.eqb k "amount" || String.eqb k "category"
     || String.eqb k "description" || String.eqb k "date").
Proof.
  unfold includes, allowedFields. cbn [existsb]. rewrite orb_false_r, !orb_assoc. reflexivity.
Qed.

Lemma extraFields_filter body :
  extraFields body
  = List.filter (fun k => negb (String.eqb k "amount" || String.eqb k "category"
                                || String.eqb k "description" || String.eqb k "date"))
      (objectKeys body).
Proof.
  unfold extraFields. induction (objectKeys body) as [| k ks IH]; [reflexivity |].
  cbn [List.filter]. rewrite includes_allowedFields, IH. reflexivity.
Qed.

Lemma extraFields_nil body :
  extraFields body = []
  <-> Forall (fun k => k = "amount" \/ k = "category" \/ k = "description" \/ k = "date")
        (objectKeys body).
Proof.
  rewrite extraFields_filter. induction (objectKeys body) as [| k ks IH].
  - split; [constructor | reflexivity].
  - cbn [List.filter].
    destruct (String.eqb k "amount") eqn:E1; [apply String.eqb_eq in E1 |];
      [| destruct (String.eqb k "category") eqn:E2; [apply String.eqb_eq in E2 |]];
      [| | destruct (String.eqb k "description") eqn:E3; [apply String.eqb_eq in E3 |]];
      [| | | destruct (String.eqb k "date") eqn:E4; [apply String.eqb_eq in E4 |]];
      cbn [orb negb].
    1-4: split; [intros H; constructor; [tauto | apply IH; exact H]
                | intros H; inversion H; subst; apply IH; assumption].
    split; [discriminate |].
    intros H. inversion H as [| ? ? Hk _]; subst.
    apply String.eqb_neq in E1, E2, E3, E4. tauto.
Qed.

Section ValidationFacts.

Variable Date_parse : string -> option Z.
Variable Db : Type.
Variable createExpenseSvc : JsValue -> Db -> Db * (Thrown + JsValue).

Lemma res_json_400 clk b res (w : World Db) :
  res_json clk b (res_status 400 res) w = (w, originalJson b (res_status 400 res)).
Proof.
  unfold res_json. cbn [res_status json statusCode].
  destruct (json res); reflexivity.
Qed.

(** C10. A request body with a key other than amount, category,
    description and date is answered 400 Validation Error by
    [validateCreateExpense].  The last entry of the details is "Unexpected
    fields: " followed by the keys of the body that are none of the four, in
    the order of [Object.keys] and separated by ", "; before it stand whatever
    the four known fields gave rise to, so with four valid fields it is the
    only entry.  The controller is not reached: the world is handed back as
    it was. *)
Theorem extra_fields_are_rejected clk body res (w : World Db) :
  (exists k, In k (objectKeys body)
             /\ k <> "amount" /\ k <> "category" /\ k <> "description" /\ k <> "date") ->
  let unexpected :=
    List.filter (fun k => negb (String.eqb k "amount" || String.eqb k "category"
                                || String.eqb k "description" || String.eqb k "date"))
      (objectKeys body) in
  let fieldErrors :=
    validateAmountField (getProp body "amount")
    ++ validateCategoryField (getProp body "category")
    ++ validateDescriptionField (getProp body "description")
    ++ validateDateField Date_parse (tomorrow clk) (getProp body "date") in
  let reply (details : list string) :=
    JObj [("error", JStr "Validation Error");
          ("message", JStr "Invalid request data");
          ("details", JArr (map JStr details))] in
  let '(w', res') := validateCreateExpense Date_parse Db createExpenseSvc clk body res w in
  w' = w
  /\ statusCode res' = 400
  /\ unexpected <> []
  /\ sentBody res'
     = Some (reply (fieldErrors
                    ++ ["Unexpected fields: " +:+ String.concat ", " unexpected]))
  /\ (fieldErrors = [] ->
      sentBody res' = Some (reply ["Unexpected fields: " +:+ String.concat ", " unexpected])).
Proof.
  intros (k & Hin & H1 & H2 & H3 & H4). cbn zeta.
  assert (Hextra : extraFields body <> []).
  { rewrite extraFields_filter. intros Hnil.
    assert (Hk : In k (List.filter
                         (fun k => negb (String.eqb k "amount" || String.eqb k "category"
                                         || String.eqb k "description"
                                         || String.eqb k "date"))
                         (objectKeys body))).
    { apply List.filter_In. split; [exact Hin |].
      apply String.eqb_neq in H1, H2, H3, H4. rewrite H1, H2, H3, H4. reflexivity. }
    rewrite Hnil in Hk. exact Hk. }
  assert (Hobj : negb (truthy body) || negb (typeofObject body) = false).
  { destruct body; try reflexivity; exfalso; apply Hextra; reflexivity. }
  assert (Hx : validateExtraFields body
               = ["Unexpected fields: " +:+ join ", " (extraFields body)]).
  { unfold validateExtraFields. destruct (extraFields body); [congruence | reflexivity]. }
  unfold validateCreateExpense. rewrite Hobj.
  assert (Herrs : validationErrors Date_parse (tomorrow clk) body
                  = (validateAmountField (getProp body "amount")
                     ++ validateCategoryField (getProp body "category")
                     ++ validateDescriptionField (getProp body "description")
                     ++ validateDateField Date_parse (tomorrow clk) (getProp body "date"))
                    ++ ["Unexpected fields: " +:+ join ", " (extraFields body)]).
  { unfold validationErrors. rewrite Hx, <- !app_assoc. reflexivity. }
  rewrite Herrs.
  replace (0 <? Z.of_nat (List.length _)) with true
    by (symmetry; apply Z.ltb_lt; rewrite length_app; cbn [List.length]; lia).
  rewrite res_json_400. rewrite join_concat, extraFields_filter in *.
  cbn [originalJson res_status statusCode sentBody].
  split; [reflexivity |]. split; [reflexivity |]. split; [exact Hextra |].
  split; [reflexivity |].
  intros Hnone. rewrite Hnone. reflexivity.
Qed.

End ValidationFacts.

(** ** The properties at sample inputs *)

(** A POST with a malformed key is turned away before anything runs. *)
Lemma guard_rejects_malformed_sample :
  let '(w', res') :=
    idempotencyMiddleware sampleDateParse nat sampleService sampleClock (fun st => st)
      malformedKeyRequest freshResponse emptyWorld in
  w' = emptyWorld
  /\ statusCode res' = 400
  /\ sentBody res' =
       Some (errorBody "Bad Request"
               (match idempotencyKeyHeader malformedKeyRequest with
                | None | Some EmptyString =>
                    "Idempotency-Key header is required for POST requests"
                | Some _ => "Idempotency-Key must be a valid UUID"
                end)).
Proof.
  apply (guard_rejects_missing_or_malformed_key sampleDateParse nat sampleService
           sampleClock (fun st => st) malformedKeyRequest freshResponse emptyWorld).
  - reflexivity.
  - intros k Hk. inversion Hk. reflexivity.
Defined.


(** A failing service behind an expired record. *)
Lemma guard_store_writes_sample :
  let '(w', res) :=
    handle_alone sampleDateParse nat failingService postgresJsonb sampleClock sampleRequest
      staleWorld in
  let unguarded :=
    snd (validateCreateExpense sampleDateParse nat failingService sampleClock
           (body sampleRequest) freshResponse staleWorld) in
  let replayed := live sampleClock (store staleWorld !! sampleKey) in
  let expired := match store staleWorld !! sampleKey with
                 | Some r => expiresAt r <? at_lookup sampleClock
                 | None => false
                 end in
  List.filter isCreate (added staleWorld w')
    = (if negb replayed && is2xx (statusCode res) then [EvCreate sampleKey true] else [])
  /\ List.filter isStoreWrite (added staleWorld w')
    = (if expired then [EvDelete sampleKey] else []) ++ List.filter isCreate (added staleWorld w')
  /\ (replayed = false ->
      statusCode res = statusCode unguarded /\ sentBody res = sentBody unguarded)
  /\ (replayed = false -> is2xx (statusCode res) = false -> store w' !! sampleKey = None).
Proof.
  apply (guard_store_writes sampleDateParse nat failingService postgresJsonb sampleClock
           sampleRequest sampleKey staleWorld); reflexivity.
Defined.



(** The sample request losing the race for its key. *)
Lemma lost_insert_race_sample :
  let '(w', res) :=
    handle sampleDateParse nat sampleService postgresJsonb sampleClock (fun st => st)
      rivalWins sampleRequest emptyWorld in
  let unguarded :=
    snd (validateCreateExpense sampleDateParse nat sampleService sampleClock
           (body sampleRequest) freshResponse emptyWorld) in
  statusCode res = statusCode unguarded /\ sentBody res = sentBody unguarded
  /\ (exists evs : list Event, added emptyWorld w' = evs ++ [EvCreate sampleKey false])
  /\ Forall (fun e => forall k', e <> EvUnhandledRejection k') (added emptyWorld w')
  /\ store w' = rivalWins (delete sampleKey (store emptyWorld))
  /\ (forall clk2 req2,
        method req2 = "POST" -> idempotencyKeyHeader req2 = Some sampleKey ->
        at_lookup clk2 <= expiresAt rivalRecord ->
        let '(w2, r2) :=
          handle_alone sampleDateParse nat sampleService postgresJsonb clk2 req2 w' in
        statusCode r2 = 200 /\ sentBody r2 = Some (response rivalRecord)
        /\ serviceCalls (added w' w2) = []).
Proof.
  apply (lost_insert_race_is_swallowed sampleDateParse nat sampleService postgresJsonb
           sampleClock rivalWins sampleRequest sampleKey rivalRecord emptyWorld);
    reflexivity.
Defined.

(** "5" is rendered with two decimals behind the currency prefix. *)
Lemma format_parsed_sample :
  format_parsed "5" = Some (currencyPrefix +:+ canonicalAmount "5").
Proof.
  apply (format_parsed_canonical "5"). reflexivity.
Defined.

(** The key generated from the sample draws. *)
Lemma generated_key_sample :
  uuidRegex_test (generateIdempotencyKey sampleDraws) = true
  /\ conforms uuidV4Template (generateIdempotencyKey sampleDraws) = true.
Proof.
  apply (generated_key_passes_guard_format sampleDraws).
  intros i. unfold sampleDraws. cbn [fst snd].
  apply Z.mod_pos_bound. reflexivity.
Defined.

(** The sample body with two more fields. *)
Lemma extra_fields_sample :
  let unexpected :=
    List.filter (fun k => negb (String.eqb k "amount" || String.eqb k "category"
                                || String.eqb k "description" || String.eqb k "date"))
      (objectKeys pollutedBody) in
  let fieldErrors :=
    validateAmountField (getProp pollutedBody "amount")
    ++ validateCategoryField (getProp pollutedBody "category")
    ++ validateDescriptionField (getProp pollutedBody "description")
    ++ validateDateField sampleDateParse (tomorrow sampleClock) (getProp pollutedBody "date") in
  let reply (details : list string) :=
    JObj [("error", JStr "Validation Error");
          ("message", JStr "Invalid request data");
          ("details", JArr (map JStr details))] in
  let '(w', res') :=
    validateCreateExpense sampleDateParse nat sampleService sampleClock pollutedBody
      freshResponse emptyWorld in
  w' = emptyWorld
  /\ statusCode res' = 400
  /\ unexpected <> []
  /\ sentBody res'
     = Some (reply (fieldErrors
                    ++ ["Unexpected fields: " +:+ String.concat ", " unexpected]))
  /\ (fieldErrors = [] ->
      sentBody res' = Some (reply ["Unexpected fields: " +:+ String.concat ", " unexpected])).
Proof.
  apply (extra_fields_are_rejected sampleDateParse nat sampleService sampleClock
           pollutedBody freshResponse emptyWorld).
  exists "isAdmin". vm_compute. repeat split; try discriminate. tauto.
Defined.

(** ** Where the code departs from the specification *)

(** Against C3: with an expired record under the key, a failed request still
    writes to the idempotency table once (the delete), and a successful one
    writes twice (the delete and the insert). *)
Lemma expired_record_adds_a_write :
  (let '(w', res) :=
     handle_alone sampleDateParse nat failingService postgresJsonb sampleClock sampleRequest staleWorld in
   is2xx (statusCode res) = false
   /\ List.filter isStoreWrite (added staleWorld w') = [EvDelete sampleKey])
  /\ (let '(w', res) :=
        handle_alone sampleDateParse nat sampleService postgresJsonb sampleClock sampleRequest staleWorld in
      is2xx (statusCode res) = true
      /\ List.filter isStoreWrite (added staleWorld w')
         = [EvDelete sampleKey; EvCreate sampleKey true]).
Proof. vm_compute. repeat split; reflexivity. Qed.

(** Against C5: the rendering of "5.00" is not "5.00" but the currency prefix
    followed by it; so is that of "5"; a string with a redundant leading zero
    does not come back padded but stripped; and "0.00", which has the amount
    format, is not rendered at all, [parseAmount] returning null for it. *)
Lemma format_parsed_adds_prefix :
  format_parsed "5.00" = Some (currencyPrefix +:+ "5.00")
  /\ format_parsed "5.00" <> Some "5.00"
  /\ format_parsed "5" <> Some "5.00"
  /\ format_parsed "05" = Some (currencyPrefix +:+ "5.00")
  /\ amountRegex_test "0.00" = true
  /\ format_parsed "0.00" = None.
Proof. vm_compute. repeat split; (reflexivity || discriminate). Qed.




(** Against C4: "-1.00" and "1.234" are turned away with one and the same
    reason. *)
Lemma sign_and_precision_share_a_reason :
  validateAmountField (JStr "-1.00") = validateAmountField (JStr "1.234")
  /\ error (validateAmount "-1.00") = error (validateAmount "1.234").
Proof.
  vm_compute. split; reflexivity.
Qed.

(** * Further properties *)

(** ** Amount bounds are exact *)

(** The rounding of a positive p/q with q <= 100, taken apart. *)
Lemma round_double_unfold p q :
  0 < p -> 0 < q <= 100 ->
  exists e m,
    Z.log2 p - Z.log2 q - 53 <= e <= Z.log2 p - Z.log2 q - 52
    /\ m = round_half_even (p * 2 ^ Z.max 0 (- e)) (q * 2 ^ Z.max 0 e)
    /\ 2 ^ 51 <= m
    /\ round_double p q =
       (if (971 <? e) || ((e =? 971) && (2 ^ 53 <=? m)) then Infinity else Finite m e).
Proof.
  intros Hp Hq.
  pose proof (Z.log2_spec p Hp) as Hlp.
  pose proof (Z.log2_spec q ltac:(lia)) as Hlq.
  pose proof (Z.log2_nonneg p) as Hlp0.
  pose proof (Z.log2_nonneg q) as Hlq0.
  assert (Hlq6 : Z.log2 q <= 6).
  { change 6 with (Z.log2 100). apply Z.log2_le_mono. lia. }
  rewrite Z.pow_succ_r in Hlp, Hlq by assumption.
  assert (Hb : Z.log2 p - Z.log2 q - 53 <= binade p q <= Z.log2 p - Z.log2 q - 52)
    by (destruct (binade_cases p q); lia).
  exists (binade p q), (round_half_even (p * 2 ^ Z.max 0 (- binade p q))
                                       (q * 2 ^ Z.max 0 (binade p q))).
  split; [exact Hb |]. split; [reflexivity |].
  set (lp := Z.log2 p) in *. set (lq := Z.log2 q) in *.
  split.
  - set (e := binade p q) in *. clearbody e.
    assert (Hden : 0 < q * 2 ^ Z.max 0 e).
    { apply Z.mul_pos_pos; [lia |]. apply Z.pow_pos_nonneg; lia. }
    pose proof (round_half_even_bounds (p * 2 ^ Z.max 0 (- e)) (q * 2 ^ Z.max 0 e) Hden) as Hm.
    assert (2 ^ 51 <= p * 2 ^ Z.max 0 (- e) / (q * 2 ^ Z.max 0 e)); [| lia].
    apply Z.div_le_lower_bound; [lia |].
    assert (H1 : q * 2 ^ Z.max 0 e * 2 ^ 51 <= 2 ^ (lq + 1 + Z.max 0 e + 51)).
    { rewrite !Z.pow_add_r by lia. change (2 ^ 1) with 2.
      apply Z.mul_le_mono_nonneg_r; [lia |].
      apply Z.mul_le_mono_nonneg_r; [apply Z.pow_nonneg; lia | lia]. }
    assert (H2 : 2 ^ (lq + 1 + Z.max 0 e + 51) <= 2 ^ (lp + Z.max 0 (- e)))
      by (apply pow2_mono; lia).
    assert (H3 : 2 ^ (lp + Z.max 0 (- e)) <= p * 2 ^ Z.max 0 (- e)).
    { rewrite Z.pow_add_r by lia. apply Z.mul_le_mono_nonneg_r; [| lia].
      apply Z.pow_nonneg; lia. }
    lia.
  - unfold round_double.
    replace (p =? 0) with false by (symmetry; apply Z.eqb_neq; lia).
    replace (Z.max (binade p q) (-1074)) with (binade p q) by lia.
    reflexivity.
Qed.

(** Below 2^34 the rounding keeps at least 18 binary digits after the point. *)
Lemma round_double_below p q :
  0 < p -> 0 < q <= 100 -> p < q * 2 ^ 34 ->
  exists m k, round_double p q = Finite m (- k) /\ 18 <= k /\ 2 ^ 51 <= m <= 2 ^ 54
              /\ 2 * Z.abs (m * q - p * 2 ^ k) <= q.
Proof.
  intros Hp Hq Hlt.
  destruct (round_double_unfold p q Hp Hq) as (e & m & He & Hm & Hm51 & Hrd).
  pose proof (Z.log2_spec p Hp) as Hlp.
  pose proof (Z.log2_spec q ltac:(lia)) as Hlq.
  pose proof (Z.log2_nonneg p) as Hlp0.
  pose proof (Z.log2_nonneg q) as Hlq0.
  rewrite Z.pow_succ_r in Hlp, Hlq by assumption.
  set (lp := Z.log2 p) in *. set (lq := Z.log2 q) in *.
  assert (Hl : lp - lq <= 34).
  { assert (H1 : 2 ^ lp < 2 ^ (lq + 35)).
    { replace (lq + 35) with (lq + 1 + 34) by lia.
      rewrite !Z.pow_add_r by lia. change (2 ^ 1) with 2.
      assert (q * 2 ^ 34 < 2 ^ lq * 2 * 2 ^ 34) by (apply Z.mul_lt_mono_pos_r; lia).
      lia. }
    apply Z.pow_lt_mono_r_iff in H1; lia. }
  assert (Hneg : e <= -18) by lia.
  replace (Z.max 0 e) with 0 in * by lia.
  replace (Z.max 0 (- e)) with (- e) in * by lia.
  change (2 ^ 0) with 1 in *. rewrite Z.mul_1_r in *.
  exists m, (- e). rewrite Z.opp_involutive.
  replace (971 <? e) with false in Hrd by (symmetry; apply Z.ltb_ge; lia).
  replace (e =? 971) with false in Hrd by (symmetry; apply Z.eqb_neq; lia).
  cbn [orb andb] in Hrd.
  split; [exact Hrd |]. split; [lia |]. split.
  - split; [exact Hm51 |].
    pose proof (round_half_even_bounds (p * 2 ^ (- e)) q ltac:(lia)) as Hb.
    rewrite <- Hm in Hb.
    assert (p * 2 ^ (- e) / q < 2 ^ 54); [| lia].
    apply Z.div_lt_upper_bound; [lia |].
    assert (H1 : p * 2 ^ (- e) < 2 ^ (lp + 1 - e)).
    { replace (lp + 1 - e) with ((lp + 1) + (- e)) by lia.
      rewrite !Z.pow_add_r by lia. change (2 ^ 1) with 2.
      apply Z.mul_lt_mono_pos_r; [| lia].
      apply Z.pow_pos_nonneg; lia. }
    assert (H2 : 2 ^ (lp + 1 - e) <= 2 ^ (lq + 54)) by (apply pow2_mono; lia).
    assert (H3 : 2 ^ (lq + 54) <= q * 2 ^ 54).
    { rewrite Z.pow_add_r by lia. apply Z.mul_le_mono_nonneg_r; lia. }
    lia.
  - subst m. apply round_half_even_error. lia.
Qed.

Lemma num_of_Z_0 : num_of_Z 0 = Finite 0 0.
Proof. reflexivity. Qed.

(** A positive p/q rounds to a number above 0. *)
Lemma round_double_positive p q :
  0 < p -> 0 < q <= 100 ->
  num_gt (round_double p q) (num_of_Z 0) = true
  /\ num_le (round_double p q) (num_of_Z 0) = false
  /\ isNaN (round_double p q) = false.
Proof.
  intros Hp Hq.
  destruct (round_double_unfold p q Hp Hq) as (e & m & He & Hm & Hm51 & ->).
  rewrite num_of_Z_0.
  destruct ((971 <? e) || ((e =? 971) && (2 ^ 53 <=? m))); [repeat split |].
  unfold num_gt, num_lt, num_le, isNaN.
  assert (H51 : 0 < 2 ^ 51) by reflexivity.
  assert (Hpow : 0 < 2 ^ (e - Z.min 0 e)) by (apply Z.pow_pos_nonneg; lia).
  assert (Hpow' : 0 < 2 ^ (e - Z.min e 0)) by (apply Z.pow_pos_nonneg; lia).
  rewrite !Z.mul_0_l.
  split; [apply Z.ltb_lt; nia |]. split; [apply Z.leb_gt; nia | reflexivity].
Qed.

(** Comparison of two numbers with negative exponents, cross-multiplied. *)
Lemma num_lt_cross m1 k1 m2 k2 :
  0 <= k1 -> 0 <= k2 ->
  num_lt (Finite m1 (- k1)) (Finite m2 (- k2)) = (m1 * 2 ^ k2 <? m2 * 2 ^ k1).
Proof.
  intros H1 H2. unfold num_lt.
  destruct (Z_le_gt_dec k1 k2) as [Hle | Hgt].
  - replace (Z.min (- k1) (- k2)) with (- k2) by lia.
    replace (- k1 - - k2) with (k2 - k1) by lia.
    replace (- k2 - - k2) with 0 by lia. change (2 ^ 0) with 1. rewrite Z.mul_1_r.
    replace (2 ^ k2) with (2 ^ (k2 - k1) * 2 ^ k1)
      by (rewrite <- Z.pow_add_r by lia; f_equal; lia).
    assert (0 < 2 ^ k1) by (apply Z.pow_pos_nonneg; lia).
    destruct (m1 * 2 ^ (k2 - k1) <? m2) eqn:E; symmetry.
    + apply Z.ltb_lt in E. apply Z.ltb_lt. nia.
    + apply Z.ltb_ge in E. apply Z.ltb_ge. nia.
  - replace (Z.min (- k1) (- k2)) with (- k1) by lia.
    replace (- k2 - - k1) with (k1 - k2) by lia.
    replace (- k1 - - k1) with 0 by lia. change (2 ^ 0) with 1. rewrite Z.mul_1_r.
    replace (2 ^ k1) with (2 ^ (k1 - k2) * 2 ^ k2)
      by (rewrite <- Z.pow_add_r by lia; f_equal; lia).
    assert (0 < 2 ^ k2) by (apply Z.pow_pos_nonneg; lia).
    destruct (m1 <? m2 * 2 ^ (k1 - k2)) eqn:E; symmetry.
    + apply Z.ltb_lt in E. apply Z.ltb_lt. nia.
    + apply Z.ltb_ge in E. apply Z.ltb_ge. nia.
Qed.

(** What [parseFloat] and [amountCents] make of a string of the amount
    format. *)
Lemma amount_values s :
  amountRegex_test s = true ->
  exists p q,
    (q = 1 \/ q = 10 \/ q = 100) /\ 0 <= p
    /\ parseFloat s = round_double p q
    /\ amountCents s = 100 / q * p.
Proof.
  intros Hre.
  destruct (amountRegex_shape s Hre) as (ip & r & fp & Hs & Hne & Hip & Hfp & Hlen & Hshape).
  exists (digitsValue 0 (ip +:+ fp)), (10 ^ Z.of_nat (String.length fp)).
  split; [| split; [| split]].
  - destruct fp as [| c1 [| c2 [| c3 fp']]]; cbn [String.length] in *;
      first [ left; reflexivity | right; left; reflexivity
            | right; right; reflexivity | lia ].
  - apply (digitsValue_pos (ip +:+ fp) 0); [| lia].
    clear -Hip Hfp. induction ip as [| c ip IH]; [exact Hfp |].
    cbn in Hip. apply andb_prop in Hip as [Hc Hip].
    rewrite append_cons. cbn. rewrite Hc. cbn. apply IH. exact Hip.
  - unfold parseFloat. rewrite Hs. destruct ip as [| c ip']; [congruence |].
    destruct Hshape as [[-> ->] | (-> & _ & Hf)]; [reflexivity |]. rewrite Hf. reflexivity.
  - unfold amountCents. rewrite Hs.
    destruct Hshape as [[-> ->] | (-> & _ & Hf)]; [reflexivity |]. rewrite Hf. reflexivity.
Qed.

Lemma digit_not_space c : isDigit c = true -> isSpace c = false.
Proof.
  unfold isDigit, isSpace. intros H. apply andb_prop in H as [H1 H2].
  apply Z.leb_le in H1, H2.
  apply orb_false_intro; [apply andb_false_intro2; apply Z.leb_gt; lia | apply Z.eqb_neq; lia].
Qed.

Lemma digit_not_space2 c c2 : isDigit c = true -> isSpace2 c c2 = false.
Proof.
  unfold isDigit, isSpace2. intros H. apply andb_prop in H as [H1 H2].
  apply Z.leb_le in H1, H2.
  replace (code c =? 194) with false by (symmetry; apply Z.eqb_neq; lia). reflexivity.
Qed.

Lemma digit_not_space3 c c2 c3 : isDigit c = true -> isSpace3 c c2 c3 = false.
Proof.
  unfold isDigit, isSpace3. intros H. apply andb_prop in H as [H1 H2].
  apply Z.leb_le in H1, H2.
  replace (code c =? 225) with false by (symmetry; apply Z.eqb_neq; lia).
  replace (code c =? 226) with false by (symmetry; apply Z.eqb_neq; lia).
  replace (code c =? 227) with false by (symmetry; apply Z.eqb_neq; lia).
  replace (code c =? 239) with false by (symmetry; apply Z.eqb_neq; lia).
  reflexivity.
Qed.

(** A string that starts with a digit keeps it under [trim]. *)
Lemma trim_digit c t :
  isDigit c = true -> exists t', trim (String c t) = String c t'.
Proof.
  intros Hc.
  pose proof (digit_not_space c Hc) as H1.
  assert (Hdrop : dropWhileSpace (String c t) = String c t).
  { cbn [dropWhileSpace]. rewrite H1.
    destruct t as [| c2 [| c3 t3]]; try reflexivity;
      rewrite (digit_not_space2 c c2 Hc); try reflexivity.
    rewrite (digit_not_space3 c c2 c3 Hc). reflexivity. }
  assert (Hall : allSpace (String c t) = false).
  { cbn [allSpace]. rewrite H1. cbn [andb orb].
    destruct t as [| c2 [| c3 t3]]; try reflexivity;
      rewrite (digit_not_space2 c c2 Hc); try reflexivity.
    cbn [andb orb]. rewrite (digit_not_space3 c c2 c3 Hc). reflexivity. }
  unfold trim. rewrite Hdrop. cbn [dropEndSpace]. rewrite Hall. eauto.
Qed.

(** A string of the amount format is not blank. *)
Lemma amountRegex_not_blank s :
  amountRegex_test s = true ->
  String.eqb s "" || String.eqb (trim s) "" = false.
Proof.
  intros Hre.
  destruct (amountRegex_shape s Hre) as (ip & r & fp & Hs & Hne & Hip & _).
  pose proof (span_digits_app s ip r Hs) as ->.
  destruct ip as [| c ip']; [congruence |].
  cbn in Hip. apply andb_prop in Hip as [Hc _].
  rewrite append_cons.
  destruct (trim_digit c (ip' +:+ r) Hc) as [t' ->]. reflexivity.
Qed.

Lemma scaled_bounds m q p K t n :
  0 < t -> t * q = 100 -> n = t * p ->
  2 * Z.abs (m * q - p * K) <= q ->
  n * K - 50 <= 100 * m <= n * K + 50.
Proof.
  intros Ht Htq -> H.
  pose proof (scaled_error t m q (p * K) Ht H) as Hs. rewrite Htq in Hs.
  replace (100 * m - t * (p * K)) with (100 * m - t * p * K) in Hs by ring. lia.
Qed.

Lemma hundred_over q :
  q = 1 \/ q = 10 \/ q = 100 -> 0 < 100 / q /\ 100 / q * q = 100 /\ 0 < q <= 100.
Proof. intros [-> | [-> | ->]]; repeat split; lia. Qed.

Lemma business_ceiling_value : num_of_Z 10000000 = Finite 5368709120000000 (-29).
Proof. vm_compute. reflexivity. Qed.

(** [validateAmount] turns away exactly what is not between 0.01 and
    9999999999.99. *)
Lemma validateAmount_sound s :
  valid (validateAmount s) = true ->
  amountRegex_test s = true /\ 1 <= amountCents s <= 999999999999.
Proof.
  intros Hvalid.
  destruct (validateAmount_valid s Hvalid) as (Hre & Hpos & Hceil).
  split; [exact Hre |].
  destruct (amount_values s Hre) as (p & q & Hq & Hp0 & Hpf & Hcents).
  destruct (hundred_over q Hq) as (Ht & Htq & Hq').
  rewrite Hpf in *. rewrite Hcents.
  assert (Hp : 0 < p).
  { destruct (Z.eq_dec p 0) as [Hz |]; [| lia].
    exfalso. rewrite Hz in Hpos. unfold round_double in Hpos. cbn in Hpos. discriminate. }
  split; [nia |].
  destruct (round_double_of_valid p q Hp Hq' Hceil) as (m & k & Hrd & Hk & Hm & Herr).
  rewrite Hrd, structural_ceiling_value in Hceil.
  unfold num_gt in Hceil. change (-19) with (Z.opp 19) in Hceil.
  rewrite num_lt_cross in Hceil by lia. apply Z.ltb_ge in Hceil.
  pose proof (scaled_bounds m q p (2 ^ k) (100 / q) (100 / q * p) Ht Htq eq_refl Herr) as Hb.
  assert (H128 : 2 ^ 7 <= 2 ^ k) by (apply pow2_mono; lia).
  change (2 ^ 7) with 128 in H128. change (2 ^ 19) with 524288 in Hceil.
  set (K := 2 ^ k) in *. set (n := 100 / q * p) in *.
  destruct (Z_le_gt_dec n 999999999999) as [Hle | Hgt]; [exact Hle | exfalso].
  assert (1000000000000 * K <= n * K) by (apply Z.mul_le_mono_nonneg_r; lia).
  lia.
Qed.

Lemma validateAmount_complete s :
  amountRegex_test s = true -> 1 <= amountCents s <= 999999999999 ->
  validateAmount s = {| valid := true; error := None |}.
Proof.
  intros Hre Hn.
  destruct (amount_values s Hre) as (p & q & Hq & Hp0 & Hpf & Hcents).
  destruct (hundred_over q Hq) as (Ht & Htq & Hq').
  rewrite Hcents in Hn.
  assert (Hp : 0 < p) by nia.
  destruct (round_double_positive p q Hp Hq') as (_ & Hle & Hnan).
  unfold validateAmount. rewrite (amountRegex_not_blank s Hre), Hre. cbn [negb].
  rewrite Hpf, Hle, Hnan. cbn [orb].
  assert (Hgt : num_gt (round_double p q) structural_ceiling = false); [| rewrite Hgt; reflexivity].
  destruct (Z.eq_dec (100 / q * p) 999999999999) as [Heq | Hne].
  - assert (q = 100 /\ p = 999999999999) as [-> ->].
    { destruct Hq as [-> | [-> | ->]]; cbn in Heq; lia. }
    vm_compute. reflexivity.
  - assert (Hlt : p < q * 2 ^ 34).
    { change (2 ^ 34) with 17179869184. destruct Hq as [-> | [-> | ->]]; cbn in Hn; lia. }
    destruct (round_double_below p q Hp Hq' Hlt) as (m & k & Hrd & Hk & Hm & Herr).
    rewrite Hrd, structural_ceiling_value.
    unfold num_gt. change (-19) with (Z.opp 19).
    rewrite num_lt_cross by lia. apply Z.ltb_ge.
    pose proof (scaled_bounds m q p (2 ^ k) (100 / q) (100 / q * p) Ht Htq eq_refl Herr) as Hb.
    assert (H18 : 2 ^ 18 <= 2 ^ k) by (apply pow2_mono; lia).
    change (2 ^ 18) with 262144 in H18. change (2 ^ 19) with 524288.
    set (K := 2 ^ k) in *. set (n := 100 / q * p) in *.
    assert (n * K <= 999999999998 * K) by (apply Z.mul_le_mono_nonneg_r; lia).
    lia.
Qed.

Lemma validateAmount_error s :
  valid (validateAmount s) = false -> exists e, error (validateAmount s) = Some e.
Proof.
  unfold validateAmount.
  destruct (String.eqb s "" || String.eqb (trim s) ""); [eauto |].
  destruct (negb (amountRegex_test s)); [eauto |].
  destruct (isNaN (parseFloat s) || num_le (parseFloat s) (num_of_Z 0)); [eauto |].
  destruct (num_gt (parseFloat s) structural_ceiling); [eauto | discriminate].
Qed.

(** The ceiling test of the validation middleware, on an amount
    [validateAmount] accepted. *)
Lemma business_ceiling_exact s :
  valid (validateAmount s) = true ->
  num_gt (parseFloat s) (num_of_Z 10000000) = false <-> amountCents s <= 1000000000.
Proof.
  intros Hvalid.
  destruct (validateAmount_valid s Hvalid) as (Hre & Hpos & Hceil).
  destruct (amount_values s Hre) as (p & q & Hq & Hp0 & Hpf & Hcents).
  destruct (hundred_over q Hq) as (Ht & Htq & Hq').
  rewrite Hpf in *. rewrite Hcents.
  assert (Hp : 0 < p).
  { destruct (Z.eq_dec p 0) as [Hz |]; [| lia].
    exfalso. rewrite Hz in Hpos. unfold round_double in Hpos. cbn in Hpos. discriminate. }
  destruct (round_double_of_valid p q Hp Hq' Hceil) as (m & k & Hrd & Hk & Hm & Herr).
  rewrite Hrd, business_ceiling_value.
  unfold num_gt. change (-29) with (Z.opp 29). rewrite num_lt_cross by lia.
  pose proof (scaled_bounds m q p (2 ^ k) (100 / q) (100 / q * p) Ht Htq eq_refl Herr) as Hb.
  assert (H128 : 2 ^ 7 <= 2 ^ k) by (apply pow2_mono; lia).
  change (2 ^ 7) with 128 in H128. change (2 ^ 29) with 536870912.
  set (K := 2 ^ k) in *. set (n := 100 / q * p) in *.
  rewrite Z.ltb_ge. split; intros H.
  - destruct (Z_le_gt_dec n 1000000000) as [Hle | Hgt]; [exact Hle | exfalso].
    assert (1000000001 * K <= n * K) by (apply Z.mul_le_mono_nonneg_r; lia).
    lia.
  - assert (n * K <= 1000000000 * K) by (apply Z.mul_le_mono_nonneg_r; lia).
    lia.
Qed.

(** X1. [validateAmount] accepts a string exactly when it has the amount
    format and denotes between 1 and 999999999999 hundredths (0.01 to
    9999999999.99): comparing the binary64 value with the literal
    9999999999.99 decides the same as comparing the decimals. *)
Theorem validateAmount_exact s :
  valid (validateAmount s) = true
  <-> amountRegex_test s = true /\ 1 <= amountCents s <= 999999999999.
Proof.
  split.
  - apply validateAmount_sound.
  - intros [Hre Hn]. rewrite (validateAmount_complete s Hre Hn). reflexivity.
Qed.

(** When the amount check has nothing to report. *)
Lemma validateAmountField_nil s :
  validateAmountField (JStr s) = []
  <-> amountRegex_test s = true /\ 1 <= amountCents s <= 1000000000.
Proof.
  unfold validateAmountField. split.
  - intros H. destruct (valid (validateAmount s)) eqn:Hvalid.
    + cbn [negb] in H. destruct (validateAmount_sound s Hvalid) as [Hre Hn].
      split; [exact Hre |]. split; [lia |].
      apply (business_ceiling_exact s Hvalid).
      destruct (num_gt (parseFloat s) (num_of_Z 10000000)); [discriminate H | reflexivity].
    + cbn [negb] in H. destruct (validateAmount_error s Hvalid) as [e He].
      rewrite He in H. discriminate H.
  - intros [Hre Hn].
    assert (Hvalid : valid (validateAmount s) = true)
      by (rewrite (validateAmount_complete s Hre); [reflexivity | lia]).
    rewrite Hvalid. cbn [negb].
    replace (num_gt (parseFloat s) (num_of_Z 10000000)) with false; [reflexivity |].
    symmetry. apply (business_ceiling_exact s Hvalid). lia.
Qed.

(** X2. The amount check of [validateCreateExpense] pushes no error for a
    string exactly when it has the amount format and denotes between 1 and
    1000000000 hundredths (0.01 to 10000000.00): 10000000.01 is already
    turned away, 10000000.00 is not. *)
Theorem amount_field_exact s :
  validateAmountField (JStr s) = []
  <-> amountRegex_test s = true /\ 1 <= amountCents s <= 1000000000.
Proof.
  split.
  - intros H. apply validateAmountField_nil. exact H.
  - intros [Hre Hn]. apply validateAmountField_nil. split; assumption.
Qed.

(** X3. The client's [validateAmountFormat] holds exactly for the strings of
    the amount format that denote at least one hundredth, whatever their
    size; so every amount the server's [validateAmount] accepts also passes
    the client check. *)
Theorem validateAmountFormat_exact s :
  (validateAmountFormat s = true <-> amountRegex_test s = true /\ 1 <= amountCents s)
  /\ (valid (validateAmount s) = true -> validateAmountFormat s = true).
Proof.
  assert (Hiff : validateAmountFormat s = true
                 <-> amountRegex_test s = true /\ 1 <= amountCents s).
  { unfold validateAmountFormat. split.
    - intros H. apply andb_prop in H as [Hre Hgt]. split; [exact Hre |].
      destruct (amount_values s Hre) as (p & q & Hq & Hp0 & Hpf & Hcents).
      destruct (hundred_over q Hq) as (Ht & Htq & Hq').
      rewrite Hcents. rewrite Hpf in Hgt.
      destruct (Z.eq_dec p 0) as [Hz |]; [| nia].
      exfalso. rewrite Hz in Hgt. unfold round_double in Hgt. cbn in Hgt. discriminate.
    - intros [Hre Hn]. rewrite Hre. cbn [andb].
      destruct (amount_values s Hre) as (p & q & Hq & Hp0 & Hpf & Hcents).
      destruct (hundred_over q Hq) as (Ht & Htq & Hq').
      rewrite Hcents in Hn. rewrite Hpf.
      apply round_double_positive; [nia | exact Hq']. }
  split; [exact Hiff |].
  intros Hvalid. apply Hiff. destruct (validateAmount_sound s Hvalid) as [Hre Hn].
  split; [exact Hre | lia].
Qed.

(** ** The error handler and the query check *)


(** ** Query validation *)

(** X5. The list filter and the creation check agree on categories: a
    category passes [validateCreateExpense] exactly when its trimmed form,
    which is what the service stores, passes [validateGetExpenses] as a
    filter; trimming takes off the white space and line terminators of
    ECMA-262, the no-break space and the other Unicode spaces included.
    [validateGetExpenses] lets a query through exactly when its category is
    absent or one of the allowed ones and its sort is absent or
    "date_desc". *)
Theorem filter_accepts_stored_categories c :
  (validateCategoryField (JStr c) = []
   <-> getExpensesErrors (JObj [("category", JStr (trim c))]) = [])
  /\ (forall query res,
        validateGetExpenses query res = None
        <-> (getProp query "category" = JUndefined
             \/ exists cat, getProp query "category" = JStr cat
                            /\ includes ALLOWED_CATEGORIES cat = true)
            /\ (getProp query "sort" = JUndefined
                \/ getProp query "sort" = JStr "date_desc")).
Proof.
  split.
  - unfold getExpensesErrors. cbn [getProp lookupProp]. change (String.eqb "category" "category") with true.
    cbn iota. change (String.eqb "sort" "category") with false. cbn iota.
    cbn [lookupProp]. rewrite app_nil_r.
    unfold validateCategoryField. cbn [truthy].
    destruct (String.eqb c "") eqn:Hc.
    + apply String.eqb_eq in Hc. subst c. cbn. split; discriminate.
    + cbn [negb]. destruct (String.eqb (trim c) "") eqn:Ht.
      * apply String.eqb_eq in Ht. rewrite Ht. cbn. split; discriminate.
      * destruct (includes ALLOWED_CATEGORIES (trim c)); cbn [negb];
          split; intros H; first [discriminate H | reflexivity].
  - intros query res. unfold validateGetExpenses, getExpensesErrors.
    destruct (getProp query "category") as [| | | | cat | |] eqn:Hcat;
      destruct (getProp query "sort") as [| | | | so | |] eqn:Hso;
      try destruct (includes ALLOWED_CATEGORIES cat) eqn:E;
      try destruct (String.eqb so "date_desc") eqn:E2;
      try (apply String.eqb_eq in E2; subst so);
      cbn [negb app List.length Z.of_nat Z.ltb Z.compare Pos.of_succ_nat Pos.succ];
      (split;
       [ first
           [ discriminate
           | intros _; split;
             [ first [left; reflexivity | right; eexists; split; [reflexivity | exact E]]
             | first [left; reflexivity | right; reflexivity] ] ]
       | first
           [ reflexivity
           | intros [[H | (x & H & Hx)] [H2 | H3]];
             try discriminate;
             try (inversion H; subst; congruence);
             try (inversion H3; subst; discriminate E2) ] ]).
Qed.

(** ** Replays, retries and the sweep *)

Section MorePipelineFacts.

Variable Date_parse : string -> option Z.
Variable Db : Type.
Variable createExpenseSvc : JsValue -> Db -> Db * (Thrown + JsValue).
Variable jsonb : JsValue -> JsValue.

(** The response of a request that is not answered from the cache, and the
    expenses table it leaves, do not depend on the idempotency table. *)
Lemma fresh_run_reply clk (others : Interference) k body st0 (pre : list Event) (w : World Db) :
  let '(d', evs, (c, b)) := route_reply Date_parse createExpenseSvc clk body (db w) in
  snd (fresh_run Date_parse createExpenseSvc jsonb clk others k body st0 pre w)
  = {| statusCode := c; sentBody := Some b; json := PatchedJson k |}
  /\ db (fst (fresh_run Date_parse createExpenseSvc jsonb clk others k body st0 pre w)) = d'
  /\ serviceCalls (added w (fst (fresh_run Date_parse createExpenseSvc jsonb clk others k body st0 pre w)))
     = serviceCalls pre ++ serviceCalls evs.
Proof.
  unfold fresh_run.
  destruct (route_reply Date_parse createExpenseSvc clk body (db w)) as [[d' evs] [c b]].
  cbn [fst snd db]. split; [reflexivity |]. split; [reflexivity |].
  erewrite added_app by (cbn [trace]; reflexivity).
  unfold serviceCalls. rewrite !omap_app.
  destruct (is2xx c); cbn; rewrite ?app_nil_r; reflexivity.
Qed.

(** X6. While a key's record is live, the answer depends on the key alone:
    two POSTs with the same key and any two bodies, valid or not, get the
    same result, which is status 200 with the stored response; the tables
    are left as they were and the only store call is the lookup. *)
Theorem replay_ignores_payload clk req1 req2 k r (w : World Db) :
  method req1 = "POST" -> method req2 = "POST" ->
  idempotencyKeyHeader req1 = Some k -> idempotencyKeyHeader req2 = Some k ->
  uuidRegex_test k = true ->
  pending w = [] ->
  store w !! k = Some r ->
  at_lookup clk <= expiresAt r ->
  handle_alone Date_parse Db createExpenseSvc jsonb clk req1 w
  = handle_alone Date_parse Db createExpenseSvc jsonb clk req2 w
  /\ let '(w', res) := handle_alone Date_parse Db createExpenseSvc jsonb clk req1 w in
     statusCode res = 200 /\ sentBody res = Some (response r)
     /\ store w' = store w /\ db w' = db w
     /\ added w w' = [EvFindUnique k].
Proof.
  intros Hm1 Hm2 Hk1 Hk2 Hu Hp Hl Hlive.
  rewrite (handle_alone_post Date_parse Db createExpenseSvc jsonb clk req1 k w Hm1 Hk1 Hu Hp).
  rewrite (handle_alone_post Date_parse Db createExpenseSvc jsonb clk req2 k w Hm2 Hk2 Hu Hp).
  rewrite Hl.
  replace (expiresAt r <? at_lookup clk) with false by (symmetry; apply Z.ltb_ge; lia).
  split; [reflexivity |]. cbn [statusCode sentBody store db].
  repeat split. apply added_app. reflexivity.
Qed.

(** X7. A key is not burnt by a failure.  When a request whose key has no
    live record ends outside 2xx, a later request with the same key and a
    valid body is handled as a first one: the service is called once with
    that body, its expense is sent with status 201, and it is recorded under
    the key. *)
Theorem failed_request_can_be_retried clk1 clk2 req1 req2 k (w : World Db) d' expense :
  method req1 = "POST" -> method req2 = "POST" ->
  idempotencyKeyHeader req1 = Some k -> idempotencyKeyHeader req2 = Some k ->
  uuidRegex_test k = true ->
  pending w = [] ->
  live clk1 (store w !! k) = false ->
  is2xx (statusCode (snd (handle_alone Date_parse Db createExpenseSvc jsonb clk1 req1 w))) = false ->
  truthy (body req2) = true ->
  typeofObject (body req2) = true ->
  validationErrors Date_parse (tomorrow clk2) (body req2) = [] ->
  createExpenseSvc (body req2)
    (db (fst (handle_alone Date_parse Db createExpenseSvc jsonb clk1 req1 w))) = (d', inr expense) ->
  let '(w1, r1) := handle_alone Date_parse Db createExpenseSvc jsonb clk1 req1 w in
  let '(w2, r2) := handle_alone Date_parse Db createExpenseSvc jsonb clk2 req2 w1 in
  statusCode r2 = 201 /\ sentBody r2 = Some expense
  /\ serviceCalls (added w1 w2) = [body req2]
  /\ store w2 !! k = Some (newRecord jsonb clk2 k expense).
Proof.
  intros Hm1 Hm2 Hk1 Hk2 Hu Hp Hlive Hfail Ht Ho Hv Hs.
  assert (H1 : exists st0 (pre : list Event),
             st0 !! k = None /\
             handle_alone Date_parse Db createExpenseSvc jsonb clk1 req1 w =
             fresh_run Date_parse createExpenseSvc jsonb clk1 (fun st => st) k (body req1) st0 pre w).
  { rewrite (handle_alone_post Date_parse Db createExpenseSvc jsonb clk1 req1 k w Hm1 Hk1 Hu Hp).
    unfold live in Hlive.
    destruct (store w !! k) as [r |] eqn:Hl.
    - apply negb_false_iff in Hlive. rewrite Hlive.
      exists (delete k (store w)), [EvFindUnique k; EvDelete k].
      split; [apply lookup_delete_eq | reflexivity].
    - exists (store w), [EvFindUnique k]. split; [exact Hl | reflexivity]. }
  destruct H1 as (st0 & pre & Hnone & Heq). rewrite Heq in *. clear Heq.
  unfold fresh_run in *.
  destruct (route_reply Date_parse createExpenseSvc clk1 (body req1) (db w))
    as [[d1 evs1] [c1 b1]].
  cbn [snd fst statusCode db] in Hfail, Hs. rewrite Hfail.
  match goal with |- context [handle_alone _ _ _ _ clk2 req2 ?x] => set (w1 := x) end.
  rewrite (handle_alone_post Date_parse Db createExpenseSvc jsonb clk2 req2 k w1 Hm2 Hk2 Hu eq_refl).
  subst w1. cbn [store]. rewrite Hnone. unfold fresh_run. cbn [db].
  rewrite (route_reply_created Date_parse Db createExpenseSvc clk2 (body req2) d1 d' expense
             Ht Ho Hv Hs).
  change (is2xx 201) with true. cbn iota. rewrite Hnone.
  cbn [statusCode sentBody store]. split; [reflexivity |]. split; [reflexivity |].
  split; [| apply lookup_insert_eq].
  erewrite added_app by (cbn [trace]; reflexivity). reflexivity.
Qed.

Lemma sweep_lookup now (st : gmap string IdempotencyRecord) k :
  fst (store_deleteManyExpired now st) !! k
  = match st !! k with
    | Some r => if expiresAt r <? now then None else Some r
    | None => None
    end.
Proof.
  unfold store_deleteManyExpired. cbn [fst].
  destruct (st !! k) as [r |] eqn:Hl.
  - destruct (expiresAt r <? now) eqn:He.
    + apply Z.ltb_lt in He. apply map_lookup_filter_None. right.
      intros r' Hr'. cbn. rewrite Hl in Hr'. inversion Hr'; subst. lia.
    + apply Z.ltb_ge in He. apply map_lookup_filter_Some. split; [exact Hl |]. cbn. lia.
  - apply map_lookup_filter_None. left. exact Hl.
Qed.

(** X8. Running [cleanupExpiredIdempotencyRecords] before a request, with a
    clock reading not later than the request's, changes nothing the client
    or the expenses table can see: same response, same expenses table, same
    service calls. *)
Theorem sweep_is_invisible now clk req k (w : World Db) :
  method req = "POST" ->
  idempotencyKeyHeader req = Some k ->
  uuidRegex_test k = true ->
  pending w = [] ->
  now <= at_lookup clk ->
  let swept := fst (cleanupExpiredIdempotencyRecords now w) in
  let '(w1, r1) := handle_alone Date_parse Db createExpenseSvc jsonb clk req swept in
  let '(w2, r2) := handle_alone Date_parse Db createExpenseSvc jsonb clk req w in
  r1 = r2 /\ db w1 = db w2
  /\ serviceCalls (added swept w1) = serviceCalls (added w w2).
Proof.
  intros Hm Hk Hu Hp Hnow. cbn zeta.
  assert (Hswept : fst (cleanupExpiredIdempotencyRecords now w)
                   = set_store (fst (store_deleteManyExpired now (store w))) w).
  { unfold cleanupExpiredIdempotencyRecords.
    destruct (store_deleteManyExpired now (store w)); reflexivity. }
  rewrite Hswept.
  set (ws := set_store (fst (store_deleteManyExpired now (store w))) w).
  rewrite (handle_alone_post Date_parse Db createExpenseSvc jsonb clk req k ws Hm Hk Hu Hp).
  rewrite (handle_alone_post Date_parse Db createExpenseSvc jsonb clk req k w Hm Hk Hu Hp).
  subst ws. cbn [set_store store]. rewrite sweep_lookup.
  assert (Hfresh : forall st1 pre1 st2 pre2,
             serviceCalls pre1 = serviceCalls pre2 ->
             let ws := set_store (fst (store_deleteManyExpired now (store w))) w in
             let '(w1, r1) := fresh_run Date_parse createExpenseSvc jsonb clk (fun st => st) k
                                (body req) st1 pre1 ws in
             let '(w2, r2) := fresh_run Date_parse createExpenseSvc jsonb clk (fun st => st) k
                                (body req) st2 pre2 w in
             r1 = r2 /\ db w1 = db w2
             /\ serviceCalls (added ws w1) = serviceCalls (added w w2)).
  { intros st1 pre1 st2 pre2 Hpre. cbn zeta.
    pose proof (fresh_run_reply clk (fun st => st) k (body req) st1 pre1
                  (set_store (fst (store_deleteManyExpired now (store w))) w)) as H1.
    pose proof (fresh_run_reply clk (fun st => st) k (body req) st2 pre2 w) as H2.
    cbn [set_store db] in H1.
    destruct (route_reply Date_parse createExpenseSvc clk (body req) (db w)) as [[d' evs] [c b]].
    destruct (fresh_run Date_parse createExpenseSvc jsonb clk (fun st => st) k (body req) st1 pre1
                (set_store (fst (store_deleteManyExpired now (store w))) w)) as [w1 r1].
    destruct (fresh_run Date_parse createExpenseSvc jsonb clk (fun st => st) k (body req) st2 pre2 w)
      as [w2 r2].
    cbn [fst snd] in H1, H2. destruct H1 as (-> & -> & ->). destruct H2 as (-> & -> & ->).
    rewrite Hpre. repeat split. }
  destruct (store w !! k) as [r |] eqn:Hl.
  - destruct (expiresAt r <? now) eqn:He.
    + apply Z.ltb_lt in He.
      replace (expiresAt r <? at_lookup clk) with true by (symmetry; apply Z.ltb_lt; lia).
      apply Hfresh. reflexivity.
    + destruct (expiresAt r <? at_lookup clk).
      * apply Hfresh. reflexivity.
      * cbn [db set_store]. split; [reflexivity |]. split; [reflexivity |].
        erewrite !added_app by (cbn [trace set_store]; reflexivity). reflexivity.
  - apply Hfresh. reflexivity.
Qed.

(** X10. Keys are isolated: the outcome of a request depends on the
    idempotency table only through the record of its own key, and the request
    leaves the records of all other keys as they were. *)
Theorem response_depends_on_own_record clk req k (w1 w2 : World Db) :
  method req = "POST" ->
  idempotencyKeyHeader req = Some k ->
  uuidRegex_test k = true ->
  pending w1 = [] -> pending w2 = [] ->
  store w1 !! k = store w2 !! k ->
  db w1 = db w2 ->
  let '(w1', r1) := handle_alone Date_parse Db createExpenseSvc jsonb clk req w1 in
  let '(w2', r2) := handle_alone Date_parse Db createExpenseSvc jsonb clk req w2 in
  r1 = r2 /\ db w1' = db w2' /\ store w1' !! k = store w2' !! k
  /\ added w1 w1' = added w2 w2'
  /\ (forall k', k' <> k -> store w1' !! k' = store w1 !! k').
Proof.
  intros Hm Hk Hu Hp1 Hp2 Hst Hdb.
  rewrite (handle_alone_post Date_parse Db createExpenseSvc jsonb clk req k w1 Hm Hk Hu Hp1).
  rewrite (handle_alone_post Date_parse Db createExpenseSvc jsonb clk req k w2 Hm Hk Hu Hp2).
  rewrite Hst. unfold fresh_run. rewrite Hdb.
  destruct (route_reply Date_parse createExpenseSvc clk (body req) (db w2)) as [[d' evs] [c b]].
  destruct (store w2 !! k) as [r |] eqn:Hl.
  - destruct (expiresAt r <? at_lookup clk).
    + rewrite !lookup_delete_eq. cbn [store db].
      split; [reflexivity |]. split; [reflexivity |]. split; [| split].
      * destruct (is2xx c); [rewrite !lookup_insert_eq | rewrite !lookup_delete_eq]; reflexivity.
      * erewrite !added_app by (cbn [trace]; reflexivity). reflexivity.
      * intros k' Hne. destruct (is2xx c);
          [rewrite lookup_insert_ne by congruence |]; apply lookup_delete_ne; congruence.
    + cbn [store db]. split; [reflexivity |]. split; [reflexivity |]. split; [congruence |].
      split; [| reflexivity].
      erewrite !added_app by (cbn [trace]; reflexivity). reflexivity.
  - rewrite Hst. cbn [store db].
    split; [reflexivity |]. split; [reflexivity |]. split; [| split].
    + destruct (is2xx c); [rewrite !lookup_insert_eq; reflexivity | congruence].
    + erewrite !added_app by (cbn [trace]; reflexivity). reflexivity.
    + intros k' Hne. destruct (is2xx c); [rewrite lookup_insert_ne by congruence |]; reflexivity.
Qed.

End MorePipelineFacts.

(** X9. [cleanupExpiredIdempotencyRecords] keeps exactly the records that
    expire at [now] or later, reports the number of records it removed, and
    leaves the expenses table alone; a second sweep with the same or an
    earlier reading removes nothing. *)
Theorem sweep_removes_exactly_the_expired (Db : Type) now now' (w : World Db) :
  now' <= now ->
  let '(w1, n1) := cleanupExpiredIdempotencyRecords now w in
  (forall k r, store w1 !! k = Some r <-> store w !! k = Some r /\ now <= expiresAt r)
  /\ (n1 + size (store w1) = size (store w))%nat
  /\ db w1 = db w /\ trace w1 = trace w /\ pending w1 = pending w
  /\ cleanupExpiredIdempotencyRecords now' w1 = (w1, 0%nat).
Proof.
  intros Hle. unfold cleanupExpiredIdempotencyRecords, store_deleteManyExpired.
  cbn [set_store store db trace pending].
  set (P := fun now (kv : string * IdempotencyRecord) => ~ expiresAt (snd kv) < now).
  change (fun kv : string * IdempotencyRecord => ~ expiresAt kv.2 < now) with (P now).
  change (fun kv : string * IdempotencyRecord => ~ expiresAt kv.2 < now') with (P now').
  split; [| split; [| split; [| split; [| split]]]]; try reflexivity.
  - intros k r. rewrite map_lookup_filter_Some. unfold P. cbn. split; intros [H1 H2]; split; auto; lia.
  - assert (Hsub : (size (filter (P now) (store w)) <= size (store w))%nat).
    { apply map_subseteq_size. apply map_filter_subseteq. }
    lia.
  - assert (Hid : filter (P now') (filter (P now) (store w)) = filter (P now) (store w)).
    { apply map_eq. intros k. apply option_eq. intros r.
      rewrite !map_lookup_filter_Some. unfold P. cbn. split; [tauto |].
      intros [H1 H2]. repeat split; auto. lia. }
    rewrite Hid. rewrite Nat.sub_diag. reflexivity.
Qed.


(** ** The client *)

Lemma stringItems_map ss : stringItems (map JStr ss) = Some ss.
Proof. induction ss as [| s ss IH]; [reflexivity |]. cbn. rewrite IH. reflexivity. Qed.

Section ClientFacts.

Variable Date_parse : string -> option Z.
Variable Db : Type.
Variable createExpenseSvc : JsValue -> Db -> Db * (Thrown + JsValue).

(** X11. A validation failure reaches the user word for word: the message
    [handleApiError] builds from the 400 reply of [validateCreateExpense] is
    "Invalid request data: " followed by the server's error list. *)
Theorem validation_errors_reach_the_user clk body res (w : World Db) e (es : list string) :
  truthy body = true -> typeofObject body = true ->
  validationErrors Date_parse (tomorrow clk) body = e :: es ->
  e <> EmptyString ->
  let '(_, res') := validateCreateExpense Date_parse Db createExpenseSvc clk body res w in
  match sentBody res' with
  | Some reply =>
      handleApiError (AxiosResponse (Some (asApiError reply)))
      = "Invalid request data: " +:+ join ", " (e :: es)
  | None => False
  end.
Proof.
  intros Ht Ho Hv He. unfold validateCreateExpense. rewrite Ht, Ho, Hv. cbn [negb orb].
  replace (0 <? Z.of_nat (List.length (e :: es))) with true
    by (symmetry; apply Z.ltb_lt; cbn [List.length]; lia).
  rewrite res_json_400. cbn [originalJson sentBody].
  unfold handleApiError, asApiError.
  cbn [getProp lookupProp mbind option_bind api_message api_details].
  change (String.eqb "message" "error") with false.
  change (String.eqb "message" "message") with true.
  change (String.eqb "details" "error") with false.
  change (String.eqb "details" "message") with false.
  change (String.eqb "details" "details") with true.
  cbn iota. rewrite stringItems_map.
  change (String.eqb "Invalid request data" "") with false. cbn iota.
  assert (Hj : String.eqb (join ", " (e :: es)) "" = false).
  { destruct es as [| e2 es'].
    - cbn. destruct e; [congruence | reflexivity].
    - cbn [join]. destruct e; [congruence | reflexivity]. }
  rewrite Hj. reflexivity.
Qed.

End ClientFacts.

(** ** The API base URL *)

Lemma endsWith_app suffix s : endsWith suffix (s +:+ suffix) = true.
Proof.
  induction s as [| c s IH].
  - rewrite append_nil_l. destruct suffix; cbn; rewrite ?String.eqb_refl, ?Ascii.eqb_refl; reflexivity.
  - rewrite append_cons. cbn [endsWith]. rewrite IH. apply orb_true_r.
Qed.

Lemma startsWith_app p s t : startsWith p s = true -> startsWith p (s +:+ t) = true.
Proof.
  revert s. induction p as [| a p IH]; intros s H; [reflexivity |].
  destruct s as [| b s]; [discriminate |]. cbn in H. apply andb_prop in H as [H1 H2].
  rewrite append_cons. cbn. rewrite H1. cbn. apply IH. exact H2.
Qed.

Lemma startsWith_dropTrailingSlash s :
  startsWith "http" s = true -> startsWith "http" (dropTrailingSlash s) = true.
Proof.
  intros H.
  destruct s as [| c1 [| c2 [| c3 [| c4 [| c5 s]]]]]; cbn [startsWith] in H;
    try discriminate H;
    try (rewrite ?andb_false_r in H; discriminate H).
  - repeat (apply andb_prop in H as [? H]).
    cbn [dropTrailingSlash].
    destruct (Ascii.eqb c4 "/") eqn:E.
    + exfalso. apply Ascii.eqb_eq in E. subst c4.
      repeat match goal with Hx : Ascii.eqb _ _ = true |- _ => apply Ascii.eqb_eq in Hx end.
      discriminate.
    + cbn [startsWith].
      repeat match goal with Hx : Ascii.eqb _ _ = true |- _ => rewrite Hx; clear Hx end.
      reflexivity.
  - cbn [dropTrailingSlash].
    destruct (dropTrailingSlash (String c5 s)); cbn [startsWith]; exact H.
Qed.

(** X12. [getApiBaseUrl] ends in "/api" for every environment value that
    is unset, empty or starts with "http", and it is idempotent there: a
    base URL fed back in comes out unchanged. *)
Theorem api_base_url_ends_with_api envUrl :
  match envUrl with
  | Some (String _ _ as url) => startsWith "http" url = true
  | _ => True
  end ->
  endsWith "/api" (getApiBaseUrl envUrl) = true
  /\ getApiBaseUrl (Some (getApiBaseUrl envUrl)) = getApiBaseUrl envUrl.
Proof.
  intros H. destruct envUrl as [[| c url] |]; [split; reflexivity | | split; reflexivity].
  assert (Hg : getApiBaseUrl (Some (String c url))
               = if endsWith "/api" (String c url) then String c url
                 else dropTrailingSlash (String c url) +:+ "/api")
    by (unfold getApiBaseUrl; rewrite H; reflexivity).
  rewrite Hg. clear Hg.
  destruct (endsWith "/api" (String c url)) eqn:E.
  - split; [exact E |]. unfold getApiBaseUrl. rewrite H, E. reflexivity.
  - split; [apply endsWith_app |].
    assert (Hs : startsWith "http" (dropTrailingSlash (String c url) +:+ "/api") = true)
      by (apply startsWith_app, startsWith_dropTrailingSlash; exact H).
    unfold getApiBaseUrl.
    destruct (dropTrailingSlash (String c url) +:+ "/api") as [| c' u'] eqn:Eu.
    + discriminate Hs.
    + rewrite Hs. rewrite <- Eu, endsWith_app. reflexivity.
Qed.

(** ** Collisions of generated keys *)

Lemma hexChar_inj u v : 0 <= u < 16 -> 0 <= v < 16 -> hexChar u = hexChar v -> u = v.
Proof.
  intros Hu Hv H.
  destruct (nibble_cases u Hu) as
    [-> | [-> | [-> | [-> | [-> | [-> | [-> | [-> | [-> | [-> | [-> | [-> | [-> | [-> | [-> | ->]]]]]]]]]]]]]]];
  destruct (nibble_cases v Hv) as
    [-> | [-> | [-> | [-> | [-> | [-> | [-> | [-> | [-> | [-> | [-> | [-> | [-> | [-> | [-> | ->]]]]]]]]]]]]]]];
  first [reflexivity | discriminate H].
Qed.

Lemma replaceAllXY_eq template : forall r1 r2 i j,
  (forall n, 0 <= fst (r1 n) < snd (r1 n)) ->
  (forall n, 0 <= fst (r2 n) < snd (r2 n)) ->
  (replaceAllXY template r1 i = replaceAllXY template r2 j
   <-> templateDigits template r1 i = templateDigits template r2 j).
Proof.
  induction template as [| c t IH]; intros r1 r2 i j H1 H2; [cbn; tauto |].
  cbn [replaceAllXY templateDigits].
  pose proof (H1 i) as Hi. pose proof (H2 j) as Hj.
  destruct (r1 i) as [n1 d1] eqn:E1. destruct (r2 j) as [n2 d2] eqn:E2.
  cbn [fst snd] in Hi, Hj.
  pose proof (randomNibble_range n1 d1 Hi) as Hn1.
  pose proof (randomNibble_range n2 d2 Hj) as Hn2.
  destruct (Ascii.eqb c "x") eqn:Hx.
  - cbn [orb]. unfold replaceXY. rewrite Hx.
    rewrite !toString16_nibble by assumption.
    rewrite !append_cons, !append_nil_l.
    split; intros H.
    + inversion H as [[Hc Hrest]]. apply hexChar_inj in Hc; [| assumption | assumption].
      rewrite Hc. f_equal. apply (IH r1 r2 (S i) (S j) H1 H2). exact Hrest.
    + inversion H as [[Hc Hrest]]. rewrite Hc. f_equal.
      apply (IH r1 r2 (S i) (S j) H1 H2). exact Hrest.
  - cbn [orb]. destruct (Ascii.eqb c "y") eqn:Hy.
    + unfold replaceXY. rewrite Hx.
      pose proof (variant_range _ Hn1) as Hv1. pose proof (variant_range _ Hn2) as Hv2.
      rewrite !toString16_nibble by assumption.
      rewrite !append_cons, !append_nil_l.
      split; intros H.
      * inversion H as [[Hc Hrest]]. apply hexChar_inj in Hc; [| assumption | assumption].
        rewrite Hc. f_equal. apply (IH r1 r2 (S i) (S j) H1 H2). exact Hrest.
      * inversion H as [[Hc Hrest]]. rewrite Hc. f_equal.
        apply (IH r1 r2 (S i) (S j) H1 H2). exact Hrest.
    + split; intros H.
      * inversion H as [Hrest]. apply (IH r1 r2 i j H1 H2). exact Hrest.
      * f_equal. apply (IH r1 r2 i j H1 H2). exact H.
Qed.

Lemma variant_eq u v :
  0 <= u < 16 -> 0 <= v < 16 ->
  (Z.lor (Z.land u 3) 8 = Z.lor (Z.land v 3) 8 <-> Z.land u 3 = Z.land v 3).
Proof.
  intros Hu Hv.
  destruct (nibble_cases u Hu) as
    [-> | [-> | [-> | [-> | [-> | [-> | [-> | [-> | [-> | [-> | [-> | [-> | [-> | [-> | [-> | ->]]]]]]]]]]]]]]];
  destruct (nibble_cases v Hv) as
    [-> | [-> | [-> | [-> | [-> | [-> | [-> | [-> | [-> | [-> | [-> | [-> | [-> | [-> | [-> | ->]]]]]]]]]]]]]]];
  vm_compute; split; intros H; first [reflexivity | discriminate H].
Qed.

(** The digits written for the template of [generateIdempotencyKey], draw by
    draw. *)
Lemma templateDigits_uuid r :
  templateDigits uuidV4Template r 0
  = map (fun n => if Nat.eqb n 15
                  then Z.lor (Z.land (randomNibble (r n)) 3) 8
                  else randomNibble (r n)) (seq 0 31).
Proof. reflexivity. Qed.

Lemma map_seq_eq {A} (f g : nat -> A) len : forall start,
  map f (seq start len) = map g (seq start len)
  <-> forall n, (start <= n < start + len)%nat -> f n = g n.
Proof.
  induction len as [| len IH]; intros start; cbn [seq map].
  - split; [intros _ n Hn; lia | reflexivity].
  - split.
    + intros H n Hn. inversion H as [[Hhd Htl]].
      destruct (Nat.eq_dec n start) as [-> | Hne]; [exact Hhd |].
      apply (IH (S start)); [exact Htl | lia].
    + intros H. f_equal; [apply H; lia |].
      apply IH. intros n Hn. apply H. lia.
Qed.

(** X13. [generateIdempotencyKey] keeps all of its randomness but two bits.
    The template takes 31 draws, the sixteenth (number 15) for its y.  With
    draws in range, two generated keys are equal exactly when the nibbles
    drawn for the 30 x places are equal and the nibbles drawn for the y
    place agree in their two low bits: of that nibble the callback keeps
    [r & 0x3] only. *)
Theorem generated_keys_equal_iff r1 r2 :
  (forall n, 0 <= fst (r1 n) < snd (r1 n)) ->
  (forall n, 0 <= fst (r2 n) < snd (r2 n)) ->
  (generateIdempotencyKey r1 = generateIdempotencyKey r2
   <-> forall n, (n < 31)%nat ->
         if Nat.eqb n 15
         then Z.land (randomNibble (r1 n)) 3 = Z.land (randomNibble (r2 n)) 3
         else randomNibble (r1 n) = randomNibble (r2 n)).
Proof.
  intros H1 H2.
  assert (Hr : forall (r : nat -> Z * Z) n,
             0 <= fst (r n) < snd (r n) -> 0 <= randomNibble (r n) < 16).
  { intros r n H. destruct (r n) as [a b]. apply randomNibble_range. exact H. }
  etransitivity; [apply (replaceAllXY_eq uuidV4Template r1 r2 0%nat 0%nat H1 H2) |].
  rewrite !templateDigits_uuid, map_seq_eq.
  split; intros H n Hn.
  - specialize (H n ltac:(lia)). destruct (Nat.eqb n 15); [| exact H].
    apply (variant_eq _ _ (Hr r1 n (H1 n)) (Hr r2 n (H2 n))). exact H.
  - specialize (H n ltac:(lia)). destruct (Nat.eqb n 15); [| exact H].
    apply (variant_eq _ _ (Hr r1 n (H1 n)) (Hr r2 n (H2 n))). exact H.
Qed.

(** ** Accepted bodies *)

(** X14. What the server says about an amount the client's
    [validateAmountFormat] accepted: nothing up to 10,000,000.00, the ceiling
    message up to 9,999,999,999.99, and the message of [validateAmount]
    beyond. No other amount error can follow a passed client check. *)
Theorem client_checked_amount s :
  validateAmountFormat s = true ->
  validateAmountField (JStr s)
  = if amountCents s <=? 1000000000 then []
    else if amountCents s <=? 999999999999 then [err_amount_ceiling]
    else [err_amount_too_large].
Proof.
  intros Hc. unfold validateAmountFormat in Hc. apply andb_prop in Hc as [Hre Hgt].
  destruct (amount_values s Hre) as (p & q & Hq & Hp0 & Hpf & Hcents).
  destruct (hundred_over q Hq) as (Ht & Htq & Hq').
  assert (Hp : 0 < p).
  { destruct (Z.eq_dec p 0) as [Hz |]; [| lia].
    exfalso. rewrite Hpf, Hz in Hgt. unfold round_double in Hgt. cbn in Hgt. discriminate. }
  assert (Hn : 1 <= amountCents s) by (rewrite Hcents; nia).
  destruct (amountCents s <=? 1000000000) eqn:E1.
  - apply Z.leb_le in E1. apply validateAmountField_nil. split; [exact Hre | lia].
  - apply Z.leb_gt in E1. destruct (amountCents s <=? 999999999999) eqn:E2.
    + apply Z.leb_le in E2.
      assert (Hvalid : valid (validateAmount s) = true)
        by (rewrite (validateAmount_complete s Hre); [reflexivity | lia]).
      unfold validateAmountField. rewrite Hvalid. cbn [negb].
      destruct (num_gt (parseFloat s) (num_of_Z 10000000)) eqn:Hb; [reflexivity |].
      apply (business_ceiling_exact s Hvalid) in Hb. lia.
    + apply Z.leb_gt in E2.
      destruct (round_double_positive p q Hp Hq') as (_ & Hle & Hnan).
      assert (Hv : validateAmount s = {| valid := false; error := Some err_amount_too_large |}).
      { unfold validateAmount. rewrite (amountRegex_not_blank s Hre), Hre. cbn [negb].
        rewrite Hpf, Hle, Hnan. cbn [orb].
        destruct (num_gt (round_double p q) structural_ceiling) eqn:Hs; [reflexivity |].
        exfalso.
        assert (Hvalid : valid (validateAmount s) = true).
        { unfold validateAmount. rewrite (amountRegex_not_blank s Hre), Hre. cbn [negb].
          rewrite Hpf, Hle, Hnan. cbn [orb]. rewrite Hs. reflexivity. }
        destruct (validateAmount_sound s Hvalid) as [_ Hb]. lia. }
      unfold validateAmountField. rewrite Hv. reflexivity.
Qed.

Lemma validateCategoryField_nil v :
  validateCategoryField v = []
  <-> exists c, v = JStr c /\ includes ALLOWED_CATEGORIES (trim c) = true.
Proof.
  unfold validateCategoryField. split.
  - destruct (truthy v) eqn:Ht; cbn [negb]; [| discriminate].
    destruct v as [| | | | c | |]; try discriminate.
    destruct (String.eqb (trim c) ""); [discriminate |].
    destruct (includes ALLOWED_CATEGORIES (trim c)) eqn:E; cbn [negb]; [| discriminate].
    intros _. eauto.
  - intros (c & -> & Hin). cbn [truthy].
    destruct (String.eqb c "") eqn:Hc.
    + apply String.eqb_eq in Hc. subst c. discriminate Hin.
    + cbn [negb]. destruct (String.eqb (trim c) "") eqn:Ht.
      * apply String.eqb_eq in Ht. rewrite Ht in Hin. discriminate Hin.
      * rewrite Hin. reflexivity.
Qed.

Lemma validateDescriptionField_nil v :
  validateDescriptionField v = []
  <-> exists d, v = JStr d
                /\ 3 <= jsLength (trim d) <= 500
                /\ suspiciousPatterns_test (trim d) = false.
Proof.
  unfold validateDescriptionField. split.
  - destruct (truthy v) eqn:Ht; cbn [negb]; [| discriminate].
    destruct v as [| | | | d | |]; try discriminate.
    intros H. apply app_eq_nil in H as [H1 H2].
    exists d. split; [reflexivity |].
    destruct (String.eqb (trim d) ""); [discriminate |].
    destruct (jsLength (trim d) <? 3) eqn:E3; [discriminate |].
    destruct (500 <? jsLength (trim d)) eqn:E5; [discriminate |].
    apply Z.ltb_ge in E3, E5.
    destruct (suspiciousPatterns_test (trim d)); [discriminate |]. split; [lia | reflexivity].
  - intros (d & -> & Hlen & Hs). cbn [truthy].
    destruct (String.eqb d "") eqn:Hd.
    + apply String.eqb_eq in Hd. subst d. cbn in Hlen. lia.
    + cbn [negb]. destruct (String.eqb (trim d) "") eqn:Ht.
      * apply String.eqb_eq in Ht. rewrite Ht in Hlen. cbn in Hlen. lia.
      * replace (jsLength (trim d) <? 3) with false
          by (symmetry; apply Z.ltb_ge; lia).
        replace (500 <? jsLength (trim d)) with false
          by (symmetry; apply Z.ltb_ge; lia).
        rewrite Hs. reflexivity.
Qed.

Section AcceptedBodies.

Variable Date_parse : string -> option Z.

Lemma validateDateField_nil tm v :
  validateDateField Date_parse tm v = []
  <-> exists dt t, v = JStr dt /\ dateRegex_test dt = true
                   /\ Date_parse (dt +:+ "T00:00:00Z") = Some t
                   /\ minDate <= t < tm.
Proof.
  unfold validateDateField. split.
  - destruct (truthy v) eqn:Ht; cbn [negb]; [| discriminate].
    destruct v as [| | | | dt | |]; try discriminate.
    destruct (dateRegex_test dt) eqn:Hre; cbn [negb]; [| discriminate].
    destruct (Date_parse (dt +:+ "T00:00:00Z")) as [t |] eqn:Hp; [| discriminate].
    intros H. apply app_eq_nil in H as [H1 H2].
    destruct (tm <=? t) eqn:E1; [discriminate |].
    destruct (t <? minDate) eqn:E2; [discriminate |].
    apply Z.leb_gt in E1. apply Z.ltb_ge in E2.
    exists dt, t. repeat split; auto; lia.
  - intros (dt & t & -> & Hre & Hp & Hr). cbn [truthy].
    destruct (String.eqb dt "") eqn:Hd.
    + apply String.eqb_eq in Hd. subst dt. discriminate Hre.
    + cbn [negb]. rewrite Hre, Hp. cbn [negb].
      replace (tm <=? t) with false by (symmetry; apply Z.leb_gt; lia).
      replace (t <? minDate) with false by (symmetry; apply Z.ltb_ge; lia).
      reflexivity.
Qed.

(** X15. The bodies [validateCreateExpense] lets through are exactly those
    whose amount is a string in the amount format worth between 0.01 and
    10,000,000.00, whose category trims to an allowed one, whose description
    trims to 3 to 500 UTF-16 code units without a script pattern, whose date
    is a YYYY-MM-DD string that parses to a day from 2000-01-01 up to today,
    and whose keys are all among amount, category, description and date.
    Trimming takes off the white space and line terminators of ECMA-262,
    the no-break space and the other Unicode spaces included. *)
Theorem accepted_bodies tm body :
  validationErrors Date_parse tm body = []
  <-> (exists a, getProp body "amount" = JStr a
                 /\ amountRegex_test a = true /\ 1 <= amountCents a <= 1000000000)
      /\ (exists c, getProp body "category" = JStr c
                    /\ includes ALLOWED_CATEGORIES (trim c) = true)
      /\ (exists d, getProp body "description" = JStr d
                    /\ 3 <= jsLength (trim d) <= 500
                    /\ suspiciousPatterns_test (trim d) = false)
      /\ (exists dt t, getProp body "date" = JStr dt /\ dateRegex_test dt = true
                       /\ Date_parse (dt +:+ "T00:00:00Z") = Some t
                       /\ minDate <= t < tm)
      /\ Forall (fun k => k = "amount" \/ k = "category" \/ k = "description" \/ k = "date")
           (objectKeys body).
Proof.
  assert (Hx : validateExtraFields body = []
               <-> Forall (fun k => k = "amount" \/ k = "category"
                                    \/ k = "description" \/ k = "date")
                     (objectKeys body)).
  { rewrite <- extraFields_nil.
    unfold validateExtraFields. destruct (extraFields body) as [| x xs].
    - split; reflexivity.
    - replace (0 <? Z.of_nat (List.length (x :: xs))) with true
        by (symmetry; apply Z.ltb_lt; cbn [List.length]; lia).
      split; discriminate. }
  assert (Ha : validateAmountField (getProp body "amount") = []
               <-> exists a, getProp body "amount" = JStr a
                             /\ amountRegex_test a = true /\ 1 <= amountCents a <= 1000000000).
  { split.
    - intros H. destruct (getProp body "amount") as [| | | | a | |]; try discriminate H.
      exists a. split; [reflexivity |]. apply validateAmountField_nil. exact H.
    - intros (a & -> & H). apply validateAmountField_nil. exact H. }
  unfold validationErrors. split.
  - intros H.
    apply app_eq_nil in H as [H1 H]. apply app_eq_nil in H as [H2 H].
    apply app_eq_nil in H as [H3 H]. apply app_eq_nil in H as [H4 H5].
    split; [apply Ha; exact H1 |].
    split; [apply validateCategoryField_nil; exact H2 |].
    split; [apply validateDescriptionField_nil; exact H3 |].
    split; [apply validateDateField_nil; exact H4 | apply Hx; exact H5].
  - intros (H1 & H2 & H3 & H4 & H5).
    apply Ha in H1. apply validateCategoryField_nil in H2.
    apply validateDescriptionField_nil in H3. apply validateDateField_nil in H4.
    apply Hx in H5. rewrite H1, H2, H3, H4, H5. reflexivity.
Qed.

End AcceptedBodies.

(** ** Retries *)

Section RetryFacts.

Variable Date_parse : string -> option Z.
Variable Db : Type.
Variable createExpenseSvc : JsValue -> Db -> Db * (Thrown + JsValue).
Variable jsonb : JsValue -> JsValue.

(** Requests that find a live record of their key are all answered from it. *)
Lemma serve_replays k r (reqs : list (Clock * Request * bool)) : forall (w : World Db),
  uuidRegex_test k = true ->
  pending w = [] ->
  store w !! k = Some r ->
  Forall (fun a => method (snd (fst a)) = "POST"
                   /\ idempotencyKeyHeader (snd (fst a)) = Some k
                   /\ at_lookup (fst (fst a)) <= expiresAt r) reqs ->
  serve Date_parse createExpenseSvc jsonb reqs w
  = ({| store := store w; pending := []; db := db w;
        trace := trace w ++ repeat (EvFindUnique k) (List.length reqs) |},
     map (fun _ => {| statusCode := 200; sentBody := Some (response r);
                      json := OriginalJson |}) reqs).
Proof.
  induction reqs as [| [[clk req] landed] rest IH]; intros w Hu Hp Hl Hall.
  - cbn. rewrite app_nil_r. rewrite <- Hp. destruct w; reflexivity.
  - inversion Hall as [| a l [Hm [Hk Ht]] Hrest]; subst. cbn [fst snd] in *.
    cbn [serve].
    assert (Hone : (if landed
                    then handle_alone Date_parse Db createExpenseSvc jsonb clk req w
                    else idempotencyMiddleware Date_parse Db createExpenseSvc clk
                           (fun st => st) req freshResponse w)
                   = ({| store := store w; pending := []; db := db w;
                         trace := trace w ++ [EvFindUnique k] |},
                      {| statusCode := 200; sentBody := Some (response r);
                         json := OriginalJson |})).
    { destruct landed.
      - rewrite (handle_alone_post Date_parse Db createExpenseSvc jsonb clk req k w
                   Hm Hk Hu Hp), Hl.
        replace (expiresAt r <? at_lookup clk) with false by (symmetry; apply Z.ltb_ge; lia).
        reflexivity.
      - rewrite (middleware_replay Date_parse Db createExpenseSvc clk (fun st => st) req k r w
                   Hm Hk Hu Hl Ht).
        unfold log. rewrite Hp. reflexivity. }
    rewrite Hone.
    rewrite IH; [| exact Hu | reflexivity | exact Hl | exact Hrest].
    cbn [store db trace List.length repeat map].
    rewrite <- app_assoc. reflexivity.
Qed.

(** X16. Retries create at most one expense once the first record is
    written.  A request whose key had no live record has been answered with
    a 2xx status and the insert it dispatched has reached the store.  Then
    any number of later POSTs with the same key, whatever their bodies and
    whether or not they wait for one another, looked up no later than the
    [expiresAt] of that record (24 local hours after the answer), are each
    answered 200 with the body of that answer as the JSONB column gives it
    back; the expenses table and the idempotency table stay as the first
    request left them, and the only calls made are the lookups of the
    key. *)
Theorem retries_create_at_most_once clk0 req0 (retries : list (Clock * Request * bool)) k
    (w : World Db) :
  method req0 = "POST" ->
  idempotencyKeyHeader req0 = Some k ->
  uuidRegex_test k = true ->
  pending w = [] ->
  live clk0 (store w !! k) = false ->
  is2xx (statusCode (snd (handle_alone Date_parse Db createExpenseSvc jsonb clk0 req0 w)))
  = true ->
  Forall (fun a => method (snd (fst a)) = "POST"
                   /\ idempotencyKeyHeader (snd (fst a)) = Some k
                   /\ at_lookup (fst (fst a)) <= newExpiresAt clk0) retries ->
  let '(w1, r1) := handle_alone Date_parse Db createExpenseSvc jsonb clk0 req0 w in
  let '(w2, ress) := serve Date_parse createExpenseSvc jsonb retries w1 in
  List.length ress = List.length retries
  /\ (exists b, sentBody r1 = Some b
                /\ Forall (fun r => statusCode r = 200 /\ sentBody r = Some (jsonb b)) ress)
  /\ db w2 = db w1 /\ store w2 = store w1
  /\ added w1 w2 = repeat (EvFindUnique k) (List.length retries).
Proof.
  intros Hm Hk Hu Hp Hlive H2xx Hall.
  assert (H1 : exists st0 (pre : list Event),
             st0 !! k = None /\
             handle_alone Date_parse Db createExpenseSvc jsonb clk0 req0 w =
             fresh_run Date_parse createExpenseSvc jsonb clk0 (fun st => st) k (body req0)
               st0 pre w).
  { rewrite (handle_alone_post Date_parse Db createExpenseSvc jsonb clk0 req0 k w Hm Hk Hu Hp).
    unfold live in Hlive.
    destruct (store w !! k) as [r |] eqn:Hl.
    - apply negb_false_iff in Hlive. rewrite Hlive.
      exists (delete k (store w)), [EvFindUnique k; EvDelete k].
      split; [apply lookup_delete_eq | reflexivity].
    - exists (store w), [EvFindUnique k]. split; [exact Hl | reflexivity]. }
  destruct H1 as (st0 & pre & Hnone & Heq). rewrite Heq in H2xx |- *. clear Heq.
  unfold fresh_run in *.
  destruct (route_reply Date_parse createExpenseSvc clk0 (body req0) (db w)) as [[d' evs] [c b]].
  cbn [snd statusCode] in H2xx. rewrite H2xx, Hnone.
  match goal with |- context [serve _ _ _ retries ?x] => set (w1 := x) end.
  rewrite (serve_replays k (newRecord jsonb clk0 k b) retries w1 Hu eq_refl);
    [| subst w1; cbn [store]; apply lookup_insert_eq | exact Hall].
  cbn [sentBody db store newRecord response].
  split; [apply length_map |].
  split; [exists b; split; [reflexivity |];
          apply Forall_map; apply Forall_forall; intros; split; reflexivity |].
  split; [reflexivity |]. split; [reflexivity |].
  apply added_app. reflexivity.
Qed.

End RetryFacts.

(** ** Sums of amounts *)

Lemma max_opp_r e : e <= 0 -> Z.max 0 e = 0 /\ Z.max 0 (- e) = - e.
Proof. lia. Qed.

(** The binade is the one of p/q: p/q / 2^e is at least 2^52. *)
Lemma binade_lower p q :
  0 < p -> 0 < q ->
  q * 2 ^ Z.max 0 (binade p q) * 2 ^ 52 <= p * 2 ^ Z.max 0 (- binade p q).
Proof.
  intros Hp Hq.
  pose proof (Z.log2_spec p Hp) as Hlp.
  pose proof (Z.log2_spec q Hq) as Hlq.
  pose proof (Z.log2_nonneg p) as Hlp0.
  pose proof (Z.log2_nonneg q) as Hlq0.
  rewrite Z.pow_succ_r in Hlp, Hlq by assumption.
  unfold binade.
  set (lp := Z.log2 p) in *. set (lq := Z.log2 q) in *.
  set (e0 := lp - lq - 52).
  destruct (p * 2 ^ Z.max 0 (- e0) <? q * 2 ^ 52 * 2 ^ Z.max 0 e0) eqn:E.
  - assert (H1 : q * 2 ^ Z.max 0 (e0 - 1) * 2 ^ 52 <= 2 ^ (lq + 1 + Z.max 0 (e0 - 1) + 52)).
    { rewrite !Z.pow_add_r by lia. change (2 ^ 1) with 2.
      apply Z.mul_le_mono_nonneg_r; [lia |].
      apply Z.mul_le_mono_nonneg_r; [apply Z.pow_nonneg; lia | lia]. }
    assert (H2 : 2 ^ (lq + 1 + Z.max 0 (e0 - 1) + 52) = 2 ^ (lp + Z.max 0 (- (e0 - 1))))
      by (f_equal; lia).
    assert (H3 : 2 ^ (lp + Z.max 0 (- (e0 - 1))) <= p * 2 ^ Z.max 0 (- (e0 - 1))).
    { rewrite Z.pow_add_r by lia. apply Z.mul_le_mono_nonneg_r; [| lia].
      apply Z.pow_nonneg; lia. }
    lia.
  - apply Z.ltb_ge in E. lia.
Qed.

(** Rounding a rational below 2^52 that is not tiny: the exponent is not
    positive and the relative error is at most 2^-53. *)
Lemma round_double_rel p q :
  0 < p -> 0 < q -> q <= p * 2 ^ 1000 -> p < q * 2 ^ 52 ->
  exists m k, round_double p q = Finite m (- k) /\ 0 <= k <= 1074 /\ 0 <= m
              /\ Z.abs (m * q - p * 2 ^ k) * 2 ^ 53 <= p * 2 ^ k.
Proof.
  intros Hp Hq Hlow Hhigh.
  pose proof (binade_lower p q Hp Hq) as Hlower.
  pose proof (Z.log2_spec p Hp) as Hlp.
  pose proof (Z.log2_spec q Hq) as Hlq.
  pose proof (Z.log2_nonneg p) as Hlp0.
  pose proof (Z.log2_nonneg q) as Hlq0.
  rewrite Z.pow_succ_r in Hlp, Hlq by assumption.
  assert (Hb : Z.log2 p - Z.log2 q - 53 <= binade p q <= Z.log2 p - Z.log2 q - 52)
    by (destruct (binade_cases p q); lia).
  set (lp := Z.log2 p) in *. set (lq := Z.log2 q) in *.
  assert (Hl1 : lp - lq <= 52).
  { assert (H1 : 2 ^ lp < 2 ^ (lq + 53)).
    { replace (lq + 53) with (lq + 1 + 52) by lia.
      rewrite !Z.pow_add_r by lia. change (2 ^ 1) with 2.
      assert (q * 2 ^ 52 < 2 ^ lq * 2 * 2 ^ 52) by (apply Z.mul_lt_mono_pos_r; lia).
      lia. }
    apply Z.pow_lt_mono_r_iff in H1; lia. }
  assert (Hl2 : lq - lp <= 1001).
  { assert (H1 : 2 ^ lq < 2 ^ (lp + 1002)).
    { replace (lp + 1002) with (lp + 1 + 1000 + 1) by lia.
      rewrite !Z.pow_add_r by lia. change (2 ^ 1) with 2.
      assert (p * 2 ^ 1000 < 2 ^ lp * 2 * 2 ^ 1000) by (apply Z.mul_lt_mono_pos_r; lia).
      lia. }
    apply Z.pow_lt_mono_r_iff in H1; lia. }
  unfold round_double.
  replace (p =? 0) with false by (symmetry; apply Z.eqb_neq; lia).
  replace (Z.max (binade p q) (-1074)) with (binade p q) by lia.
  set (e := binade p q) in *. clearbody e.
  destruct (max_opp_r e ltac:(lia)) as [-> ->].
  rewrite (proj1 (max_opp_r e ltac:(lia))), (proj2 (max_opp_r e ltac:(lia))) in Hlower.
  change (2 ^ 0) with 1 in *. rewrite Z.mul_1_r in *.
  replace (971 <? e) with false by (symmetry; apply Z.ltb_ge; lia).
  replace (e =? 971) with false by (symmetry; apply Z.eqb_neq; lia).
  cbn [orb andb].
  exists (round_half_even (p * 2 ^ (- e)) q), (- e). rewrite Z.opp_involutive.
  split; [reflexivity |]. split; [lia |].
  pose proof (round_half_even_bounds (p * 2 ^ (- e)) q Hq) as Hbd.
  pose proof (round_half_even_error (p * 2 ^ (- e)) q Hq) as Herr.
  assert (0 <= p * 2 ^ (- e) / q).
  { apply Z.div_pos; [| lia]. apply Z.mul_nonneg_nonneg; [lia | apply Z.pow_nonneg; lia]. }
  split; [lia |].
  change (2 ^ 53) with (2 * 2 ^ 52). lia.
Qed.

(** The same on the common scale. *)
Lemma round_double_scaled p q :
  0 <= p -> 0 < q -> q <= p * 2 ^ 1000 \/ p = 0 -> p < q * 2 ^ 52 ->
  exists m k, round_double p q = Finite m (- k) /\ 0 <= k <= 1074 /\ 0 <= m
              /\ Z.abs (scaled (Finite m (- k)) * q - p * 2 ^ 1074) * 2 ^ 53
                 <= p * 2 ^ 1074.
Proof.
  intros Hp Hq Hlow Hhigh.
  destruct (Z.eq_dec p 0) as [-> | Hnz].
  - exists 0, 0. split; [reflexivity |]. cbn. lia.
  - destruct Hlow as [Hlow | ?]; [| lia].
    destruct (round_double_rel p q ltac:(lia) Hq Hlow Hhigh) as (m & k & Hrd & Hk & Hm & Herr).
    exists m, k. split; [exact Hrd |]. split; [exact Hk |]. split; [exact Hm |].
    unfold scaled.
    assert (Hsplit : 2 ^ 1074 = 2 ^ k * 2 ^ (1074 + - k))
      by (rewrite <- Z.pow_add_r by lia; f_equal; lia).
    rewrite Hsplit.
    assert (Hu : 0 <= 2 ^ (1074 + - k)) by (apply Z.pow_nonneg; lia).
    set (u := 2 ^ (1074 + - k)) in *. set (K := 2 ^ k) in *.
    replace (m * u * q - p * (K * u)) with ((m * q - p * K) * u) by ring.
    rewrite Z.abs_mul, (Z.abs_eq u) by exact Hu.
    replace (Z.abs (m * q - p * K) * u * 2 ^ 53)
      with (Z.abs (m * q - p * K) * 2 ^ 53 * u) by ring.
    replace (p * (K * u)) with (p * K * u) by ring.
    apply Z.mul_le_mono_nonneg_r; assumption.
Qed.

Lemma amountCents_nonneg s : amountRegex_test s = true -> 0 <= amountCents s.
Proof.
  intros Hre. destruct (amount_values s Hre) as (p & q & Hq & Hp & _ & ->).
  destruct (hundred_over q Hq) as (Ht & _). nia.
Qed.

(** A parsed amount is its exact value to a relative error of 2^-53. *)
Lemma parseFloat_near s :
  amountRegex_test s = true -> amountCents s < 2 ^ 52 ->
  near (parseFloat s) (amountCents s) (amountCents s).
Proof.
  intros Hre Hlt.
  destruct (amount_values s Hre) as (p & q & Hq & Hp & Hpf & Hc).
  destruct (hundred_over q Hq) as (Ht & Htq & Hq').
  set (t := 100 / q) in *.
  assert (Hpq : p < q * 2 ^ 52) by nia.
  assert (Hlow : q <= p * 2 ^ 1000 \/ p = 0).
  { destruct (Z.eq_dec p 0); [right; assumption | left].
    assert (2 ^ 7 <= 2 ^ 1000) by (apply pow2_mono; lia).
    change (2 ^ 7) with 128 in *. nia. }
  destruct (round_double_scaled p q Hp ltac:(lia) Hlow Hpq) as (m & k & Hrd & Hk & Hm & Herr).
  exists m, k. rewrite Hpf, Hrd. split; [reflexivity |]. split; [exact Hk |].
  split; [exact Hm |].
  rewrite Hc. set (y := scaled (Finite m (- k))) in *. set (D := 2 ^ 1074) in *.
  replace (100 * y - t * p * D) with (t * (y * q - p * D)) by (rewrite <- Htq; ring).
  rewrite Z.abs_mul, (Z.abs_eq t) by lia.
  replace (t * Z.abs (y * q - p * D) * 2 ^ 53) with (t * (Z.abs (y * q - p * D) * 2 ^ 53)) by ring.
  replace (t * p * D) with (t * (p * D)) by ring.
  apply Z.mul_le_mono_nonneg_l; lia.
Qed.

(** The sum of two numbers is rounded with a relative error of 2^-53. *)
Lemma num_add_scaled m1 k1 m2 k2 :
  0 <= k1 <= 1074 -> 0 <= k2 <= 1074 -> 0 <= m1 -> 0 <= m2 ->
  let s := scaled (Finite m1 (- k1)) + scaled (Finite m2 (- k2)) in
  2 ^ 74 <= s \/ s = 0 ->
  s < 2 ^ 52 * 2 ^ 1074 ->
  exists m k, num_add (Finite m1 (- k1)) (Finite m2 (- k2)) = Finite m (- k)
              /\ 0 <= k <= 1074 /\ 0 <= m
              /\ Z.abs (scaled (Finite m (- k)) - s) * 2 ^ 53 <= s.
Proof.
  intros Hk1 Hk2 Hm1 Hm2 s Hlow Hhigh.
  unfold num_add.
  set (K := Z.max k1 k2).
  replace (Z.min (- k1) (- k2)) with (- K) by lia.
  replace (Z.max 0 (- K)) with 0 by lia.
  replace (Z.max 0 (- - K)) with K by lia.
  change (2 ^ 0) with 1. rewrite Z.mul_1_r.
  replace (- k1 - - K) with (K - k1) by lia.
  replace (- k2 - - K) with (K - k2) by lia.
  set (p := m1 * 2 ^ (K - k1) + m2 * 2 ^ (K - k2)).
  assert (HD : 2 ^ 1074 = 2 ^ K * 2 ^ (1074 - K))
    by (rewrite <- Z.pow_add_r by lia; f_equal; lia).
  assert (Hs : s = p * 2 ^ (1074 - K)).
  { subst s p. unfold scaled.
    replace (1074 + - k1) with ((K - k1) + (1074 - K)) by lia.
    replace (1074 + - k2) with ((K - k2) + (1074 - K)) by lia.
    rewrite !Z.pow_add_r by lia. ring. }
  assert (Hq : 0 < 2 ^ K) by (apply Z.pow_pos_nonneg; lia).
  assert (Hu : 0 < 2 ^ (1074 - K)) by (apply Z.pow_pos_nonneg; lia).
  assert (Hp : 0 <= p).
  { subst p. apply Z.add_nonneg_nonneg; apply Z.mul_nonneg_nonneg;
      try assumption; apply Z.pow_nonneg; lia. }
  set (Q := 2 ^ K) in *. set (u := 2 ^ (1074 - K)) in *.
  assert (Hpq : p < Q * 2 ^ 52).
  { rewrite Hs, HD in Hhigh. nia. }
  assert (Hlow' : Q <= p * 2 ^ 1000 \/ p = 0).
  { destruct Hlow as [Hlow | H0]; [left | right; nia].
    rewrite Hs in Hlow.
    assert (H1 : 2 ^ 1074 = 2 ^ 74 * 2 ^ 1000) by (rewrite <- Z.pow_add_r by lia; reflexivity).
    assert (H2 : 0 < 2 ^ 74) by (apply Z.pow_pos_nonneg; lia).
    assert (H3 : 0 < 2 ^ 1000) by (apply Z.pow_pos_nonneg; lia).
    set (A := 2 ^ 74) in *. set (B := 2 ^ 1000) in *.
    (* Q * u = A * B and A <= p * u, so Q * u <= p * B * u *)
    assert (Q * u <= p * B * u) by nia.
    apply Z.mul_le_mono_pos_r with (p := u); assumption. }
  destruct (round_double_scaled p Q Hp Hq Hlow' Hpq) as (m & k & Hrd & Hk & Hm & Herr).
  exists m, k. split; [exact Hrd |]. split; [exact Hk |]. split; [exact Hm |].
  set (z := scaled (Finite m (- k))) in *.
  rewrite HD in Herr. fold Q u in Herr.
  replace (z * Q - p * (Q * u)) with ((z - p * u) * Q) in Herr by ring.
  rewrite Z.abs_mul, (Z.abs_eq Q) in Herr by lia.
  rewrite Hs.
  apply Z.mul_le_mono_pos_r with (p := Q); [exact Hq |].
  replace (Z.abs (z - p * u) * 2 ^ 53 * Q) with (Z.abs (z - p * u) * Q * 2 ^ 53) by ring.
  replace (p * u * Q) with (p * (Q * u)) by ring. exact Herr.
Qed.

(** One step of the sum: the error budget grows by twice the new total. *)
Lemma num_add_near x y S a E :
  near x S E -> near y a a ->
  0 <= S -> 0 <= a -> 0 <= E ->
  E + a <= (S + a) * 2 ^ 52 ->
  S + a < 2 ^ 52 ->
  near (num_add x y) (S + a) (E + 2 * (S + a) + a).
Proof.
  intros (m1 & k1 & -> & Hk1 & Hm1 & Hx) (m2 & k2 & -> & Hk2 & Hm2 & Hy) HS Ha HE Hbudget Hbound.
  set (t := scaled (Finite m1 (- k1))) in *.
  set (v := scaled (Finite m2 (- k2))) in *.
  assert (HD : 0 < 2 ^ 1074) by (apply Z.pow_pos_nonneg; lia).
  assert (HD74 : 2 ^ 1074 = 2 ^ 74 * 2 ^ 1000) by (rewrite <- Z.pow_add_r by lia; reflexivity).
  assert (H1000 : 0 < 2 ^ 1000) by (apply Z.pow_pos_nonneg; lia).
  set (D := 2 ^ 1074) in *.
  change (2 ^ 53) with 9007199254740992 in *.
  change (2 ^ 52) with 4503599627370496 in *.
  assert (HED : (E + a) * D <= (S + a) * 4503599627370496 * D)
    by (apply Z.mul_le_mono_nonneg_r; lia).
  assert (Hlow : 2 ^ 74 <= t + v \/ t + v = 0).
  { destruct (Z.eq_dec (S + a) 0) as [H0 | Hnz].
    - right. assert (S = 0) by lia. assert (a = 0) by lia. assert (E = 0) by lia. subst.
      lia.
    - left. change (2 ^ 74) with 18889465931478580854784 in *.
      set (B := 2 ^ 1000) in *. nia. }
  assert (Hhigh : t + v < 4503599627370496 * D) by nia.
  destruct (num_add_scaled m1 k1 m2 k2 Hk1 Hk2 Hm1 Hm2 Hlow Hhigh)
    as (m & k & Hadd & Hk & Hm & Hz).
  exists m, k. rewrite Hadd. split; [reflexivity |]. split; [exact Hk |]. split; [exact Hm |].
  fold t v in Hz. set (z := scaled (Finite m (- k))) in *.
  change (2 ^ 53) with 9007199254740992 in *.
  lia.
Qed.

Lemma near_weaken x S E E' : near x S E -> E <= E' -> near x S E'.
Proof.
  intros (m & k & Hx & Hk & Hm & Herr) Hle.
  exists m, k. repeat (split; [assumption |]).
  assert (0 < 2 ^ 1074) by (apply Z.pow_pos_nonneg; lia).
  assert (E * 2 ^ 1074 <= E' * 2 ^ 1074) by (apply Z.mul_le_mono_nonneg_r; lia).
  lia.
Qed.

Lemma totalCents_nonneg amounts :
  Forall (fun s => amountRegex_test s = true) amounts -> 0 <= totalCents amounts.
Proof.
  induction 1 as [| s rest Hs _ IH]; cbn [totalCents fold_right]; [lia |].
  pose proof (amountCents_nonneg s Hs). fold (totalCents rest). lia.
Qed.

(** The running sum stays within (2j+1) S parts in 2^53 of the exact sum S
    of its first j amounts. *)
Lemma fold_near amounts : forall x S j,
  near x S ((2 * j + 1) * S) -> 0 <= S -> 0 <= j ->
  Forall (fun s => amountRegex_test s = true) amounts ->
  (2 * (j + Z.of_nat (List.length amounts)) + 1) * (S + totalCents amounts) < 2 ^ 52 ->
  near (fold_left (fun sum amount => num_add sum (parseFloat amount)) amounts x)
       (S + totalCents amounts)
       ((2 * (j + Z.of_nat (List.length amounts)) + 1) * (S + totalCents amounts)).
Proof.
  induction amounts as [| s rest IH]; intros x S j Hx HS Hj Hall Hbound.
  - cbn [totalCents fold_right fold_left List.length Z.of_nat].
    rewrite !Z.add_0_r. exact Hx.
  - inversion Hall as [| s' rest' Hs Hrest]; subst.
    pose proof (amountCents_nonneg s Hs) as Ha.
    pose proof (totalCents_nonneg rest Hrest) as HR.
    cbn [totalCents fold_right] in *. fold (totalCents rest) in *.
    cbn [fold_left].
    replace (Z.of_nat (List.length (s :: rest))) with (1 + Z.of_nat (List.length rest)) in *
      by (cbn [List.length]; lia).
    set (a := amountCents s) in *. set (R := totalCents rest) in *.
    set (n := Z.of_nat (List.length rest)) in *.
    assert (Hn : 0 <= n) by (subst n; lia).
    change (2 ^ 52) with 4503599627370496 in *.
    assert (Hsmall : S + a + R < 4503599627370496).
    { assert (H2 : 1 * (S + (a + R)) <= (2 * (j + (1 + n)) + 1) * (S + (a + R)))
        by (apply Z.mul_le_mono_nonneg_r; lia).
      lia. }
    assert (Hstep : near (num_add x (parseFloat s)) (S + a) ((2 * (j + 1) + 1) * (S + a))).
    { assert (HE : 0 <= (2 * j + 1) * S) by (apply Z.mul_nonneg_nonneg; lia).
      assert (Hja : 0 <= (2 * j + 1) * a) by (apply Z.mul_nonneg_nonneg; lia).
      assert (Hbudget : (2 * j + 1) * S + a <= (S + a) * 2 ^ 52).
      { change (2 ^ 52) with 4503599627370496.
        destruct (Z.eq_dec (S + a) 0) as [H0 | Hnz].
        - assert (S = 0) by lia. assert (a = 0) by lia. subst S. lia.
        - assert (Hj52 : 2 * j + 1 <= 4503599627370496).
          { assert (H1 : 1 <= S + a + R) by lia.
            assert (H2 : (2 * (j + (1 + n)) + 1) * 1 <= (2 * (j + (1 + n)) + 1) * (S + a + R))
              by (apply Z.mul_le_mono_nonneg_l; lia).
            replace (S + (a + R)) with (S + a + R) in Hbound by ring. lia. }
          assert (H3 : (2 * j + 1) * (S + a) <= 4503599627370496 * (S + a))
            by (apply Z.mul_le_mono_nonneg_r; lia).
          lia. }
      apply near_weaken with (E := (2 * j + 1) * S + 2 * (S + a) + a).
      - apply num_add_near; try assumption.
        + apply parseFloat_near; [exact Hs |]. change (2 ^ 52) with 4503599627370496. lia.
        + change (2 ^ 52) with 4503599627370496. lia.
      - lia. }
    replace (S + (a + R)) with ((S + a) + R) in * by ring.
    replace (j + (1 + n)) with ((j + 1) + n) in * by ring.
    apply IH; try assumption; lia.
Qed.

(** [toFixed(2)] of a number less than half a hundredth from n hundredths. *)
Lemma toFixed2_near m k n :
  0 <= k -> 0 <= m -> 0 <= n < 2 ^ 60 ->
  2 * Z.abs (100 * m - n * 2 ^ k) < 2 ^ k ->
  toFixed2 (Finite m (- k)) = Some (fixed2 n).
Proof.
  intros Hk Hm Hn Herr. unfold toFixed2.
  replace (Z.max 0 (- k)) with 0 by lia.
  replace (Z.max 0 (- - k)) with k by lia.
  change (2 ^ 0) with 1. rewrite !Z.mul_1_r.
  assert (HK : 0 < 2 ^ k) by (apply Z.pow_pos_nonneg; lia).
  change (2 ^ 60) with 1152921504606846976 in Hn.
  set (K := 2 ^ k) in *.
  replace (m <? 0) with false by (symmetry; apply Z.ltb_ge; lia).
  replace (10 ^ 21 * K <=? m) with false
    by (symmetry; apply Z.leb_gt; change (10 ^ 21) with 1000000000000000000000; nia).
  cbn [orb]. f_equal. f_equal.
  symmetry. apply Z.div_unique with (r := 200 * m + K - n * (2 * K)); lia.
Qed.

(** The sum is less than half a hundredth from the exact total. *)
Lemma total_close amounts :
  Forall (fun s => amountRegex_test s = true) amounts ->
  (2 * Z.of_nat (List.length amounts) + 1) * totalCents amounts < 2 ^ 52 ->
  exists m k, total amounts = Finite m (- k) /\ 0 <= k /\ 0 <= m
              /\ 2 * Z.abs (100 * m - totalCents amounts * 2 ^ k) < 2 ^ k.
Proof.
  intros Hall Hbound.
  pose proof (totalCents_nonneg amounts Hall) as HS.
  assert (Hnear : near (total amounts) (totalCents amounts)
                    ((2 * Z.of_nat (List.length amounts) + 1) * totalCents amounts)).
  { unfold total.
    apply (fold_near amounts (num_of_Z 0) 0 0); try lia; try assumption.
    exists 0, 0. split; [reflexivity |]. cbn. lia. }
  destruct Hnear as (m & k & Ht & Hk & Hm & Herr).
  exists m, k. split; [exact Ht |]. split; [lia |]. split; [exact Hm |].
  rewrite Ht in Herr. unfold scaled in Herr.
  assert (HD : 2 ^ 1074 = 2 ^ k * 2 ^ (1074 + - k))
    by (rewrite <- Z.pow_add_r by lia; f_equal; lia).
  assert (Hu : 0 < 2 ^ (1074 + - k)) by (apply Z.pow_pos_nonneg; lia).
  assert (HK : 0 < 2 ^ k) by (apply Z.pow_pos_nonneg; lia).
  rewrite HD in Herr.
  set (u := 2 ^ (1074 + - k)) in *. set (K := 2 ^ k) in *.
  set (S := totalCents amounts) in *.
  set (E := (2 * Z.of_nat (List.length amounts) + 1) * S) in *.
  replace (100 * (m * u) - S * (K * u)) with ((100 * m - S * K) * u) in Herr by ring.
  rewrite Z.abs_mul, (Z.abs_eq u) in Herr by lia.
  change (2 ^ 53) with (2 * 4503599627370496) in Herr.
  change (2 ^ 52) with 4503599627370496 in Hbound.
  nia.
Qed.

Lemma total_toFixed2 amounts :
  Forall (fun s => amountRegex_test s = true) amounts ->
  (2 * Z.of_nat (List.length amounts) + 1) * totalCents amounts < 2 ^ 52 ->
  toFixed2 (total amounts) = Some (fixed2 (totalCents amounts)).
Proof.
  intros Hall Hbound.
  pose proof (totalCents_nonneg amounts Hall) as HS.
  destruct (total_close amounts Hall Hbound) as (m & k & Ht & Hk & Hm & Hclose).
  assert (Hsmall : totalCents amounts < 2 ^ 60).
  { assert (H1 : 1 * totalCents amounts
                 <= (2 * Z.of_nat (List.length amounts) + 1) * totalCents amounts)
      by (apply Z.mul_le_mono_nonneg_r; lia).
    change (2 ^ 52) with 4503599627370496 in Hbound.
    change (2 ^ 60) with 1152921504606846976. lia. }
  rewrite Ht. apply toFixed2_near; [lia | exact Hm | lia | exact Hclose].
Qed.

(** X17. The total that [ExpenseTotal] adds up in binary64 is right to the
    hundredth: for amounts in the amount format, n of them with an exact
    total of S hundredths and (2n + 1) S < 2^52, the sum is less than half
    a hundredth away from the exact total, and [toFixed(2)] of it, as in
    [getExpenseSummary], prints the exact total. *)
Theorem total_is_exact amounts :
  Forall (fun s => amountRegex_test s = true) amounts ->
  (2 * Z.of_nat (List.length amounts) + 1) * totalCents amounts < 2 ^ 52 ->
  (exists m k, total amounts = Finite m (- k) /\ 0 <= k /\ 0 <= m
               /\ 2 * Z.abs (100 * m - totalCents amounts * 2 ^ k) < 2 ^ k)
  /\ toFixed2 (total amounts) = Some (fixed2 (totalCents amounts)).
Proof.
  intros Hall Hbound. split.
  - apply total_close; assumption.
  - apply total_toFixed2; assumption.
Qed.

(** ** The summary *)

Lemma includes_In (cs : list string) c : includes cs c = true <-> c ∈ cs.
Proof.
  unfold includes. rewrite existsb_exists, list_elem_of_In. split.
  - intros (x & Hin & Heq). apply String.eqb_eq in Heq. subst. exact Hin.
  - intros Hin. exists c. split; [exact Hin | apply String.eqb_refl].
Qed.

Lemma categoriesOf_snoc expenses e :
  categoriesOf (expenses ++ [e])
  = if includes (categoriesOf expenses) (fst e) then categoriesOf expenses
    else categoriesOf expenses ++ [fst e].
Proof. unfold categoriesOf. rewrite fold_left_app. reflexivity. Qed.

Lemma categoriesOf_NoDup expenses : NoDup (categoriesOf expenses).
Proof.
  induction expenses as [| e rest IH] using rev_ind; [constructor |].
  rewrite categoriesOf_snoc.
  destruct (includes (categoriesOf rest) (fst e)) eqn:E; [exact IH |].
  apply NoDup_app. split; [exact IH |]. split.
  - intros x Hin Hx. apply list_elem_of_singleton in Hx. subst x.
    apply includes_In in Hin. congruence.
  - apply NoDup_singleton.
Qed.

Lemma categoriesOf_complete expenses c :
  c ∉ categoriesOf expenses -> amountsOf c expenses = [].
Proof.
  induction expenses as [| e rest IH] using rev_ind; [reflexivity |].
  rewrite categoriesOf_snoc. unfold amountsOf in *. rewrite List.filter_app, map_app.
  intros Hnot.
  assert (Hrest : c ∉ categoriesOf rest).
  { intros Hin. apply Hnot. destruct (includes (categoriesOf rest) (fst e)); [exact Hin |].
    apply elem_of_app. left. exact Hin. }
  rewrite (IH Hrest). cbn [List.filter app].
  destruct (String.eqb (fst e) c) eqn:E; [| reflexivity].
  apply String.eqb_eq in E. subst c. exfalso. apply Hnot.
  destruct (includes (categoriesOf rest) (fst e)) eqn:E'.
  - apply includes_In. exact E'.
  - apply elem_of_app. right. apply list_elem_of_singleton. reflexivity.
Qed.

Lemma amountsOf_snoc c expenses e :
  amountsOf c (expenses ++ [e])
  = amountsOf c expenses ++ (if String.eqb (fst e) c then [snd e] else []).
Proof.
  unfold amountsOf. rewrite List.filter_app, map_app. cbn [List.filter].
  destruct (String.eqb (fst e) c); reflexivity.
Qed.

Lemma total_snoc amounts s : total (amounts ++ [s]) = num_add (total amounts) (parseFloat s).
Proof. unfold total. rewrite fold_left_app. reflexivity. Qed.

Lemma summaryMap_add_entries expenses e (cs : list string) :
  NoDup cs ->
  summaryMap_add (fst e) (parseFloat (snd e)) (map (entryOf expenses) cs)
  = map (entryOf (expenses ++ [e])) cs
    ++ (if includes cs (fst e) then []
        else [(fst e, (num_add (num_of_Z 0) (parseFloat (snd e)), 0 + 1))]).
Proof.
  induction cs as [| c cs IH]; intros Hnd; [reflexivity |].
  apply NoDup_cons in Hnd as [Hnotin Hnd'].
  cbn [map summaryMap_add entryOf]. fold (entryOf expenses).
  unfold includes. cbn [existsb]. fold (includes cs (fst e)).
  rewrite (String.eqb_sym (fst e) c).
  destruct (String.eqb c (fst e)) eqn:E.
  - apply String.eqb_eq in E. subst c. cbn [orb app]. rewrite app_nil_r.
    f_equal.
    + unfold entryOf. rewrite amountsOf_snoc, String.eqb_refl, total_snoc, length_app.
      cbn [List.length]. repeat f_equal. lia.
    + apply map_ext_in. intros c Hin. apply list_elem_of_In in Hin. unfold entryOf.
      rewrite amountsOf_snoc.
      destruct (String.eqb (fst e) c) eqn:E'.
      * apply String.eqb_eq in E'. subst c. contradiction.
      * rewrite app_nil_r. reflexivity.
  - cbn [orb]. rewrite IH by exact Hnd'. cbn [app]. f_equal.
    unfold entryOf. rewrite amountsOf_snoc, String.eqb_sym, E, app_nil_r. reflexivity.
Qed.

Lemma summaryMap_entries expenses :
  summaryMap expenses = map (entryOf expenses) (categoriesOf expenses).
Proof.
  induction expenses as [| e rest IH] using rev_ind; [reflexivity |].
  unfold summaryMap in *. rewrite fold_left_app. cbn [fold_left]. rewrite IH.
  rewrite summaryMap_add_entries by apply categoriesOf_NoDup.
  rewrite categoriesOf_snoc.
  destruct (includes (categoriesOf rest) (fst e)) eqn:E; [apply app_nil_r |].
  rewrite map_app. f_equal. cbn [map]. unfold entryOf.
  rewrite amountsOf_snoc, String.eqb_refl.
  rewrite categoriesOf_complete
    by (intros Hin; apply includes_In in Hin; congruence).
  reflexivity.
Qed.

(** *** Reading a printed total back *)

Lemma digitChar_isDigit d :
  0 <= d <= 9 -> isDigit (digitChar d) = true /\ digitVal (digitChar d) = d.
Proof.
  intros Hd.
  assert (H : d = 0 \/ d = 1 \/ d = 2 \/ d = 3 \/ d = 4 \/ d = 5 \/ d = 6 \/ d = 7
              \/ d = 8 \/ d = 9) by lia.
  repeat (destruct H as [-> | H]; [split; reflexivity |]).
  subst d. split; reflexivity.
Qed.

Lemma allDigits_app s : forall t, allDigits (s +:+ t) = allDigits s && allDigits t.
Proof.
  induction s as [| c s IH]; intros t.
  - rewrite append_nil_l. reflexivity.
  - rewrite append_cons. cbn [allDigits]. rewrite IH, andb_assoc. reflexivity.
Qed.

(** [decimal] prints digits that read back as the number. *)
Lemma decimal_reads_back n :
  0 <= n ->
  allDigits (decimal n) = true /\ decimal n <> EmptyString
  /\ digitsValue 0 (decimal n) = n.
Proof.
  intros Hn. revert Hn.
  induction n as [n IH] using (well_founded_induction (Z.lt_wf 0)). intros Hn.
  destruct (Z_le_gt_dec n 9) as [Hsmall | Hbig].
  - rewrite decimal_small by lia.
    destruct (digitChar_isDigit n ltac:(lia)) as [Hd Hv].
    cbn [allDigits digitsValue]. rewrite Hd, Hv.
    split; [reflexivity |]. split; [discriminate | lia].
  - assert (Hdiv : n = 10 * (n / 10) + n mod 10) by (apply Z.div_mod; lia).
    pose proof (Z.mod_pos_bound n 10 ltac:(lia)) as Hmod.
    assert (Ha : 0 < n / 10) by (apply Z.div_str_pos; lia).
    destruct (IH (n / 10) ltac:(lia) ltac:(lia)) as (Hall & Hne & Hval).
    destruct (digitChar_isDigit (n mod 10) ltac:(lia)) as [Hd Hv].
    rewrite Hdiv at 1 2 3. rewrite decimal_step by lia.
    rewrite allDigits_app, digitsValue_app, Hall, Hval.
    cbn [allDigits digitsValue]. rewrite Hd, Hv.
    split; [reflexivity |]. split; [| lia].
    destruct (decimal (n / 10)) as [| c s]; [congruence |].
    rewrite append_cons. discriminate.
Qed.

Lemma span_digits_stop s c r :
  allDigits s = true -> isDigit c = false ->
  span_digits (s +:+ String c r) = (s, String c r).
Proof.
  intros Hs Hc. induction s as [| d s IH].
  - rewrite append_nil_l. cbn [span_digits]. rewrite Hc. reflexivity.
  - cbn [allDigits] in Hs. apply andb_prop in Hs as [Hd Hs].
    rewrite append_cons. cbn [span_digits]. rewrite Hd, (IH Hs). reflexivity.
Qed.

(** [parseFloat] of a printed total is the number nearest to it. *)
Lemma parseTotal_fixed2 n : 0 <= n -> parseTotal (fixed2 n) = round_double n 100.
Proof.
  intros Hn. unfold parseTotal, fixed2.
  assert (Hq : 0 <= n / 100) by (apply Z.div_pos; lia).
  destruct (decimal_reads_back (n / 100) Hq) as (Hall & Hne & Hval).
  pose proof (Z.mod_pos_bound n 100 ltac:(lia)) as Hr.
  pose proof (Z.mod_pos_bound n 10 ltac:(lia)) as Hr2.
  assert (Hd1 : 0 <= n mod 100 / 10 <= 9).
  { split; [apply Z.div_pos; lia |]. apply Z.lt_succ_r. apply Z.div_lt_upper_bound; lia. }
  destruct (digitChar_isDigit (n mod 100 / 10) Hd1) as [Hi1 Hv1].
  destruct (digitChar_isDigit (n mod 10) ltac:(lia)) as [Hi2 Hv2].
  set (d1 := digitChar (n mod 100 / 10)) in *. set (d2 := digitChar (n mod 10)) in *.
  set (ip := decimal (n / 100)) in *.
  assert (Hnot : String.eqb (ip +:+ String "." (String d1 (String d2 EmptyString))) "Infinity"
                 = false).
  { destruct ip as [| c s]; [congruence |].
    cbn [allDigits] in Hall. apply andb_prop in Hall as [Hc _].
    rewrite append_cons. cbn [String.eqb].
    destruct (Ascii.eqb c "I") eqn:E; [| reflexivity].
    apply Ascii.eqb_eq in E. subst c. discriminate Hc. }
  rewrite Hnot. unfold parseFloat.
  rewrite (span_digits_stop ip "." _ Hall eq_refl).
  destruct ip as [| c s] eqn:Hip; [congruence |]. rewrite <- Hip in *.
  assert (Hfp : span_digits (String d1 (String d2 EmptyString))
                = (String d1 (String d2 EmptyString), EmptyString)).
  { cbn [span_digits]. rewrite Hi1, Hi2. reflexivity. }
  rewrite Hfp. cbn [fst String.length].
  rewrite digitsValue_app, Hval. cbn [digitsValue]. rewrite Hv1, Hv2.
  change (10 ^ Z.of_nat 2) with 100. f_equal.
  assert (H1 : n = 100 * (n / 100) + n mod 100) by (apply Z.div_mod; lia).
  assert (H2 : n mod 100 = 10 * (n mod 100 / 10) + (n mod 100) mod 10)
    by (apply Z.div_mod; lia).
  assert (H3 : (n mod 100) mod 10 = n mod 10).
  { rewrite Z.mod_eq with (a := n) (b := 100) by lia.
    replace (n - 100 * (n / 100)) with (n + (- 10 * (n / 100)) * 10) by ring.
    apply Z.mod_add. lia. }
  lia.
Qed.

Lemma num_lt_scaled m1 k1 m2 k2 :
  0 <= k1 <= 1074 -> 0 <= k2 <= 1074 ->
  num_lt (Finite m1 (- k1)) (Finite m2 (- k2))
  = (scaled (Finite m1 (- k1)) <? scaled (Finite m2 (- k2))).
Proof.
  intros Hk1 Hk2. rewrite num_lt_cross by lia. unfold scaled.
  assert (H1 : 2 ^ 1074 = 2 ^ k1 * 2 ^ (1074 + - k1))
    by (rewrite <- Z.pow_add_r by lia; f_equal; lia).
  assert (H2 : 2 ^ 1074 = 2 ^ k2 * 2 ^ (1074 + - k2))
    by (rewrite <- Z.pow_add_r by lia; f_equal; lia).
  assert (Hu1 : 0 < 2 ^ (1074 + - k1)) by (apply Z.pow_pos_nonneg; lia).
  assert (Hu2 : 0 < 2 ^ (1074 + - k2)) by (apply Z.pow_pos_nonneg; lia).
  assert (HK1 : 0 < 2 ^ k1) by (apply Z.pow_pos_nonneg; lia).
  assert (HK2 : 0 < 2 ^ k2) by (apply Z.pow_pos_nonneg; lia).
  set (D := 2 ^ 1074) in *.
  set (u1 := 2 ^ (1074 + - k1)) in *. set (u2 := 2 ^ (1074 + - k2)) in *.
  set (K1 := 2 ^ k1) in *. set (K2 := 2 ^ k2) in *.
  assert (HD : 0 < D) by nia.
  destruct (m1 * K2 <? m2 * K1) eqn:E; symmetry.
  - apply Z.ltb_lt in E. apply Z.ltb_lt.
    assert (H : m1 * K2 * (u1 * u2) < m2 * K1 * (u1 * u2))
      by (apply Z.mul_lt_mono_pos_r; nia).
    replace (m1 * K2 * (u1 * u2)) with (m1 * u1 * D) in H by (rewrite H2; ring).
    replace (m2 * K1 * (u1 * u2)) with (m2 * u2 * D) in H by (rewrite H1; ring).
    apply Z.mul_lt_mono_pos_r in H; assumption.
  - apply Z.ltb_ge in E. apply Z.ltb_ge.
    assert (H : m2 * K1 * (u1 * u2) <= m1 * K2 * (u1 * u2))
      by (apply Z.mul_le_mono_nonneg_r; nia).
    replace (m1 * K2 * (u1 * u2)) with (m1 * u1 * D) in H by (rewrite H2; ring).
    replace (m2 * K1 * (u1 * u2)) with (m2 * u2 * D) in H by (rewrite H1; ring).
    apply Z.mul_le_mono_pos_r in H; assumption.
Qed.

(** Below 2^52 hundredths, distinct totals are distinct numbers, in the same
    order. *)
Lemma round_double_lt n1 n2 :
  0 <= n1 < 2 ^ 52 -> 0 <= n2 < 2 ^ 52 ->
  num_lt (round_double n1 100) (round_double n2 100) = (n1 <? n2).
Proof.
  intros H1 H2.
  assert (Hlow : forall n, 0 <= n -> 100 <= n * 2 ^ 1000 \/ n = 0).
  { intros n Hn. destruct (Z.eq_dec n 0); [right; assumption | left].
    assert (2 ^ 7 <= 2 ^ 1000) by (apply pow2_mono; lia).
    change (2 ^ 7) with 128 in *. nia. }
  destruct (round_double_scaled n1 100 ltac:(lia) ltac:(lia) (Hlow n1 ltac:(lia)) ltac:(lia))
    as (m1 & k1 & Hr1 & Hk1 & Hm1 & He1).
  destruct (round_double_scaled n2 100 ltac:(lia) ltac:(lia) (Hlow n2 ltac:(lia)) ltac:(lia))
    as (m2 & k2 & Hr2 & Hk2 & Hm2 & He2).
  destruct (Z.eq_dec n1 n2) as [Heq | Hne].
  - subst n2. rewrite Hr1. rewrite num_lt_scaled by lia.
    rewrite Z.ltb_irrefl. symmetry. apply Z.ltb_irrefl.
  - rewrite Hr1, Hr2, num_lt_scaled by lia.
    set (y1 := scaled (Finite m1 (- k1))) in *. set (y2 := scaled (Finite m2 (- k2))) in *.
    assert (HD : 0 < 2 ^ 1074) by (apply Z.pow_pos_nonneg; lia).
    set (D := 2 ^ 1074) in *.
    change (2 ^ 53) with 9007199254740992 in *.
    change (2 ^ 52) with 4503599627370496 in *.
    destruct (n1 <? n2) eqn:E.
    + apply Z.ltb_lt in E. apply Z.ltb_lt.
      assert ((n2 - n1) * 9007199254740992 - (n1 + n2) > 0) by lia.
      assert (0 < ((n2 - n1) * 9007199254740992 - (n1 + n2)) * D) by nia.
      lia.
    + apply Z.ltb_ge in E. apply Z.ltb_ge.
      assert ((n1 - n2) * 9007199254740992 - (n1 + n2) > 0) by lia.
      assert (0 < ((n1 - n2) * 9007199254740992 - (n1 + n2)) * D) by nia.
      lia.
Qed.

(** *** Sorting printed totals is sorting hundredths *)

Lemma sortsAfter_render x y :
  0 <= snd (fst x) < 2 ^ 52 -> 0 <= snd (fst y) < 2 ^ 52 ->
  sortsAfter (renderEntry x) (renderEntry y) = (snd (fst x) <? snd (fst y)).
Proof.
  intros Hx Hy. unfold sortsAfter, renderEntry. cbn [fst snd].
  rewrite !parseTotal_fixed2 by lia. apply round_double_lt; assumption.
Qed.

Lemma insertEntry_render x l :
  0 <= snd (fst x) < 2 ^ 52 ->
  Forall (fun e => 0 <= snd (fst e) < 2 ^ 52) l ->
  insertEntry (renderEntry x) (map renderEntry l) = map renderEntry (insertByCents x l).
Proof.
  intros Hx Hl. induction Hl as [| y l Hy Hl IH]; [reflexivity |].
  cbn [map insertEntry insertByCents].
  rewrite (sortsAfter_render x y Hx Hy).
  destruct (snd (fst x) <? snd (fst y)); [| reflexivity].
  cbn [map]. rewrite IH. reflexivity.
Qed.

Lemma insertByCents_Forall (P : string * Z * Z -> Prop) x l :
  P x -> Forall P l -> Forall P (insertByCents x l).
Proof.
  intros Hx Hl. induction Hl as [| y l Hy Hl IH]; cbn [insertByCents].
  - repeat constructor. exact Hx.
  - destruct (snd (fst x) <? snd (fst y)); repeat constructor; assumption.
Qed.

Lemma sortByCents_Forall (P : string * Z * Z -> Prop) l :
  Forall P l -> Forall P (sortByCents l).
Proof.
  induction 1 as [| x l Hx Hl IH]; cbn [sortByCents]; [constructor |].
  apply insertByCents_Forall; assumption.
Qed.

Lemma sortEntries_render l :
  Forall (fun e => 0 <= snd (fst e) < 2 ^ 52) l ->
  sortEntries (map renderEntry l) = map renderEntry (sortByCents l).
Proof.
  induction 1 as [| x l Hx Hl IH]; [reflexivity |].
  cbn [map sortEntries sortByCents]. rewrite IH.
  apply insertEntry_render; [exact Hx |]. apply sortByCents_Forall. exact Hl.
Qed.

(** *** The rows of one category *)

Lemma totalCents_cons s l : totalCents (s :: l) = amountCents s + totalCents l.
Proof. reflexivity. Qed.

Lemma amountsOf_bounds c expenses :
  Forall (fun s => amountRegex_test s = true) (map snd expenses) ->
  Forall (fun s => amountRegex_test s = true) (amountsOf c expenses)
  /\ (List.length (amountsOf c expenses) <= List.length expenses)%nat
  /\ 0 <= totalCents (amountsOf c expenses) <= totalCents (map snd expenses).
Proof.
  unfold amountsOf. induction expenses as [| e rest IH]; intros Hall.
  - cbn. repeat split; [constructor | lia | lia | lia].
  - cbn [map] in Hall. inversion Hall as [| s l Hs Hrest]; subst.
    destruct (IH Hrest) as (IH1 & IH2 & IH3).
    pose proof (amountCents_nonneg (snd e) Hs) as Ha.
    cbn [List.filter map List.length]. rewrite totalCents_cons.
    destruct (String.eqb (fst e) c).
    + cbn [map List.length]. rewrite totalCents_cons.
      split; [constructor; assumption |]. split; lia.
    + split; [assumption |]. split; lia.
Qed.

Lemma mapM_map_Some {A B C : Type} (f : B -> option C) (g : A -> B) (h : A -> C) (l : list A) :
  Forall (fun x => f (g x) = Some (h x)) l ->
  mapM f (map g l) = Some (map h l).
Proof.
  induction 1 as [| x l Hx Hl IH]; [reflexivity |].
  cbn [map]. cbn [mapM]. rewrite Hx. cbn. rewrite IH. reflexivity.
Qed.

(** X18. [getExpenseSummary] computes in binary64 what exact decimal
    arithmetic gives.  For rows whose amounts have the amount format, n rows
    with an exact total of S hundredths and (2n + 1) S < 2^52, the result
    has one entry for each category in the rows, with the exact total of
    the category printed with two decimals and the number of its rows, the
    entries ordered by exact total, largest first, equal totals in the
    order in which the categories first appear. *)
Theorem summary_is_exact expenses :
  Forall (fun s => amountRegex_test s = true) (map snd expenses) ->
  (2 * Z.of_nat (List.length expenses) + 1) * totalCents (map snd expenses) < 2 ^ 52 ->
  getExpenseSummary expenses = Some (exactSummary expenses).
Proof.
  intros Hall Hbound.
  assert (HS : 0 <= totalCents (map snd expenses)) by (apply totalCents_nonneg; exact Hall).
  assert (Hcat : forall c,
            Forall (fun s => amountRegex_test s = true) (amountsOf c expenses)
            /\ (2 * Z.of_nat (List.length (amountsOf c expenses)) + 1)
               * totalCents (amountsOf c expenses) < 2 ^ 52
            /\ 0 <= totalCents (amountsOf c expenses) < 2 ^ 52).
  { intros c. destruct (amountsOf_bounds c expenses Hall) as (H1 & H2 & H3).
    split; [exact H1 |].
    set (n := Z.of_nat (List.length expenses)) in *.
    set (nc := Z.of_nat (List.length (amountsOf c expenses))).
    set (S := totalCents (map snd expenses)) in *.
    set (Sc := totalCents (amountsOf c expenses)) in *.
    assert (Hn : 0 <= nc <= n) by (subst n nc; lia).
    assert (Hmul : (2 * nc + 1) * Sc <= (2 * n + 1) * S)
      by (apply Z.mul_le_mono_nonneg; lia).
    assert (Hone : 1 * Sc <= (2 * nc + 1) * Sc)
      by (apply Z.mul_le_mono_nonneg_r; lia).
    lia. }
  unfold getExpenseSummary, exactSummary, exactEntries.
  rewrite summaryMap_entries.
  rewrite (mapM_map_Some _ (entryOf expenses)
             (fun c => renderEntry (c, totalCents (amountsOf c expenses),
                                    Z.of_nat (List.length (amountsOf c expenses))))).
  - cbn. f_equal. rewrite <- (map_map _ renderEntry).
    apply sortEntries_render.
    apply Forall_map. apply Forall_forall. intros c _. cbn [fst snd].
    destruct (Hcat c) as (_ & _ & H). exact H.
  - apply Forall_forall. intros c _. unfold entryOf, renderEntry. cbn [fst snd].
    destruct (Hcat c) as (H1 & H2 & _).
    rewrite (total_toFixed2 _ H1 H2). reflexivity.
Qed.

(** ** Sample runs *)

(** A live record answers the sample request and a request without an amount
    alike. *)
Lemma replay_ignores_payload_sample :
  handle_alone sampleDateParse nat sampleService postgresJsonb sampleClock sampleRequest liveWorld
  = handle_alone sampleDateParse nat sampleService postgresJsonb sampleClock incompleteRequest liveWorld
  /\ let '(w', res) :=
       handle_alone sampleDateParse nat sampleService postgresJsonb sampleClock sampleRequest liveWorld in
     statusCode res = 200 /\ sentBody res = Some (response liveRecord)
     /\ store w' = store liveWorld /\ db w' = db liveWorld
     /\ added liveWorld w' = [EvFindUnique sampleKey].
Proof.
  apply (replay_ignores_payload sampleDateParse nat sampleService postgresJsonb sampleClock
           sampleRequest incompleteRequest sampleKey liveRecord liveWorld);
    try reflexivity.
  vm_compute. discriminate.
Defined.

(** The request without an amount is refused, the sample request follows
    under the same key. *)
Lemma failed_request_can_be_retried_sample :
  let '(w1, r1) :=
    handle_alone sampleDateParse nat sampleService postgresJsonb sampleClock incompleteRequest emptyWorld in
  let '(w2, r2) :=
    handle_alone sampleDateParse nat sampleService postgresJsonb laterClock sampleRequest w1 in
  statusCode r2 = 201 /\ sentBody r2 = Some sampleExpense
  /\ serviceCalls (added w1 w2) = [body sampleRequest]
  /\ store w2 !! sampleKey = Some (newRecord postgresJsonb laterClock sampleKey sampleExpense).
Proof.
  apply (failed_request_can_be_retried sampleDateParse nat sampleService postgresJsonb
           sampleClock laterClock incompleteRequest sampleRequest sampleKey emptyWorld
           1%nat sampleExpense);
    reflexivity.
Defined.

(** Sweeping the expired record at the time of the request. *)
Lemma sweep_is_invisible_sample :
  let swept := fst (cleanupExpiredIdempotencyRecords (at_lookup sampleClock) staleWorld) in
  let '(w1, r1) :=
    handle_alone sampleDateParse nat sampleService postgresJsonb sampleClock sampleRequest swept in
  let '(w2, r2) :=
    handle_alone sampleDateParse nat sampleService postgresJsonb sampleClock sampleRequest staleWorld in
  r1 = r2 /\ db w1 = db w2
  /\ serviceCalls (added swept w1) = serviceCalls (added staleWorld w2).
Proof.
  apply (sweep_is_invisible sampleDateParse nat sampleService postgresJsonb (at_lookup sampleClock)
           sampleClock sampleRequest sampleKey staleWorld);
    reflexivity.
Defined.

(** Two sweeps of the world with the expired record, the second an hour
    behind the first. *)
Lemma sweep_removes_exactly_the_expired_sample :
  let '(w1, n1) :=
    cleanupExpiredIdempotencyRecords (at_lookup laterClock) staleWorld in
  (forall k r, store w1 !! k = Some r
               <-> store staleWorld !! k = Some r /\ at_lookup laterClock <= expiresAt r)
  /\ (n1 + size (store w1) = size (store staleWorld))%nat
  /\ db w1 = db staleWorld /\ trace w1 = trace staleWorld /\ pending w1 = pending staleWorld
  /\ cleanupExpiredIdempotencyRecords (at_lookup sampleClock) w1 = (w1, 0%nat).
Proof.
  apply (sweep_removes_exactly_the_expired nat (at_lookup laterClock) (at_lookup sampleClock)
           staleWorld).
  vm_compute. discriminate.
Defined.

(** The sample request on an empty table and beside another key's record. *)
Lemma response_depends_on_own_record_sample :
  let '(w1', r1) :=
    handle_alone sampleDateParse nat sampleService postgresJsonb sampleClock sampleRequest emptyWorld in
  let '(w2', r2) :=
    handle_alone sampleDateParse nat sampleService postgresJsonb sampleClock sampleRequest busyWorld in
  r1 = r2 /\ db w1' = db w2' /\ store w1' !! sampleKey = store w2' !! sampleKey
  /\ added emptyWorld w1' = added busyWorld w2'
  /\ (forall k', k' <> sampleKey -> store w1' !! k' = store emptyWorld !! k').
Proof.
  apply (response_depends_on_own_record sampleDateParse nat sampleService postgresJsonb sampleClock
           sampleRequest sampleKey emptyWorld busyWorld);
    reflexivity.
Defined.

(** The body without an amount. *)
Lemma validation_errors_reach_the_user_sample :
  let '(_, res') :=
    validateCreateExpense sampleDateParse nat sampleService sampleClock incompleteBody
      freshResponse emptyWorld in
  match sentBody res' with
  | Some reply =>
      handleApiError (AxiosResponse (Some (asApiError reply)))
      = "Invalid request data: " +:+ join ", " ["Amount is required"]
  | None => False
  end.
Proof.
  apply (validation_errors_reach_the_user sampleDateParse nat sampleService sampleClock
           incompleteBody freshResponse emptyWorld "Amount is required" []);
    try reflexivity.
  discriminate.
Defined.

(** A deployment that sets the host with a trailing slash. *)
Lemma api_base_url_sample :
  endsWith "/api" (getApiBaseUrl (Some "https://expenses.example.com/")) = true
  /\ getApiBaseUrl (Some (getApiBaseUrl (Some "https://expenses.example.com/")))
     = getApiBaseUrl (Some "https://expenses.example.com/").
Proof.
  apply (api_base_url_ends_with_api (Some "https://expenses.example.com/")).
  reflexivity.
Defined.

(** Two runs that differ in the first draw. *)
Lemma generated_keys_sample :
  generateIdempotencyKey sampleDraws = generateIdempotencyKey otherDraws
  <-> forall n, (n < 31)%nat ->
        if Nat.eqb n 15
        then Z.land (randomNibble (sampleDraws n)) 3 = Z.land (randomNibble (otherDraws n)) 3
        else randomNibble (sampleDraws n) = randomNibble (otherDraws n).
Proof.
  apply (generated_keys_equal_iff sampleDraws otherDraws).
  - intros i. unfold sampleDraws. cbn [fst snd]. apply Z.mod_pos_bound. lia.
  - intros [| i]; [cbn; lia |].
    unfold otherDraws, sampleDraws. cbn [fst snd]. apply Z.mod_pos_bound. lia.
Defined.

(** One paisa over the ceiling passes the client's check. *)
Lemma client_checked_amount_sample :
  validateAmountField (JStr "10000000.01") = [err_amount_ceiling].
Proof.
  apply (client_checked_amount "10000000.01"). vm_compute. reflexivity.
Defined.

(** Three retries of the sample request, the first and the last not waited
    for. *)
Lemma retries_sample :
  let '(w1, r1) :=
    handle_alone sampleDateParse nat sampleService postgresJsonb sampleClock sampleRequest
      emptyWorld in
  let '(w2, ress) := serve sampleDateParse sampleService postgresJsonb sampleRetries w1 in
  List.length ress = List.length sampleRetries
  /\ (exists b, sentBody r1 = Some b
                /\ Forall (fun r => statusCode r = 200 /\ sentBody r = Some (postgresJsonb b))
                          ress)
  /\ db w2 = db w1 /\ store w2 = store w1
  /\ added w1 w2 = repeat (EvFindUnique sampleKey) (List.length sampleRetries).
Proof.
  apply (retries_create_at_most_once sampleDateParse nat sampleService postgresJsonb
           sampleClock sampleRequest sampleRetries sampleKey emptyWorld);
    try reflexivity.
  unfold sampleRetries.
  repeat (constructor; [split; [reflexivity | split; [reflexivity | vm_compute; discriminate]] |]).
  constructor.
Defined.

(** 0.1 + 0.2 is not 0.3 in binary64, and still shows as 0.30. *)
Lemma total_sample :
  (exists m k, total ["0.1"; "0.2"; "99.99"] = Finite m (- k) /\ 0 <= k /\ 0 <= m
               /\ 2 * Z.abs (100 * m - totalCents ["0.1"; "0.2"; "99.99"] * 2 ^ k) < 2 ^ k)
  /\ toFixed2 (total ["0.1"; "0.2"; "99.99"])
     = Some (fixed2 (totalCents ["0.1"; "0.2"; "99.99"])).
Proof.
  apply (total_is_exact ["0.1"; "0.2"; "99.99"]).
  - repeat constructor.
  - vm_compute. reflexivity.
Defined.

(** Five rows in three categories. *)
Lemma summary_sample :
  getExpenseSummary sampleRows = Some (exactSummary sampleRows).
Proof.
  apply (summary_is_exact sampleRows).
  - repeat constructor.
  - vm_compute. reflexivity.
Defined.
